(** * MedGenGame: the medication-resolution pipeline

    A shallow embedding of the drug-label lookup service
    ([server/services/dailymed.ts], the revision with the search log) and of
    the formulation logic of [server/services/openai.ts], together with the
    dosage-correction loop and the retry with corrected search terms of
    [server/routes.ts].

    Conventions of the embedding.

    - A JavaScript string is a sequence of UTF-16 code units.  The embedding
      covers the code units below 256 (the Latin-1 range) and represents a
      string as [list ascii]; [lit] turns a literal into such a list.
    - [async]/[await] is sequential in this code: every promise is awaited
      where it is created.  The resolver is therefore modelled by explicit
      state passing, in the monad [M] of state and exceptions.  (The one
      [Promise.all], in the retry of the route, is treated at
      [retrySearches].)
    - The fixed 300 ms pause between requests has no observable effect on
      results or log and is left out.
    - [console.log]/[console.error] output is not modelled.
    - The objects handled are records with the fields and the types of the
      TypeScript declarations.  The routes pass mentions built from JSON
      that nothing has checked; the medication loop is therefore also given
      on mentions whose context is any value ([JsMedication]). *)

From Stdlib Require Import List Ascii String Bool Arith ZArith Lia.
Import ListNotations.

Set Implicit Arguments.

(** ** JavaScript strings *)

Definition str := list ascii.

Definition lit (s : string) : str := list_ascii_of_string s.

(** The double quote, as a string. *)
Definition dquote : str := [ascii_of_nat 34].

Definition code (c : ascii) : nat := nat_of_ascii c.

Definition between (lo hi n : nat) : bool := (lo <=? n) && (n <=? hi).

(** [String.prototype.toLowerCase] on one code unit of the Latin-1 range:
    [A-Z] and the accented capitals U+00C0..U+00DE (without the
    multiplication sign U+00D7) move up by 32. *)
Definition lowerChar (c : ascii) : ascii :=
  let n := code c in
  if between 65 90 n || (between 192 222 n && negb (n =? 215))
  then ascii_of_nat (n + 32)
  else c.

Definition toLowerCase (s : str) : str := map lowerChar s.

(** [\w] of a regular expression without the [u] flag: [[A-Za-z0-9_]]. *)
Definition isWordChar (c : ascii) : bool :=
  let n := code c in
  between 97 122 n || between 65 90 n || between 48 57 n || (n =? 95).

(** Line terminators, which [.] does not match (U+2028 and U+2029 lie
    outside the modelled range). *)
Definition isLineTerminator (c : ascii) : bool :=
  let n := code c in (n =? 10) || (n =? 13).

(** White space removed by [String.prototype.trim]: TAB, LF, VT, FF, CR,
    SPACE and NO-BREAK SPACE. *)
Definition isWhiteSpace (c : ascii) : bool :=
  let n := code c in between 9 13 n || (n =? 32) || (n =? 160).

Definition isDigit (c : ascii) : bool := between 48 57 (code c).

Fixpoint str_eqb (a b : str) : bool :=
  match a, b with
  | [], [] => true
  | x :: a', y :: b' => Ascii.eqb x y && str_eqb a' b'
  | _, _ => false
  end.

(** [s.startsWith(p)] *)
Fixpoint startsWith (p s : str) : bool :=
  match p, s with
  | [], _ => true
  | x :: p', y :: s' => Ascii.eqb x y && startsWith p' s'
  | _ :: _, [] => false
  end.

(** [s.includes(sub)] *)
Fixpoint includes (s sub : str) : bool :=
  startsWith sub s ||
  match s with
  | [] => false
  | _ :: s' => includes s' sub
  end.

Fixpoint dropWhile (f : ascii -> bool) (s : str) : str :=
  match s with
  | [] => []
  | c :: s' => if f c then dropWhile f s' else s
  end.

(** [s.trim()] *)
Definition trim (s : str) : str :=
  rev (dropWhile isWhiteSpace (rev (dropWhile isWhiteSpace s))).

(** [s.split(sep)] for a non-empty separator: the pieces between the
    non-overlapping occurrences of [sep], found from left to right.  [skip]
    counts the code units of a separator occurrence still to be passed over,
    [cur] is the piece being collected. *)
Fixpoint split_go (sep : str) (skip : nat) (cur : str) (s : str) : list str :=
  match s with
  | [] => [cur]
  | c :: s' =>
      match skip with
      | S k => split_go sep k cur s'
      | O =>
          if startsWith sep s
          then cur :: split_go sep (List.length sep - 1) [] s'
          else split_go sep O (cur ++ [c]) s'
      end
  end.

Definition split (sep : str) (s : str) : list str := split_go sep 0 [] s.

(** [arr.join(sep)] *)
Fixpoint join (sep : str) (l : list str) : str :=
  match l with
  | [] => []
  | [x] => x
  | x :: l' => x ++ sep ++ join sep l'
  end.

(** [arr.slice(0, n)] *)
Definition slice0 {A} (n : nat) (l : list A) : list A := firstn n l.

(** ** [[...new Set(arr)]]: insertion-ordered de-duplication *)

Fixpoint mem (x : str) (l : list str) : bool :=
  match l with
  | [] => false
  | y :: l' => str_eqb x y || mem x l'
  end.

(** [set.add(x)]: a value already present keeps its place. *)
Definition setAdd (acc : list str) (x : str) : list str :=
  if mem x acc then acc else acc ++ [x].

Definition uniq (l : list str) : list str := fold_left setAdd l [].

(** ** Regular expressions of the form [/\b(a1|a2|...)\b/i]

    Every regular expression of the formulation logic has this shape: a
    word boundary, an alternation, a word boundary, with the [i] flag and no
    [g] flag (so [test] keeps no position).  An alternative is a sequence of
    literal characters, [.] and [.?]. *)

Inductive Atom : Type :=
| Chr (c : ascii)     (* a literal, compared case-insensitively *)
| AnyChar             (* .  *)
| OptAnyChar.         (* .? *)

Definition Alternative := list Atom.
Definition WordRegex := list Alternative.

Definition chars (s : string) : Alternative := map Chr (lit s).

(** Case-insensitive comparison of a pattern character with an input code
    unit.  The patterns are ASCII, and without the [u] flag no code unit
    above 127 is canonicalised to an ASCII one. *)
Definition ciEq (c x : ascii) : bool := Ascii.eqb (lowerChar x) (lowerChar c).

Definition isWordOpt (o : option ascii) : bool :=
  match o with
  | Some c => isWordChar c
  | None => false
  end.

(** [\b] between the code unit [prev] just read (if any) and the rest [s]. *)
Definition wordBoundary (prev : option ascii) (s : str) : bool :=
  xorb (isWordOpt prev) (isWordOpt (hd_error s)).

(** The backtracking matcher: [k] is the continuation tried on what is
    left.  [.?] is greedy: it first takes a code unit and gives it back
    when the rest fails. *)
Fixpoint matchAtoms (p : Alternative) (prev : option ascii) (s : str)
         (k : option ascii -> str -> bool) : bool :=
  match p with
  | [] => k prev s
  | Chr c :: p' =>
      match s with
      | x :: s' => ciEq c x && matchAtoms p' (Some x) s' k
      | [] => false
      end
  | AnyChar :: p' =>
      match s with
      | x :: s' => negb (isLineTerminator x) && matchAtoms p' (Some x) s' k
      | [] => false
      end
  | OptAnyChar :: p' =>
      match s with
      | x :: s' => negb (isLineTerminator x) && matchAtoms p' (Some x) s' k
      | [] => false
      end
      || matchAtoms p' prev s k
  end.

Definition matchHere (r : WordRegex) (prev : option ascii) (s : str) : bool :=
  wordBoundary prev s &&
  existsb (fun a => matchAtoms a prev s wordBoundary) r.

Fixpoint regexScan (r : WordRegex) (prev : option ascii) (s : str) : bool :=
  matchHere r prev s ||
  match s with
  | [] => false
  | x :: s' => regexScan r (Some x) s'
  end.

(** [r.test(s)] *)
Definition regexTest (r : WordRegex) (s : str) : bool := regexScan r None s.

(** ** Data model *)

Inductive Formulation : Type := IR | ER.

Definition Formulation_eqb (a b : Formulation) : bool :=
  match a, b with
  | IR, IR | ER, ER => true
  | _, _ => false
  end.

Definition showFormulation (f : Formulation) : str :=
  match f with IR => lit "IR" | ER => lit "ER" end.

(** The medication object passed around by both services.  (The fields of
    the other records carry a prefix where two interfaces share a name.) *)
Record Medication : Type := {
  name : str;
  dosage : str;
  formulation : Formulation;
  deliveryMethod : option str;
  fullContext : str
}.

(** One entry of the [data] array in the search service's JSON answer. *)
Record SplItem : Type := {
  item_setid : str;
  item_title : str;
  item_generic_name : option str;
  item_brand_name : option str;
  item_labeler : option str
}.

Record DailyMedSearchResult : Type := {
  setId : str;
  title : str;
  genericName : option str;
  brandName : option str;
  labeler : option str
}.

Record DailyMedDetails : Type := {
  d_setId : str;
  d_title : str;
  d_genericName : option str;
  d_brandName : option str;
  d_labeler : option str;
  d_activeIngredients : list str;
  d_indications : str;
  d_dosageAndAdministration : str;
  d_contraindications : str;
  d_warningsAndPrecautions : str;
  d_adverseReactions : str
}.

Record LogEntry : Type := {
  l_medication : str;
  l_searchTerm : str;
  l_found : bool;
  l_resultTitle : option str;
  l_error : option str;
  l_rejectedReasons : option (list str);
  l_requestedFormulation : Formulation;
  l_deliveryMethod : str
}.

(** [x || ''] on an optional string. *)
Definition orEmpty (o : option str) : str :=
  match o with Some s => s | None => [] end.

(** Truthiness of a string. *)
Definition truthy (s : str) : bool :=
  match s with [] => false | _ => true end.

(** ** dailymed.ts: name permutations and search terms *)

Definition veterinaryKeywords : list str :=
  map lit ["zyvet"; "animal health"; "veterinary"; "pet"; "canine"; "feline";
           "bovine"; "equine"; "porcine"; "avian"; "animal"; "vet"]%string.

Definition humanPharmaKeywords : list str :=
  map lit ["pfizer"; "merck"; "novartis"; "roche"; "johnson"; "abbvie";
           "bristol"; "amgen"; "gilead"; "biogen"; "celgene"; "mylan";
           "teva"; "sandoz"; "apotex"; "par"; "watson"; "actavis";
           "remedyrepack"; "cardinal"; "mckesson"]%string.

(** The [permutations] array before de-duplication. *)
Definition pushedPermutations (drugName : str) : list str :=
  let permutations := [drugName] in
  let permutations :=
    if includes drugName (lit "/") then
      match map trim (split (lit "/") drugName) with
      | [p0; p1] =>
          permutations ++
          [p0 ++ lit "/" ++ p1; p1 ++ lit "/" ++ p0;
           p0 ++ lit " " ++ p1; p1 ++ lit " " ++ p0;
           p0 ++ lit "-" ++ p1; p1 ++ lit "-" ++ p0;
           p0; p1]
      | _ => permutations
      end
    else permutations in
  let permutations :=
    if includes drugName (lit " and ") || includes drugName (lit " & ") then
      let separator :=
        if includes drugName (lit " and ") then lit " and " else lit " & " in
      match map trim (split separator drugName) with
      | [p0; p1] =>
          permutations ++
          [p0 ++ lit "/" ++ p1; p1 ++ lit "/" ++ p0;
           p0 ++ lit " " ++ p1; p1 ++ lit " " ++ p0;
           p0; p1]
      | _ => permutations
      end
    else permutations in
  permutations.

Definition generateCombinationPermutations (drugName : str) : list str :=
  uniq (pushedPermutations drugName).

(** The terms pushed for one name permutation, in push order. *)
Definition termsFor (delivery : str) (f : Formulation) (respimat : bool)
           (drugName : str) : list str :=
  (if truthy delivery then
     (match f with
      | ER => [drugName ++ lit " " ++ delivery ++ lit " extended release";
               drugName ++ lit " " ++ delivery ++ lit " er";
               drugName ++ lit " " ++ delivery ++ lit " xl";
               drugName ++ lit " " ++ delivery ++ lit " xr"]
      | IR => [drugName ++ lit " " ++ delivery ++ lit " immediate release";
               drugName ++ lit " " ++ delivery ++ lit " ir"]
      end)
     ++ [drugName ++ lit " " ++ delivery]
     ++ (if str_eqb delivery (lit "inhaler")
         then [drugName ++ lit " inhalation";
               drugName ++ lit " metered dose inhaler";
               drugName ++ lit " MDI"]
         else [])
     ++ (if str_eqb delivery (lit "handihaler")
         then [drugName ++ lit " dry powder inhaler";
               drugName ++ lit " DPI"]
         else [])
   else [])
  ++ (match f with
      | ER => [drugName ++ lit " extended release";
               drugName ++ lit " er";
               drugName ++ lit " xl";
               drugName ++ lit " xr";
               drugName ++ lit " sustained release";
               drugName ++ lit " sr"]
      | IR => [drugName ++ lit " immediate release";
               drugName ++ lit " ir"]
      end)
  ++ (if respimat then [drugName ++ lit " respimat"] else [])
  ++ [drugName].

(** [medication.deliveryMethod?.toLowerCase() || ''] *)
Definition deliveryOf (m : Medication) : str :=
  match deliveryMethod m with
  | Some d => toLowerCase d
  | None => []
  end.

(** [medication.deliveryMethod || 'unspecified'] *)
Definition deliveryOrUnspecified (m : Medication) : str :=
  match deliveryMethod m with
  | Some d => if truthy d then d else lit "unspecified"
  | None => lit "unspecified"
  end.

(** The [terms] array before de-duplication. *)
Definition rawSearchTerms (m : Medication) : list str :=
  let medName := toLowerCase (name m) in
  let delivery := deliveryOf m in
  let respimat := includes (toLowerCase (fullContext m)) (lit "respimat") in
  flat_map (termsFor delivery (formulation m) respimat)
           (generateCombinationPermutations medName).

Definition generateSearchTerms (m : Medication) : list str :=
  uniq (rawSearchTerms m).

(** ** dailymed.ts: the candidate matcher *)

Definition erIndicators : WordRegex :=
  [chars "extended" ++ [AnyChar] ++ chars "release";
   chars "extended-release";
   chars "er"; chars "xl"; chars "xr";
   chars "sustained" ++ [AnyChar] ++ chars "release";
   chars "sustained-release";
   chars "sr"; chars "la"].

Definition irIndicators : WordRegex :=
  [chars "immediate" ++ [AnyChar] ++ chars "release";
   chars "immediate-release";
   chars "ir"].

(** [veterinaryKeywords.some(keyword => title.includes(keyword) ||
    labeler.includes(keyword))] *)
Definition isVeterinary (title labeler : str) : bool :=
  existsb (fun keyword => includes title keyword || includes labeler keyword)
          veterinaryKeywords.

(** [result.title?.toLowerCase() || ''] and the same for the labeler. *)
Definition lowerTitle (result : DailyMedSearchResult) : str :=
  toLowerCase (title result).

Definition lowerLabeler (result : DailyMedSearchResult) : str :=
  toLowerCase (orEmpty (labeler result)).

Record MatchResult : Type := { isMatch : bool; reason : str }.

Definition isInhalerDelivery (delivery : str) : bool :=
  str_eqb delivery (lit "inhaler") || str_eqb delivery (lit "handihaler").

Definition isAppropriateMatchWithReasons
           (medication : Medication) (result : DailyMedSearchResult)
  : MatchResult :=
  let title := lowerTitle result in
  let labeler := lowerLabeler result in
  let medName := toLowerCase (name medication) in
  let delivery := deliveryOf medication in
  let drugComponents := generateCombinationPermutations medName in
  let hasMatchingComponent :=
    existsb (fun component => includes title (toLowerCase component))
            drugComponents in
  if negb hasMatchingComponent then
    {| isMatch := false;
       reason := lit "doesn't contain any component of " ++ medName |}
  else if isVeterinary title labeler then
    {| isMatch := false; reason := lit "veterinary/animal health product" |}
  else if truthy delivery && isInhalerDelivery delivery
          && (includes title (lit "solution")
              && negb (includes title (lit "inhalation"))) then
    {| isMatch := false;
       reason := lit "solution not appropriate for inhaler delivery" |}
  else if truthy delivery && isInhalerDelivery delivery
          && (includes title (lit "tablet")
              || includes title (lit "capsule")) then
    {| isMatch := false;
       reason := lit "tablet/capsule not appropriate for inhaler delivery" |}
  else if str_eqb medName (lit "tiotropium")
          && negb (includes (toLowerCase (fullContext medication))
                            (lit "olodaterol"))
          && includes title (lit "olodaterol") then
    {| isMatch := false;
       reason := lit "contains olodaterol but patient info doesn't mention it" |}
  else
    match formulation medication with
    | ER =>
        if regexTest irIndicators title then
          {| isMatch := false;
             reason :=
               lit "explicitly states immediate release but patient needs ER" |}
        else {| isMatch := true; reason := lit "appropriate match" |}
    | IR =>
        if regexTest erIndicators title then
          {| isMatch := false;
             reason := lit "extended release but patient needs IR" |}
        else {| isMatch := true; reason := lit "appropriate match" |}
    end.

(** The body of the candidate loop of [tryRelaxedSearch]: [false] stands
    for each of its [continue]s, [true] for reaching the [return]. *)
Definition relaxedAccepts
           (medication : Medication) (result : DailyMedSearchResult) : bool :=
  let title := lowerTitle result in
  let labeler := lowerLabeler result in
  if isVeterinary title labeler then false
  else
    let hasBasicMatch :=
      includes title (toLowerCase (name medication))
      || includes title
           (hd [] (split (lit "/") (toLowerCase (name medication)))) in
    if negb hasBasicMatch then false
    else
      match formulation medication with
      | IR => negb (regexTest erIndicators title)
      | ER => negb (regexTest irIndicators title)
      end.

(** ** dailymed.ts: [searchMedications] *)

(** [Array.prototype.sort] is stable; insertion from the right with ties
    kept in place is such a sort. *)
Fixpoint insertBy {A} (cmp : A -> A -> Z) (x : A) (l : list A) : list A :=
  match l with
  | [] => [x]
  | y :: l' => if (cmp x y <=? 0)%Z then x :: l else y :: insertBy cmp x l'
  end.

Definition stableSort {A} (cmp : A -> A -> Z) (l : list A) : list A :=
  fold_right (insertBy cmp) [] l.

Definition isHumanItem (item : SplItem) : bool :=
  let title := toLowerCase (item_title item) in
  let labeler := toLowerCase (orEmpty (item_labeler item)) in
  negb (isVeterinary title labeler).

Definition isHumanPharma (item : SplItem) : bool :=
  let labeler := toLowerCase (orEmpty (item_labeler item)) in
  existsb (fun keyword => includes labeler keyword) humanPharmaKeywords.

Definition comparePharma (a b : SplItem) : Z :=
  let aIsHumanPharma := isHumanPharma a in
  let bIsHumanPharma := isHumanPharma b in
  if aIsHumanPharma && negb bIsHumanPharma then (-1)%Z
  else if negb aIsHumanPharma && bIsHumanPharma then 1%Z
  else 0%Z.

Definition toSearchResult (item : SplItem) : DailyMedSearchResult :=
  {| setId := item_setid item;
     title := item_title item;
     genericName := item_generic_name item;
     brandName := item_brand_name item;
     labeler := item_labeler item |}.

(** What [searchMedications] returns for a [data] array. *)
Definition searchResultsOf (data : list SplItem) : list DailyMedSearchResult :=
  let humanMedications := filter isHumanItem data in
  let sortedResults := stableSort comparePharma humanMedications in
  map toSearchResult (slice0 5 sortedResults).

(** ** The search service and the monad of the resolver *)

(** What one request to the search service can come to: a failure (no
    connection, a status that is not OK, a body that is not JSON), an answer
    without a [data] array, or an answer with one. *)
Inductive FetchOutcome : Type :=
| FetchFailed
| NoDataArray
| DataArray (data : list SplItem).

(** The search service: its state and one request to it. *)
Class Collaborator : Type := {
  World : Type;
  fetchSpls : str -> World -> FetchOutcome * World
}.

(** The static reference texts keyed by drug name and formulation
    ([getCommonIndications] and the four methods after it): total functions
    of their two arguments, whose tables play no part in resolution. *)
Class ReferenceTexts : Type := {
  getCommonIndications : str -> Formulation -> str;
  getCommonDosage : str -> Formulation -> str;
  getCommonContraindications : str -> Formulation -> str;
  getCommonWarnings : str -> Formulation -> str;
  getCommonSideEffects : str -> Formulation -> str
}.

(** A thrown [Error]; [showExn] is what a template literal makes of it. *)
Record Exn : Type := { exn_name : str; exn_message : str }.

Definition showExn (e : Exn) : str :=
  match exn_name e, exn_message e with
  | [], msg => msg
  | nm, [] => nm
  | nm, msg => nm ++ lit ": " ++ msg
  end.

Definition newError (msg : str) : Exn :=
  {| exn_name := lit "Error"; exn_message := msg |}.

Inductive Res (A : Type) : Type :=
| Ok (a : A)
| Throw (e : Exn).

Arguments Ok {A} a.
Arguments Throw {A} e.

Section Resolver.

Context `{Collaborator} `{ReferenceTexts}.

(** The state of one run of [searchMultipleMedications]: the search
    service, the requests made so far with what [searchMedications] made of
    each (kept for the specification), and the two arrays being filled. *)
Record State : Type := {
  world : World;
  calls : list (str * Res (list DailyMedSearchResult));
  searchLog : list LogEntry;
  results : list DailyMedDetails
}.

Definition M (A : Type) : Type := State -> Res A * State.

Definition ret {A} (a : A) : M A := fun st => (Ok a, st).

Definition bind {A B} (m : M A) (f : A -> M B) : M B :=
  fun st =>
    match m st with
    | (Ok a, st') => f a st'
    | (Throw e, st') => (Throw e, st')
    end.

(** [try { body } catch (e) { handler }]: what the body did to the state
    before it threw stays done. *)
Definition tryCatch {A} (body : M A) (handler : Exn -> M A) : M A :=
  fun st =>
    match body st with
    | (Ok a, st') => (Ok a, st')
    | (Throw e, st') => handler e st'
    end.

Definition pushLog (entry : LogEntry) : M unit :=
  fun st =>
    (Ok tt, {| world := world st; calls := calls st;
               searchLog := searchLog st ++ [entry];
               results := results st |}).

Definition pushResult (details : DailyMedDetails) : M unit :=
  fun st =>
    (Ok tt, {| world := world st; calls := calls st;
               searchLog := searchLog st;
               results := results st ++ [details] |}).

Definition searchOutcome (o : FetchOutcome) : Res (list DailyMedSearchResult) :=
  match o with
  | FetchFailed =>
      Throw (newError (lit "Failed to search medications in DailyMed database"))
  | NoDataArray => Ok []
  | DataArray data => Ok (searchResultsOf data)
  end.

Definition searchMedications (query : str) : M (list DailyMedSearchResult) :=
  fun st =>
    let (o, w) := fetchSpls query (world st) in
    let r := searchOutcome o in
    (r, {| world := w; calls := calls st ++ [(query, r)];
           searchLog := searchLog st; results := results st |}).

End Resolver.

Notation "x <- m ;; k" := (bind m (fun x => k))
  (at level 61, m at next level, right associativity).
Notation "m ;;; k" := (bind m (fun _ => k))
  (at level 61, right associativity).

(** ** dailymed.ts: [searchMultipleMedications] and [tryRelaxedSearch] *)

Section Orchestrator.

Context `{Collaborator} `{ReferenceTexts}.

(** The [let] variables of one pass through the medication loop. *)
Record Locals : Type := {
  bestResult : option DailyMedSearchResult;
  bestSearchTerm : str;
  allRejectedReasons : list str;
  searchErrors : list str
}.

Definition initLocals : Locals :=
  {| bestResult := None; bestSearchTerm := [];
     allRejectedReasons := []; searchErrors := [] |}.

(** The loop over [searchResults.slice(0, 3)]: the first appropriate
    result, and the reasons pushed for the results rejected before it. *)
Fixpoint checkTop (medication : Medication) (rs : list DailyMedSearchResult)
         (rejected : list str) : option DailyMedSearchResult * list str :=
  match rs with
  | [] => (None, rejected)
  | result :: rs' =>
      let matchResult := isAppropriateMatchWithReasons medication result in
      if isMatch matchResult then (Some result, rejected)
      else checkTop medication rs'
             (rejected ++ [title result ++ lit ": " ++ reason matchResult])
  end.

Definition strictLogEntry (medication : Medication) (searchTerm : str)
           (searchResults : list DailyMedSearchResult) (rejected : list str)
  : LogEntry :=
  {| l_medication := name medication;
     l_searchTerm := searchTerm;
     l_found := negb (Nat.eqb (List.length searchResults) 0);
     l_resultTitle := option_map title (hd_error searchResults);
     l_error :=
       match searchResults with
       | [] => Some (lit "No results found in DailyMed database")
       | _ => None
       end;
     l_rejectedReasons := Some rejected;
     l_requestedFormulation := formulation medication;
     l_deliveryMethod := deliveryOrUnspecified medication |}.

Definition searchFailedEntry (medication : Medication) (searchTerm : str)
           (searchError : Exn) : LogEntry :=
  {| l_medication := name medication;
     l_searchTerm := searchTerm;
     l_found := false;
     l_resultTitle := None;
     l_error := Some (lit "Search failed: " ++ showExn searchError);
     l_rejectedReasons := None;
     l_requestedFormulation := formulation medication;
     l_deliveryMethod := deliveryOrUnspecified medication |}.

(** The body of the [try] inside the search-term loop. *)
Definition strictAttempt (medication : Medication) (searchTerm : str)
           (loc : Locals) : M Locals :=
  searchResults <- searchMedications searchTerm ;;
  let (best, rejected) := checkTop medication (slice0 3 searchResults) [] in
  pushLog (strictLogEntry medication searchTerm searchResults rejected) ;;;
  ret {| bestResult :=
           match best with Some _ => best | None => bestResult loc end;
         bestSearchTerm :=
           match best with Some _ => searchTerm | None => bestSearchTerm loc end;
         allRejectedReasons := allRejectedReasons loc ++ rejected;
         searchErrors := searchErrors loc |}.

(** The [catch] of the search-term loop. *)
Definition strictHandler (medication : Medication) (searchTerm : str)
           (loc : Locals) (searchError : Exn) : M Locals :=
  pushLog (searchFailedEntry medication searchTerm searchError) ;;;
  ret {| bestResult := bestResult loc;
         bestSearchTerm := bestSearchTerm loc;
         allRejectedReasons := allRejectedReasons loc;
         searchErrors :=
           searchErrors loc ++
           [lit "Error searching " ++ dquote ++ searchTerm ++ dquote
            ++ lit ": " ++ showExn searchError] |}.

(** [for (const searchTerm of searchTerms)], left by [break] as soon as
    [bestResult] is set. *)
Fixpoint strictLoop (medication : Medication) (searchTerms : list str)
         (loc : Locals) : M Locals :=
  match searchTerms with
  | [] => ret loc
  | searchTerm :: rest =>
      loc' <- tryCatch (strictAttempt medication searchTerm loc)
                       (strictHandler medication searchTerm loc) ;;
      match bestResult loc' with
      | Some _ => ret loc'
      | None => strictLoop medication rest loc'
      end
  end.

Definition relaxedLogEntry (medication : Medication) (searchTerm : str)
           (result : DailyMedSearchResult) : LogEntry :=
  {| l_medication := name medication;
     l_searchTerm := searchTerm ++ lit " (relaxed)";
     l_found := true;
     l_resultTitle := Some (title result);
     l_error :=
       Some (lit "Found with relaxed criteria - "
             ++ showFormulation (formulation medication)
             ++ lit " formulation preserved");
     l_rejectedReasons := None;
     l_requestedFormulation := formulation medication;
     l_deliveryMethod := deliveryOrUnspecified medication |}.

(** The body of the [try] of the relaxed loop; [Some] is its [return]. *)
Definition relaxedAttempt (medication : Medication) (searchTerm : str)
  : M (option (DailyMedSearchResult * str)) :=
  searchResults <- searchMedications searchTerm ;;
  match find (relaxedAccepts medication) (slice0 10 searchResults) with
  | Some result =>
      pushLog (relaxedLogEntry medication searchTerm result) ;;;
      ret (Some (result, searchTerm ++ lit " (relaxed)"))
  | None => ret None
  end.

Fixpoint relaxedLoop (medication : Medication) (uniqueTerms : list str)
  : M (option (DailyMedSearchResult * str)) :=
  match uniqueTerms with
  | [] => ret None
  | searchTerm :: rest =>
      r <- tryCatch (relaxedAttempt medication searchTerm)
                    (fun _ => ret None) ;;
      match r with
      | Some found => ret (Some found)
      | None => relaxedLoop medication rest
      end
  end.

Definition relaxedSearchTerms (medication : Medication) : list str :=
  let lowered := toLowerCase (name medication) in
  [lowered; hd [] (split (lit "/") lowered); hd [] (split (lit "-") lowered)].

Definition tryRelaxedSearch (medication : Medication)
  : M (option (DailyMedSearchResult * str)) :=
  relaxedLoop medication (uniq (relaxedSearchTerms medication)).

Definition detailsOf (medication : Medication) (best : DailyMedSearchResult)
  : DailyMedDetails :=
  {| d_setId := setId best;
     d_title := title best;
     d_genericName := genericName best;
     d_brandName := brandName best;
     d_labeler := labeler best;
     d_activeIngredients :=
       match genericName best with
       | Some g => if truthy g then [g] else []
       | None => []
       end;
     d_indications :=
       getCommonIndications (name medication) (formulation medication);
     d_dosageAndAdministration :=
       getCommonDosage (name medication) (formulation medication);
     d_contraindications :=
       getCommonContraindications (name medication) (formulation medication);
     d_warningsAndPrecautions :=
       getCommonWarnings (name medication) (formulation medication);
     d_adverseReactions :=
       getCommonSideEffects (name medication) (formulation medication) |}.

Definition failureReason (loc : Locals) : str :=
  if negb (Nat.eqb (List.length (searchErrors loc)) 0) then
    lit "Search errors: " ++ join (lit "; ") (searchErrors loc)
  else if negb (Nat.eqb (List.length (allRejectedReasons loc)) 0) then
    lit "Found results but all were rejected: "
    ++ join (lit "; ") (slice0 3 (allRejectedReasons loc))
  else lit "No results found in DailyMed database".

Definition failureEntry (medication : Medication) (loc : Locals) : LogEntry :=
  {| l_medication := name medication;
     l_searchTerm := lit "SEARCH_FAILED";
     l_found := false;
     l_resultTitle := None;
     l_error := Some (failureReason loc);
     l_rejectedReasons := Some (slice0 5 (allRejectedReasons loc));
     l_requestedFormulation := formulation medication;
     l_deliveryMethod := deliveryOrUnspecified medication |}.

Definition processingErrorEntry (medication : Medication) (error : Exn)
  : LogEntry :=
  {| l_medication := name medication;
     l_searchTerm := lit "PROCESSING_ERROR";
     l_found := false;
     l_resultTitle := None;
     l_error := Some (lit "Processing failed: " ++ showExn error);
     l_rejectedReasons := None;
     l_requestedFormulation := formulation medication;
     l_deliveryMethod := deliveryOrUnspecified medication |}.

(** The relaxed fallback, entered only when the strict loop found nothing. *)
Definition relaxedStage (medication : Medication) (loc : Locals) : M Locals :=
  match bestResult loc with
  | Some _ => ret loc
  | None =>
      relaxedResult <- tryRelaxedSearch medication ;;
      match relaxedResult with
      | Some (result, searchTerm) =>
          ret {| bestResult := Some result;
                 bestSearchTerm := searchTerm;
                 allRejectedReasons := allRejectedReasons loc;
                 searchErrors := searchErrors loc |}
      | None => ret loc
      end
  end.

(** The body of the [try] of the medication loop. *)
Definition processMedication (medication : Medication) : M unit :=
  let searchTerms := generateSearchTerms medication in
  loc <- strictLoop medication searchTerms initLocals ;;
  loc <- relaxedStage medication loc ;;
  match bestResult loc with
  | Some best => pushResult (detailsOf medication best)
  | None => pushLog (failureEntry medication loc)
  end.

(** [for (const medication of medications) { try { ... } catch (error)
    { ...; continue; } }].  The loop is stated for any body, so that what
    its [catch] does can be said of every exception that leaves a body. *)
Fixpoint medicationLoop (body : Medication -> M unit)
         (medications : list Medication) : M unit :=
  match medications with
  | [] => ret tt
  | medication :: rest =>
      tryCatch (body medication)
               (fun error => pushLog (processingErrorEntry medication error)) ;;;
      medicationLoop body rest
  end.

Definition initState (w : World) : State :=
  {| world := w; calls := []; searchLog := []; results := [] |}.

(** [searchMultipleMedications], from the list [medications] it computes
    first (the caller's list when one is passed, as both routes do) to its
    [return { results, searchLog }]. *)
Definition searchMultipleMedications (medications : list Medication)
  : World -> Res (list DailyMedDetails * list LogEntry) * State :=
  fun w =>
    match medicationLoop processMedication medications (initState w) with
    | (Ok _, st) => (Ok (results st, searchLog st), st)
    | (Throw e, st) => (Throw e, st)
    end.

End Orchestrator.

(** ** openai.ts: the formulation decided at extraction *)

(** [/\b(extended.?release|extended.?release|er|xl|xr|sustained.?release|sr|la|long.?acting)\b/i] *)
Definition erKeywords : WordRegex :=
  [chars "extended" ++ [OptAnyChar] ++ chars "release";
   chars "extended" ++ [OptAnyChar] ++ chars "release";
   chars "er"; chars "xl"; chars "xr";
   chars "sustained" ++ [OptAnyChar] ++ chars "release";
   chars "sr"; chars "la";
   chars "long" ++ [OptAnyChar] ++ chars "acting"].

Definition isExplicitlyER (context : str) : bool := regexTest erKeywords context.

(** One element of the [medications] array of the model's JSON answer; a
    property can be missing. *)
Record RawMedication : Type := {
  raw_name : option str;
  raw_dosage : option str;
  raw_formulation : option str;
  raw_deliveryMethod : option str;
  raw_fullContext : option str
}.

(** A missing argument reaches [RegExp.prototype.test] as the string
    ["undefined"]. *)
Definition argString (o : option str) : str :=
  match o with
  | Some s => s
  | None => lit "undefined"
  end.

Definition isER (o : option str) : bool :=
  match o with
  | Some s => str_eqb s (lit "ER")
  | None => false
  end.

(** [finalFormulation] in the [map] callback of
    [extractMedicationsFromText]. *)
Definition finalFormulation (med : RawMedication) : Formulation :=
  if isER (raw_formulation med) && isExplicitlyER (argString (raw_fullContext med))
  then ER
  else IR.

(** The [map] callback of [extractMedicationsFromText]. *)
Definition finalizeMedication (med : RawMedication) : Medication :=
  {| name := orEmpty (raw_name med);
     dosage := orEmpty (raw_dosage med);
     formulation := finalFormulation med;
     deliveryMethod := Some (orEmpty (raw_deliveryMethod med));
     fullContext := orEmpty (raw_fullContext med) |}.

(** What [extractMedicationsFromText] returns for the array it parsed. *)
Definition extractedMedications (medications : list RawMedication)
  : list Medication :=
  map finalizeMedication medications.

(** The indicator of the pattern-based extractor [extractMedicationNames]:
    [/\b(er|xr|extended.release|extended-release|xl|la|sr|sustained.release|sustained-release)\b/i] *)
Definition erIndicatorsPattern : WordRegex :=
  [chars "er"; chars "xr";
   chars "extended" ++ [AnyChar] ++ chars "release";
   chars "extended-release";
   chars "xl"; chars "la"; chars "sr";
   chars "sustained" ++ [AnyChar] ++ chars "release";
   chars "sustained-release"].

(** The formulation [extractMedicationNames] stores for a context window. *)
Definition patternFormulation (fullContext : str) : Formulation :=
  if regexTest erIndicatorsPattern fullContext then ER else IR.

(** ** openai.ts: [validateDosageAvailability] *)

Fixpoint spanDigits (s : str) : str * str :=
  match s with
  | c :: s' =>
      if isDigit c then let (ds, r) := spanDigits s' in (c :: ds, r)
      else ([], s)
  | [] => ([], [])
  end.

(** A match of [\d+(?:\.\d+)?] at the head of [s], with what follows it.
    Both repetitions are greedy and nothing after them can fail, so the
    match is the longest one. *)
Definition numberAt (s : str) : option (str * str) :=
  match spanDigits s with
  | ([], _) => None
  | (ds, r) =>
      match r with
      | c :: r' =>
          if Ascii.eqb c "."%char then
            match spanDigits r' with
            | ([], _) => Some (ds, r)
            | (fs, r'') => Some (ds ++ c :: fs, r'')
            end
          else Some (ds, r)
      | [] => Some (ds, r)
      end
  end.

(** [dosage.match(/\d+(?:\.\d+)?/g)]: the matches from left to right;
    [skip] counts the code units of the last match still to be passed. *)
Fixpoint matchNumbers (skip : nat) (s : str) : list str :=
  match s with
  | [] => []
  | _ :: s' =>
      match skip with
      | S k => matchNumbers k s'
      | O =>
          match numberAt s with
          | Some (m, _) => m :: matchNumbers (List.length m - 1) s'
          | None => matchNumbers O s'
          end
      end
  end.

(** [dosage.match(/(\d+(?:\.\d+)?)\/(\d+(?:\.\d+)?)/)]: the two groups of
    the leftmost match.  The first group must be followed by the slash, so
    only its longest match can succeed. *)
Fixpoint matchCombination (s : str) : option (str * str) :=
  let here :=
    match numberAt s with
    | Some (a, c :: r) =>
        if Ascii.eqb c "/"%char then
          match numberAt r with
          | Some (b, _) => Some (a, b)
          | None => None
          end
        else None
    | _ => None
    end in
  match here with
  | Some ab => Some ab
  | None =>
      match s with
      | [] => None
      | _ :: s' => matchCombination s'
      end
  end.

Definition extractDosageNumbers (dosage : str) : list str :=
  let patterns :=
    flat_map (fun m => [m ++ lit "mg"; m ++ lit " mg"; m])
             (matchNumbers 0 dosage) in
  let patterns :=
    match matchCombination dosage with
    | Some (a, b) =>
        patterns ++ [a ++ lit "/" ++ b; a ++ lit " / " ++ b; a ++ lit "-" ++ b]
    | None => patterns
    end in
  uniq patterns.

Record Available : Type := { availIR : bool; availER : bool }.

(** One pass of the loop over [searchResults]. *)
Definition noteAvailable (dosagePattern : list str) (av : Available)
           (result : DailyMedDetails) : Available :=
  let title := toLowerCase (d_title result) in
  let hasMatchingDosage := existsb (fun dose => includes title dose) dosagePattern in
  if hasMatchingDosage then
    if regexTest erIndicators title then
      {| availIR := availIR av; availER := true |}
    else if regexTest irIndicators title || negb (regexTest erIndicators title) then
      {| availIR := true; availER := availER av |}
    else av
  else av.

Record DosageValidation : Type := { v_formulation : Formulation; v_reasoning : str }.

Definition validateDosageAvailability
           (medication : Medication) (searchResults : list DailyMedDetails)
  : DosageValidation :=
  let dosagePattern := extractDosageNumbers (dosage medication) in
  let availableFormulations :=
    fold_left (noteAvailable dosagePattern) searchResults
              {| availIR := false; availER := false |} in
  if Formulation_eqb (formulation medication) ER
     && availER availableFormulations then
    {| v_formulation := ER;
       v_reasoning := lit "ER explicitly requested and available" |}
  else if Formulation_eqb (formulation medication) ER
          && negb (availER availableFormulations)
          && availIR availableFormulations then
    {| v_formulation := IR;
       v_reasoning := lit "ER requested but not available, defaulting to IR" |}
  else if availIR availableFormulations then
    {| v_formulation := IR; v_reasoning := lit "IR is default and available" |}
  else if availER availableFormulations then
    {| v_formulation := ER; v_reasoning := lit "only ER formulation available" |}
  else
    {| v_formulation := IR;
       v_reasoning := lit "no specific dosage found, defaulting to IR" |}.

(** ** routes.ts: the dosage loop of [/api/generate-games] *)

Definition withFormulation (med : Medication) (f : Formulation) : Medication :=
  {| name := name med; dosage := dosage med; formulation := f;
     deliveryMethod := deliveryMethod med; fullContext := fullContext med |}.

(** One pass of [for (let i = 0; i < extractedMedications.length; i++)]:
    the medication at index [i] after the pass. *)
Definition applyDosageLogicAt (dailyMedResults : list DailyMedDetails)
           (i : nat) (med : Medication) : Medication :=
  match nth_error dailyMedResults i with
  | Some result =>
      if truthy (dosage med) then
        let dosageValidation := validateDosageAvailability med [result] in
        if negb (Formulation_eqb (v_formulation dosageValidation)
                                 (formulation med))
        then withFormulation med (v_formulation dosageValidation)
        else med
      else med
  | None => med
  end.

Fixpoint applyDosageLogicFrom (dailyMedResults : list DailyMedDetails)
         (i : nat) (meds : list Medication) : list Medication :=
  match meds with
  | [] => []
  | med :: rest =>
      applyDosageLogicAt dailyMedResults i med
      :: applyDosageLogicFrom dailyMedResults (S i) rest
  end.

(** [extractedMedications] after the loop. *)
Definition applyDosageLogic (meds : list Medication)
           (dailyMedResults : list DailyMedDetails) : list Medication :=
  applyDosageLogicFrom dailyMedResults 0 meds.

(** ** Vocabulary of the statements *)

(** De-duplication that keeps first occurrences, as a list function. *)
Fixpoint keepFirst (l : list str) : list str :=
  match l with
  | [] => []
  | x :: l' => x :: filter (fun y => negb (str_eqb y x)) (keepFirst l')
  end.

(** A string that [toLowerCase] leaves as it is. *)
Definition isLowerCased (s : str) : Prop := toLowerCase s = s.

(** The code unit before the position reached after reading [s], when
    [prev] was the one before [s]. *)
Definition lastOr (prev : option ascii) (s : str) : option ascii :=
  fold_left (fun _ c => Some c) s prev.

(** The strings an alternative matches in full. *)
Fixpoint denotes (p : Alternative) (mid : str) : Prop :=
  match p with
  | [] => mid = []
  | Chr c :: p' =>
      exists x m, mid = x :: m /\ ciEq c x = true /\ denotes p' m
  | AnyChar :: p' =>
      exists x m, mid = x :: m /\ isLineTerminator x = false /\ denotes p' m
  | OptAnyChar :: p' =>
      (exists x m, mid = x :: m /\ isLineTerminator x = false /\ denotes p' m)
      \/ denotes p' mid
  end.

(** [mid] stands in [ctx] between word boundaries, with [pre] before it
    and [post] after it. *)
Definition wholeWordAt (ctx pre mid post : str) : Prop :=
  ctx = pre ++ mid ++ post
  /\ wordBoundary (lastOr None pre) (mid ++ post) = true
  /\ wordBoundary (lastOr (lastOr None pre) mid) post = true.

(** [ctx] contains the keyword [kw] as a whole word, in any case. *)
Definition containsWord (kw ctx : str) : bool :=
  regexTest [map Chr kw] ctx.

(** The keyword list of the classifier as the specification gives it. *)
Definition listedErKeywords : list str :=
  map lit ["extended release"; "extended-release"; "er"; "xr"; "xl"; "la";
           "sustained release"; "sustained-release"; "sr";
           "long-acting"]%string.

(** [a], at most one code unit that is no line terminator, then [b]. *)
Definition joinedPhrase (a b : string) (mid : str) : Prop :=
  exists sep,
    List.length sep <= 1
    /\ Forall (fun c => isLineTerminator c = false) sep
    /\ toLowerCase mid = lit a ++ toLowerCase sep ++ lit b.

(** What [isExplicitlyER] takes for an extended-release cue. *)
Definition erCue (mid : str) : Prop :=
  In (toLowerCase mid) (map lit ["er"; "xl"; "xr"; "sr"; "la"]%string)
  \/ joinedPhrase "extended" "release" mid
  \/ joinedPhrase "sustained" "release" mid
  \/ joinedPhrase "long" "acting" mid.

(** The title of a candidate contradicts the requested formulation. *)
Definition formulationConflict (f : Formulation) (title : str) : bool :=
  match f with
  | IR => regexTest erIndicators (toLowerCase title)
  | ER => regexTest irIndicators (toLowerCase title)
  end.

(** The words that mark a title as extended release, and as immediate
    release, for the matchers: the words of their two regular expressions.
    (Of the extended-release words of [isExplicitlyER], collected in
    [listedErKeywords], long-acting is not among them.) *)
Definition erTitleWords : list str :=
  map lit ["extended release"; "extended-release"; "er"; "xl"; "xr";
           "sustained release"; "sustained-release"; "sr"; "la"]%string.

Definition irTitleWords : list str :=
  map lit ["immediate release"; "immediate-release"; "ir"]%string.

(** A candidate whose title or labeler holds a veterinary keyword. *)
Definition veterinaryFlagged (title : str) (labeler : option str) : bool :=
  isVeterinary (toLowerCase title) (toLowerCase (orEmpty labeler)).

Definition strictAccepts (medication : Medication)
           (result : DailyMedSearchResult) : bool :=
  isMatch (isAppropriateMatchWithReasons medication result).

(** The candidate the strict pass takes from one answer, if any. *)
Definition strictPick (medication : Medication)
           (r : Res (list DailyMedSearchResult)) : option DailyMedSearchResult :=
  match r with
  | Ok rs => find (strictAccepts medication) (slice0 3 rs)
  | Throw _ => None
  end.

(** The candidate the relaxed pass takes from one answer, if any. *)
Definition relaxedPick (medication : Medication)
           (r : Res (list DailyMedSearchResult)) : option DailyMedSearchResult :=
  match r with
  | Ok rs => find (relaxedAccepts medication) (slice0 10 rs)
  | Throw _ => None
  end.

(** The log entries that stand for a search attempt, as opposed to the
    two closing markers. *)
Definition isAttemptEntry (e : LogEntry) : bool :=
  negb (str_eqb (l_searchTerm e) (lit "SEARCH_FAILED"))
  && negb (str_eqb (l_searchTerm e) (lit "PROCESSING_ERROR")).

Definition attemptEntries (log : list LogEntry) : list LogEntry :=
  filter isAttemptEntry log.

(** The entry the strict pass logs for one request and its answer. *)
Definition strictEntry (medication : Medication)
           (c : str * Res (list DailyMedSearchResult)) : LogEntry :=
  match snd c with
  | Ok rs =>
      strictLogEntry medication (fst c) rs
                     (snd (checkTop medication (slice0 3 rs) []))
  | Throw e => searchFailedEntry medication (fst c) e
  end.

(** The requests [cs] went through [terms] in order and stopped at the
    first answer from which [pick] takes a candidate: [best] is the term of
    that request with the candidate taken.  With no such answer they went
    through all of [terms]. *)
Definition searchedUntil
           (pick : Res (list DailyMedSearchResult) -> option DailyMedSearchResult)
           (terms : list str)
           (cs : list (str * Res (list DailyMedSearchResult)))
           (best : option (str * DailyMedSearchResult)) : Prop :=
  match best with
  | Some (t, r) =>
      exists pre resp post,
        cs = pre ++ [(t, resp)]
        /\ terms = map fst pre ++ t :: post
        /\ Forall (fun c => pick (snd c) = None) pre
        /\ pick resp = Some r
  | None =>
      map fst cs = terms /\ Forall (fun c => pick (snd c) = None) cs
  end.

(** What closes the log of one medication: nothing after a strict match,
    the relaxed entry after a relaxed match, the failure entry otherwise. *)
Inductive Closing : Type :=
| ClosedByStrict (r : DailyMedSearchResult)
| ClosedByRelaxed (t : str) (r : DailyMedSearchResult)
| ClosedByFailure (loc : Locals).

Definition closingEntries (medication : Medication) (c : Closing)
  : list LogEntry :=
  match c with
  | ClosedByStrict _ => []
  | ClosedByRelaxed t r => [relaxedLogEntry medication t r]
  | ClosedByFailure loc => [failureEntry medication loc]
  end.

Definition closingResults `{ReferenceTexts} (medication : Medication)
           (c : Closing) : list DailyMedDetails :=
  match c with
  | ClosedByStrict r => [detailsOf medication r]
  | ClosedByRelaxed _ r => [detailsOf medication r]
  | ClosedByFailure _ => []
  end.

(** How one medication was resolved: [cs1] are the requests of the strict
    pass, [cs2] those of the relaxed pass. *)
Definition resolution (medication : Medication)
           (cs1 cs2 : list (str * Res (list DailyMedSearchResult)))
           (c : Closing) : Prop :=
  match c with
  | ClosedByStrict r =>
      (exists t, searchedUntil (strictPick medication)
                               (generateSearchTerms medication) cs1
                               (Some (t, r)))
      /\ cs2 = []
  | ClosedByRelaxed t r =>
      searchedUntil (strictPick medication)
                    (generateSearchTerms medication) cs1 None
      /\ searchedUntil (relaxedPick medication)
                       (uniq (relaxedSearchTerms medication)) cs2
                       (Some (t, r))
  | ClosedByFailure _ =>
      searchedUntil (strictPick medication)
                    (generateSearchTerms medication) cs1 None
      /\ searchedUntil (relaxedPick medication)
                       (uniq (relaxedSearchTerms medication)) cs2 None
  end.

Section RunVocabulary.

Context `{Collaborator}.

(** What [searchMedications] makes of the answer to [query] in state [st]. *)
Definition answerOf (query : str) (st : State)
  : Res (list DailyMedSearchResult) :=
  searchOutcome (fst (fetchSpls query (world st))).

(** The state after the request for [query]. *)
Definition afterRequest (query : str) (st : State) : State :=
  {| world := snd (fetchSpls query (world st));
     calls := calls st ++ [(query, answerOf query st)];
     searchLog := searchLog st;
     results := results st |}.

(** The state with the entries [es] appended to the log. *)
Definition logged (st : State) (es : list LogEntry) : State :=
  {| world := world st; calls := calls st;
     searchLog := searchLog st ++ es; results := results st |}.

(** The request [c] holds what [searchMedications] makes of an answer of
    the service to its query. *)
Definition answered (c : str * Res (list DailyMedSearchResult)) : Prop :=
  exists w, snd c = searchOutcome (fst (fetchSpls (fst c) w)).

(** [st'] has grown from [st] by the requests [cs], each answered by the
    service, the log entries [es] and the results [ds]. *)
Definition grownBy (st st' : State)
           (cs : list (str * Res (list DailyMedSearchResult)))
           (es : list LogEntry) (ds : list DailyMedDetails) : Prop :=
  calls st' = calls st ++ cs
  /\ searchLog st' = searchLog st ++ es
  /\ results st' = results st ++ ds
  /\ Forall answered cs.

End RunVocabulary.

(** The error [searchMedications] throws for every failure. *)
Definition searchError : Exn :=
  newError (lit "Failed to search medications in DailyMed database").

(** The service fails on every request for one of the terms [qs]. *)
Definition failsOn `{Collaborator} (qs : list str) : Prop :=
  forall q, In q qs -> forall w, fst (fetchSpls q w) = FetchFailed.

(** ** Search services for the examples *)

(** A service that answers by a fixed table and counts its requests. *)
Definition tableService (answer : str -> FetchOutcome) : Collaborator :=
  {| World := nat;
     fetchSpls := fun query w => (answer query, S w) |}.

Definition noTexts : ReferenceTexts :=
  {| getCommonIndications := fun _ _ => [];
     getCommonDosage := fun _ _ => [];
     getCommonContraindications := fun _ _ => [];
     getCommonWarnings := fun _ _ => [];
     getCommonSideEffects := fun _ _ => [] |}.

Definition label (t : string) (l : option string) : SplItem :=
  {| item_setid := lit "set-" ++ lit t;
     item_title := lit t;
     item_generic_name := None;
     item_brand_name := None;
     item_labeler := option_map lit l |}.

Definition mention (n d : string) (f : Formulation) (ctx : string) : Medication :=
  {| name := lit n; dosage := lit d; formulation := f;
     deliveryMethod := Some []; fullContext := lit ctx |}.

(** A service that knows metformin and atorvastatin, fails on every query
    about lisinopril and has nothing else. *)
Definition pharmacyAnswer (query : str) : FetchOutcome :=
  if includes query (lit "lisinopril") then FetchFailed
  else if includes query (lit "metformin") then
    DataArray [label "Metformin Hydrochloride Tablets" (Some "Zydus"%string);
               label "Metformin Hydrochloride Extended-Release Tablets"
                     (Some "Teva Pharmaceuticals"%string)]
  else if includes query (lit "atorvastatin") then
    DataArray [label "Atorvastatin Calcium Tablets" (Some "Pfizer"%string)]
  else NoDataArray.

Definition pharmacy : Collaborator := tableService pharmacyAnswer.

(** A service that has no label for any query. *)
Definition emptyService : Collaborator := tableService (fun _ => NoDataArray).

(** A body of the medication loop that throws for one name. *)
Definition faultyBody (medication : Medication)
  : @M pharmacy unit :=
  if str_eqb (name medication) (lit "lisinopril")
  then fun st => (Throw {| exn_name := lit "TypeError";
                           exn_message := lit "x is not a function" |}, st)
  else @processMedication pharmacy noTexts medication.

(** A service whose only label is an extended-release metformin. *)
Definition strengthService : Collaborator :=
  tableService (fun query =>
    if includes query (lit "metformin") then
      DataArray
        [label "Metformin Hydrochloride Extended-Release Tablets 500 mg"
               (Some "Teva Pharmaceuticals"%string)]
    else NoDataArray).

(** Two medications as the model returns them for
    "Warfarin 5mg daily. Metformin ER 500mg with dinner." *)
Definition rawWarfarin : RawMedication :=
  {| raw_name := Some (lit "warfarin");
     raw_dosage := Some (lit "5mg");
     raw_formulation := Some (lit "IR");
     raw_deliveryMethod := Some (lit "tablet");
     raw_fullContext := Some (lit "Warfarin 5mg daily") |}.

Definition rawMetforminER : RawMedication :=
  {| raw_name := Some (lit "metformin");
     raw_dosage := Some (lit "500mg");
     raw_formulation := Some (lit "ER");
     raw_deliveryMethod := Some (lit "tablet");
     raw_fullContext := Some (lit "Metformin ER 500mg with dinner") |}.

(** The [/api/generate-games] steps from the model's answer to the
    medications after the dosage loop, for a given service. *)
Definition generateGamesFormulations (service : Collaborator)
           (w : @World service) (medications : list RawMedication)
  : list (str * Formulation) :=
  let extracted := extractedMedications medications in
  match @searchMultipleMedications service noTexts extracted w with
  | (Ok (dailyMedResults, _), _) =>
      map (fun med => (name med, formulation med))
          (applyDosageLogic extracted dailyMedResults)
  | (Throw _, _) => []
  end.

(** ** Vocabulary of the further properties *)

(** One of the dosage strings stands in the lower-cased title of the
    label. *)
Definition dosageOnLabel (dosagePattern : list str)
           (result : DailyMedDetails) : bool :=
  existsb (fun dose => includes (toLowerCase (d_title result)) dose)
          dosagePattern.

(** The lower-cased title of the label matches the extended-release
    indicators. *)
Definition extendedReleaseLabel (result : DailyMedDetails) : bool :=
  regexTest erIndicators (toLowerCase (d_title result)).

Definition startsWithDigit (p : str) : bool :=
  match p with
  | c :: _ => isDigit c
  | [] => false
  end.

Definition hasDigit (s : str) : bool := existsb isDigit s.


(** What the resolver did for one mention: the requests of the strict and
    of the relaxed pass, and how the mention was closed. *)
Record MentionRun : Type := {
  run_mention : Medication;
  run_strict : list (str * Res (list DailyMedSearchResult));
  run_relaxed : list (str * Res (list DailyMedSearchResult));
  run_closing : Closing
}.

Definition runValid (r : MentionRun) : Prop :=
  resolution (run_mention r) (run_strict r) (run_relaxed r) (run_closing r).

Definition runCalls (r : MentionRun)
  : list (str * Res (list DailyMedSearchResult)) :=
  run_strict r ++ run_relaxed r.

Definition runEntries (r : MentionRun) : list LogEntry :=
  map (strictEntry (run_mention r)) (run_strict r)
  ++ closingEntries (run_mention r) (run_closing r).

Definition runResults `{ReferenceTexts} (r : MentionRun)
  : list DailyMedDetails :=
  closingResults (run_mention r) (run_closing r).

(** The number of log entries with the search term [t], as the routes count
    the failed medications. *)
Definition countTerm (t : str) (log : list LogEntry) : nat :=
  List.length (filter (fun e => str_eqb (l_searchTerm e) t) log).

(** The two search terms that close the log of a medication. *)
Definition isMarker (t : str) : Prop :=
  t = lit "SEARCH_FAILED" \/ t = lit "PROCESSING_ERROR".


(** A name with none of the separators of a combination. *)
Definition singleComponent (n : str) : Prop :=
  includes n (lit "/") = false
  /\ includes n (lit " and ") = false
  /\ includes n (lit " & ") = false.

(** A service whose answer to a query does not depend on its state. *)
Definition statelessService `{Collaborator} : Prop :=
  forall q w w', fst (fetchSpls q w) = fst (fetchSpls q w').

(** From every state, [c] ends with [r], having appended [es] to the log
    and [ds] to the results. *)
Definition uniform `{Collaborator} {A} (c : M A) (r : Res A)
           (es : list LogEntry) (ds : list DailyMedDetails) : Prop :=
  forall st,
    exists st',
      c st = (r, st')
      /\ searchLog st' = searchLog st ++ es
      /\ results st' = results st ++ ds.

(** ** routes: the retry of [/api/generate-modules] with corrected terms *)

(** What [validateMedicationMatches] returns. *)
Record Validation : Type := {
  validated : bool;
  issues : list str;
  correctedSearchTerms : list str
}.

(** What the callback of [correctedSearchTerms.map] returns. *)
Record RetryResult : Type := {
  rr_index : nat;
  rr_medication : str;
  rr_searchTerm : str;
  rr_found : bool;
  rr_details : option DailyMedDetails;
  rr_resultTitle : option str;
  rr_error : option str
}.

(** The accumulators of the loop that merges the retried searches. *)
Record Improved : Type := {
  improvedResults : list (option DailyMedDetails);
  improvedSearchLog : list LogEntry;
  foundAtLeastOne : bool
}.

Section Retry.

Context `{Collaborator} `{ReferenceTexts}.

(** [index < extractedMedications.length ? extractedMedications[index].name
    : 'Unknown']. *)
Definition retryMedicationName (extractedMedications : list Medication)
           (index : nat) : str :=
  match nth_error extractedMedications index with
  | Some medication => name medication
  | None => lit "Unknown"
  end.

Definition retryNotFound (extractedMedications : list Medication)
           (searchTerm : str) (index : nat) (error : option str)
  : RetryResult :=
  {| rr_index := index;
     rr_medication := retryMedicationName extractedMedications index;
     rr_searchTerm := searchTerm;
     rr_found := false;
     rr_details := None;
     rr_resultTitle := None;
     rr_error := error |}.

(** What the callback makes of the answer [results] to its search: the
    first of the three leading candidates that is appropriate for the
    medication at the same index.  ([index < extractedMedications.length]
    is [nth_error] finding the medication.) *)
Definition retryOutcome (extractedMedications : list Medication)
           (searchTerm : str) (index : nat)
           (results : list DailyMedSearchResult) : RetryResult :=
  match nth_error extractedMedications index with
  | Some medication =>
      if negb (Nat.eqb (List.length results) 0) then
        match find (fun result =>
                      isMatch (isAppropriateMatchWithReasons medication result))
                   (slice0 3 results) with
        | Some result =>
            {| rr_index := index;
               rr_medication := name medication;
               rr_searchTerm := searchTerm;
               rr_found := true;
               rr_details := Some (detailsOf medication result);
               rr_resultTitle := Some (title result);
               rr_error := None |}
        | None => retryNotFound extractedMedications searchTerm index None
        end
      else retryNotFound extractedMedications searchTerm index None
  | None => retryNotFound extractedMedications searchTerm index None
  end.

(** The callback: its [try] and its [catch]. *)
Definition retrySearch (extractedMedications : list Medication)
           (searchTerm : str) (index : nat) : M RetryResult :=
  tryCatch
    (results <- searchMedications searchTerm ;;
     ret (retryOutcome extractedMedications searchTerm index results))
    (fun error =>
       ret (retryNotFound extractedMedications searchTerm index
                          (Some (exn_message error)))).

(** [Promise.all(correctedSearchTerms.map(...))]: the requests leave in the
    order of the terms, and the service is taken to answer them in that
    order; the array of the returned values is in the order of the terms. *)
Fixpoint retrySearches (extractedMedications : list Medication)
         (terms : list str) (index : nat) : M (list RetryResult) :=
  match terms with
  | [] => ret []
  | searchTerm :: rest =>
      r <- retrySearch extractedMedications searchTerm index ;;
      rs <- retrySearches extractedMedications rest (S index) ;;
      ret (r :: rs)
  end.

Definition correctedEntry (medication : Medication)
           (retryResult : RetryResult) : LogEntry :=
  {| l_medication := name medication;
     l_searchTerm := rr_searchTerm retryResult ++ lit " (corrected)";
     l_found := true;
     l_resultTitle := rr_resultTitle retryResult;
     l_error := None;
     l_rejectedReasons := None;
     l_requestedFormulation := formulation medication;
     l_deliveryMethod := deliveryOrUnspecified medication |}.

Definition correctedFailedEntry (medication : Medication)
           (retryResult : option RetryResult) : LogEntry :=
  {| l_medication := name medication;
     l_searchTerm :=
       match retryResult with
       | Some r => if truthy (rr_searchTerm r) then rr_searchTerm r
                   else lit "Unknown"
       | None => lit "Unknown"
       end ++ lit " (corrected - failed)";
     l_found := false;
     l_resultTitle := None;
     l_error :=
       Some match retryResult with
            | Some {| rr_error := Some e |} =>
                if truthy e then e else lit "No appropriate match found"
            | _ => lit "No appropriate match found"
            end;
     l_rejectedReasons := None;
     l_requestedFormulation := formulation medication;
     l_deliveryMethod := deliveryOrUnspecified medication |}.

(** [retryResult && retryResult.found && retryResult.details]. *)
Definition improvedDetails (retryResult : option RetryResult)
  : option (RetryResult * DailyMedDetails) :=
  match retryResult with
  | Some r =>
      if rr_found r then
        match rr_details r with Some d => Some (r, d) | None => None end
      else None
  | None => None
  end.

(** One pass of [for (let i = 0; i < extractedMedications.length; i++)].
    The array [improvedResults] has [i] elements when pass [i] begins, so
    that [improvedResults[i] = x] appends. *)
Definition mergeAt (dailyMedResults : list DailyMedDetails)
           (retryResults : list RetryResult) (i : nat)
           (medication : Medication) (acc : Improved) : Improved :=
  let retryResult := nth_error retryResults i in
  match improvedDetails retryResult with
  | Some (r, details) =>
      {| improvedResults := improvedResults acc ++ [Some details];
         improvedSearchLog :=
           improvedSearchLog acc ++ [correctedEntry medication r];
         foundAtLeastOne := true |}
  | None =>
      {| improvedResults := improvedResults acc ++ [nth_error dailyMedResults i];
         improvedSearchLog :=
           improvedSearchLog acc ++ [correctedFailedEntry medication retryResult];
         foundAtLeastOne := foundAtLeastOne acc |}
  end.

Fixpoint mergeFrom (dailyMedResults : list DailyMedDetails)
         (retryResults : list RetryResult) (i : nat)
         (extractedMedications : list Medication) (acc : Improved) : Improved :=
  match extractedMedications with
  | [] => acc
  | medication :: rest =>
      mergeFrom dailyMedResults retryResults (S i) rest
                (mergeAt dailyMedResults retryResults i medication acc)
  end.

(** [improvedResults.filter(result => result !== null)]. *)
Fixpoint notNull {A} (l : list (option A)) : list A :=
  match l with
  | [] => []
  | Some a :: l' => a :: notNull l'
  | None :: l' => notNull l'
  end.

(** From the first validation to the values of [dailyMedResults] and
    [searchLog] the route goes on with. *)
Definition retryWithCorrections (extractedMedications : list Medication)
           (dailyMedResults : list DailyMedDetails) (log : list LogEntry)
           (medicationValidation : Validation)
  : M (list DailyMedDetails * list LogEntry) :=
  if negb (validated medicationValidation)
     && negb (Nat.eqb (List.length (correctedSearchTerms medicationValidation)) 0)
  then
    retryResults <- retrySearches extractedMedications
                      (correctedSearchTerms medicationValidation) 0 ;;
    let improved :=
      mergeFrom dailyMedResults retryResults 0 extractedMedications
                {| improvedResults := [];
                   improvedSearchLog := log;
                   foundAtLeastOne := false |} in
    if foundAtLeastOne improved
    then ret (notNull (improvedResults improved), improvedSearchLog improved)
    else ret (dailyMedResults, log)
  else ret (dailyMedResults, log).

End Retry.


Section RetryVocabulary.

Context `{Collaborator} `{ReferenceTexts}.

(** What the retry callback returns for the answer [r] to its request. *)
Definition retryAnswer (extractedMedications : list Medication)
           (searchTerm : str) (index : nat)
           (r : Res (list DailyMedSearchResult)) : RetryResult :=
  match r with
  | Ok results => retryOutcome extractedMedications searchTerm index results
  | Throw e =>
      retryNotFound extractedMedications searchTerm index (Some (exn_message e))
  end.

(** The values returned for the requests [cs], the first at [index]. *)
Fixpoint retried (extractedMedications : list Medication) (index : nat)
         (cs : list (str * Res (list DailyMedSearchResult)))
  : list RetryResult :=
  match cs with
  | [] => []
  | c :: cs' =>
      retryAnswer extractedMedications (fst c) index (snd c)
      :: retried extractedMedications (S index) cs'
  end.

(** What the merge loop puts at index [i]. *)
Definition slotAt (dailyMedResults : list DailyMedDetails)
           (retryResults : list RetryResult) (i : nat)
  : option DailyMedDetails :=
  match improvedDetails (nth_error retryResults i) with
  | Some (_, details) => Some details
  | None => nth_error dailyMedResults i
  end.

(** The entry the merge loop logs at index [i]. *)
Definition entryAt (retryResults : list RetryResult) (i : nat)
           (medication : Medication) : LogEntry :=
  match improvedDetails (nth_error retryResults i) with
  | Some (r, _) => correctedEntry medication r
  | None => correctedFailedEntry medication (nth_error retryResults i)
  end.

(** The retry is entered. *)
Definition retryEntered (v : Validation) : bool :=
  negb (validated v) && negb (Nat.eqb (List.length (correctedSearchTerms v)) 0).

(** The indices and medications of the merge loop from index [i] on. *)
Fixpoint passes (i : nat) (meds : list Medication) : list (nat * Medication) :=
  match meds with
  | [] => []
  | m :: rest => (i, m) :: passes (S i) rest
  end.

(** The retried search at the index of the pass found a label. *)
Definition retryFound (rrs : list RetryResult) (p : nat * Medication) : bool :=
  match improvedDetails (nth_error rrs (fst p)) with
  | Some _ => true
  | None => false
  end.

End RetryVocabulary.


(** ** dailymed.ts: [extractMedicationNames] *)

(** [s.indexOf(sub)]: the first position at which [sub] stands in [s], -1
    when there is none. *)
Fixpoint indexOf (s sub : str) : Z :=
  if startsWith sub s then 0%Z
  else
    match s with
    | [] => (-1)%Z
    | _ :: s' =>
        let i := indexOf s' sub in
        if (i <? 0)%Z then (-1)%Z else (i + 1)%Z
    end.

(** [s.substring(indexStart, indexEnd)]: both indices are brought into
    [0 .. s.length], and exchanged when the first is the larger. *)
Definition substring (s : str) (indexStart indexEnd : Z) : str :=
  let len := Z.of_nat (List.length s) in
  let a := Z.min (Z.max indexStart 0) len in
  let b := Z.min (Z.max indexEnd 0) len in
  firstn (Z.to_nat (Z.max a b - Z.min a b)) (skipn (Z.to_nat (Z.min a b)) s).

(** [s.match(re)] for a regular expression with the [g] flag that matches
    no empty string: the matches from left to right, each search starting
    where the last match ended.  [matchAt] gives the length of the match at
    the head of a string; [skip] counts the code units of the last match
    still to be passed.  No match stands for [null]. *)
Fixpoint globalMatch (matchAt : str -> option nat) (skip : nat) (s : str)
  : list str :=
  match s with
  | [] => []
  | _ :: s' =>
      match skip with
      | S k => globalMatch matchAt k s'
      | O =>
          match matchAt s with
          | Some n => firstn n s :: globalMatch matchAt (n - 1) s'
          | None => globalMatch matchAt O s'
          end
      end
  end.

(** A match of [/pattern/i], a sequence of literals, at the head of [s]. *)
Definition literalAt (pattern : string) (s : str) : option nat :=
  if matchAtoms (chars pattern) None s (fun _ _ => true)
  then Some (List.length (lit pattern))
  else None.

(** [\w*suffix\b] after the code unit [prev]: the repetition is greedy, it
    takes a word character whenever there is one and gives it back when
    what follows fails. *)
Fixpoint wordStar (suffix : string) (prev : option ascii) (s : str)
  : option nat :=
  let here :=
    if matchAtoms (chars suffix) prev s wordBoundary
    then Some (List.length (lit suffix))
    else None in
  match s with
  | c :: s' =>
      if isWordChar c then
        match wordStar suffix (Some c) s' with
        | Some n => Some (S n)
        | None => here
        end
      else here
  | [] => here
  end.

(** A match of [/\w+suffix\b/i] at the head of [s]. *)
Definition suffixAt (suffix : string) (s : str) : option nat :=
  match s with
  | c :: s' =>
      if isWordChar c then option_map S (wordStar suffix (Some c) s') else None
  | [] => None
  end.

Definition medicationPatterns : list string :=
  ["metformin"; "insulin"; "lisinopril"; "atorvastatin"; "amlodipine";
   "hydrochlorothiazide"; "aspirin"; "warfarin"; "gabapentin"; "simvastatin";
   "losartan"; "omeprazole"; "levothyroxine"; "acetaminophen";
   "ibuprofen"]%string.

(** The literal parts of [/\w+pril\b/gi], [/\w+statin\b/gi],
    [/\w+zide\b/gi] and [/\w+pine\b/gi]. *)
Definition suffixPatterns : list string :=
  ["pril"; "statin"; "zide"; "pine"]%string.

(** [map.set(key, value)] on a [Map], whose entries stay in the order in
    which their keys were first set. *)
Fixpoint mapSet (key : str) (value : Formulation)
         (m : list (str * Formulation)) : list (str * Formulation) :=
  match m with
  | [] => [(key, value)]
  | (k, v) :: m' =>
      if str_eqb k key then (k, value) :: m'
      else (k, v) :: mapSet key value m'
  end.

(** [fullContext] for the name [medName]. *)
Definition contextAround (patientInfo medName : str) : str :=
  let lowered := toLowerCase patientInfo in
  let medPosition := indexOf lowered medName in
  let contextBefore :=
    substring lowered (Z.max 0 (medPosition - 50)) medPosition in
  let contextAfter :=
    substring lowered medPosition
              (Z.min (Z.of_nat (List.length patientInfo))
                     (medPosition + Z.of_nat (List.length medName) + 50)) in
  contextBefore ++ medName ++ contextAfter.

(** The callback of [matches.forEach], the same for both lists of
    patterns. *)
Definition noteMatch (patientInfo : str)
           (foundMedications : list (str * Formulation)) (matched : str)
  : list (str * Formulation) :=
  let medName := toLowerCase matched in
  mapSet medName (patternFormulation (contextAround patientInfo medName))
         foundMedications.

Definition extractMedicationNames (patientInfo : str)
  : list (str * Formulation) :=
  let foundMedications :=
    fold_left
      (fun found pattern =>
         fold_left (noteMatch patientInfo)
                   (globalMatch (literalAt pattern) 0 patientInfo) found)
      medicationPatterns [] in
  fold_left
    (fun found suffix =>
       fold_left (noteMatch patientInfo)
                 (globalMatch (suffixAt suffix) 0 patientInfo) found)
    suffixPatterns foundMedications.

(** The maximal runs of word characters of [s], from left to right; [cur]
    is the run being read. *)
Fixpoint wordRuns_go (cur : str) (s : str) : list str :=
  match s with
  | [] => match cur with [] => [] | _ => [cur] end
  | c :: s' =>
      if isWordChar c then wordRuns_go (cur ++ [c]) s'
      else
        match cur with
        | [] => wordRuns_go [] s'
        | _ => cur :: wordRuns_go [] s'
        end
  end.

Definition wordRuns (s : str) : list str := wordRuns_go [] s.

(** [w] or one of its tails is [suffix], up to case. *)
Fixpoint endsWithCi (suffix w : str) : bool :=
  str_eqb (toLowerCase w) suffix
  || match w with
     | [] => false
     | _ :: w' => endsWithCi suffix w'
     end.

(** [w] is longer than [suffix] and ends with it, up to case. *)
Definition longerWithSuffix (suffix : string) (w : str) : bool :=
  match w with
  | [] => false
  | _ :: w' => endsWithCi (lit suffix) w'
  end.

(** A literal of a pattern: lower-case word characters, at least one. *)
Definition wordLiteral (p : string) : Prop :=
  lit p <> [] /\ isLowerCased (lit p) /\ forallb isWordChar (lit p) = true.

(** The matches of all the patterns, in the order in which they are
    handled. *)
Definition allMatches (patientInfo : str) : list str :=
  flat_map (fun pattern => globalMatch (literalAt pattern) 0 patientInfo)
           medicationPatterns
  ++ flat_map (fun suffix => globalMatch (suffixAt suffix) 0 patientInfo)
              suffixPatterns.


(** ** routes: the status message of [/api/generate-games] *)

(** [searchLog.filter(log => log.searchTerm === 'SEARCH_FAILED' ||
    log.searchTerm === 'PROCESSING_ERROR')] *)
Definition failedMedications (log : list LogEntry) : list LogEntry :=
  filter (fun e => str_eqb (l_searchTerm e) (lit "SEARCH_FAILED")
                   || str_eqb (l_searchTerm e) (lit "PROCESSING_ERROR"))
         log.

(** The entries whose search terms the message lists:
    [searchLog.filter(log => !log.searchTerm.includes('FAILED') &&
    !log.searchTerm.includes('ERROR'))]. *)
Definition searchedEntries (log : list LogEntry) : list LogEntry :=
  filter (fun e => negb (includes (l_searchTerm e) (lit "FAILED"))
                   && negb (includes (l_searchTerm e) (lit "ERROR")))
         log.

(** The part of the message that lists the search terms. *)
Definition searchDetails (log : list LogEntry) : str :=
  if negb (Nat.eqb (List.length log) 0) then
    lit " Searched: "
    ++ join (lit ", ")
            (map (fun e => dquote ++ l_searchTerm e ++ dquote)
                 (searchedEntries log))
  else [].

(** A string without the capitals with which FAILED and ERROR begin. *)
Definition quiet (t : str) : Prop :=
  ~ In "F"%char t /\ ~ In "E"%char t.


(** ** dailymed.ts: the medications of a batch *)

(** [{...med, dosage: '', deliveryMethod: '', fullContext: ''}] *)
Definition fallbackMedication (med : str * Formulation) : Medication :=
  {| name := fst med;
     dosage := [];
     formulation := snd med;
     deliveryMethod := Some [];
     fullContext := [] |}.

(** [openAIExtractedMeds || this.extractMedicationNames(patientInfo).map(...)]:
    an array, even an empty one, is taken as it is. *)
Definition batchMedications (patientInfo : str)
           (openAIExtractedMeds : option (list Medication))
  : list Medication :=
  match openAIExtractedMeds with
  | Some medications => medications
  | None => map fallbackMedication (extractMedicationNames patientInfo)
  end.


(** The atom [b] matches whatever the atom [a] matches. *)
Definition atomLe (a b : Atom) : Prop :=
  a = b
  \/ (b = OptAnyChar
      /\ match a with
         | Chr c => isLineTerminator c = false
         | _ => True
         end).


(** ** dailymed.ts: the medication loop on the mentions of the routes

    The routes pass the objects that [extractMedicationsFromText] builds
    from the model's JSON answer; nothing checks the values of their
    properties. *)

(** A property value that [x || ''] left in place: a string, or a value
    that is no string (a number, [true], an array, an object), on which
    [toLowerCase] is not defined. *)
Inductive JsValue : Type :=
| JsString (s : str)
| JsOther.

(** A mention as the resolver receives it.  The name and the delivery
    method are copied into the log entries, whose fields the embedding types
    as strings, and stay strings here; the context is any value. *)
Record JsMedication : Type := {
  js_name : str;
  js_dosage : str;
  js_formulation : Formulation;
  js_deliveryMethod : option str;
  js_fullContext : JsValue
}.

Definition withContext (jm : JsMedication) (context : str) : Medication :=
  {| name := js_name jm;
     dosage := js_dosage jm;
     formulation := js_formulation jm;
     deliveryMethod := js_deliveryMethod jm;
     fullContext := context |}.

Definition ofMedication (m : Medication) : JsMedication :=
  {| js_name := name m;
     js_dosage := dosage m;
     js_formulation := formulation m;
     js_deliveryMethod := deliveryMethod m;
     js_fullContext := JsString (fullContext m) |}.

(** The [TypeError] of calling a property that is no function (the wording
    of the message is the engine's, here V8's). *)
Definition notAFunction (callee : string) : Exn :=
  {| exn_name := lit "TypeError";
     exn_message := lit callee ++ lit " is not a function" |}.

Section JsBatch.

Context `{Collaborator} `{ReferenceTexts}.

(** The body of the [try] of the medication loop.  [generateSearchTerms],
    its first statement, calls [medication.fullContext.toLowerCase()] for
    the first name permutation (there is always one) before any request is
    made: on a context that is no string the call throws, and nothing else
    of the body is run. *)
Definition processJsMedication (jm : JsMedication) : M unit :=
  match js_fullContext jm with
  | JsString context => processMedication (withContext jm context)
  | JsOther =>
      fun st =>
        (Throw (notAFunction "medication.fullContext.toLowerCase"), st)
  end.

(** The entry pushed by the [catch] of the medication loop. *)
Definition jsProcessingErrorEntry (jm : JsMedication) (error : Exn)
  : LogEntry :=
  {| l_medication := js_name jm;
     l_searchTerm := lit "PROCESSING_ERROR";
     l_found := false;
     l_resultTitle := None;
     l_error := Some (lit "Processing failed: " ++ showExn error);
     l_rejectedReasons := None;
     l_requestedFormulation := js_formulation jm;
     l_deliveryMethod :=
       match js_deliveryMethod jm with
       | Some d => if truthy d then d else lit "unspecified"
       | None => lit "unspecified"
       end |}.

(** [for (const medication of medications) { try { ... } catch (error)
    { ...; continue; } }] on the mentions of the routes. *)
Fixpoint jsMedicationLoop (medications : list JsMedication) : M unit :=
  match medications with
  | [] => ret tt
  | medication :: rest =>
      tryCatch (processJsMedication medication)
               (fun error =>
                  pushLog (jsProcessingErrorEntry medication error)) ;;;
      jsMedicationLoop rest
  end.

(** [searchMultipleMedications] on the mentions of the routes. *)
Definition searchMultipleMedicationsJson (medications : list JsMedication)
  : World -> Res (list DailyMedDetails * list LogEntry) * State :=
  fun w =>
    match jsMedicationLoop medications (initState w) with
    | (Ok _, st) => (Ok (results st, searchLog st), st)
    | (Throw e, st) => (Throw e, st)
    end.

End JsBatch.

(** The entry of the results is made from the candidate [r]: it carries the
    candidate's set id, title, names and labeler. *)
Definition madeFrom (r : DailyMedSearchResult) (d : DailyMedDetails) : Prop :=
  d_setId d = setId r
  /\ d_title d = title r
  /\ d_genericName d = genericName r
  /\ d_brandName d = brandName r
  /\ d_labeler d = labeler r.

(** The result of a mention, if any, is made from the candidate that closed
    its resolution. *)
Definition resultOf (c : Closing) (ds : list DailyMedDetails) : Prop :=
  match c with
  | ClosedByStrict r => exists d, ds = [d] /\ madeFrom r d
  | ClosedByRelaxed _ r => exists d, ds = [d] /\ madeFrom r d
  | ClosedByFailure _ => ds = []
  end.

(** A mention whose context is no string. *)
Definition isFaulty (jm : JsMedication) : bool :=
  match js_fullContext jm with
  | JsString _ => false
  | JsOther => true
  end.

(** What the medication loop did for one mention of the routes: the run of
    the resolver, or nothing but the catch of the [TypeError]. *)
Definition jsOutcomeValid (jm : JsMedication) (o : option MentionRun) : Prop :=
  match o with
  | Some run =>
      js_fullContext jm = JsString (fullContext (run_mention run))
      /\ run_mention run = withContext jm (fullContext (run_mention run))
      /\ runValid run
  | None => js_fullContext jm = JsOther
  end.

Definition jsOutcomeCalls (o : option MentionRun)
  : list (str * Res (list DailyMedSearchResult)) :=
  match o with
  | Some run => runCalls run
  | None => []
  end.

Definition jsOutcomeEntries (jm : JsMedication) (o : option MentionRun)
  : list LogEntry :=
  match o with
  | Some run => runEntries run
  | None =>
      [jsProcessingErrorEntry
         jm (notAFunction "medication.fullContext.toLowerCase")]
  end.

Definition jsOutcomeResults `{ReferenceTexts} (o : option MentionRun)
  : list DailyMedDetails :=
  match o with
  | Some run => runResults run
  | None => []
  end.

(** The entries of the mentions [jms] with the outcomes [outs], in order. *)
Definition jsEntries (jms : list JsMedication) (outs : list (option MentionRun))
  : list LogEntry :=
  flat_map (fun p => jsOutcomeEntries (fst p) (snd p)) (combine jms outs).

(** A service with one label, whose title says long-acting. *)
Definition insulinService : Collaborator :=
  tableService (fun query =>
    if includes query (lit "insulin") then
      DataArray [label "Insulin Glargine Long-Acting Injection"
                       (Some "Sandoz"%string)]
    else NoDataArray).


(** * Part II: properties *)

(** ** Strings *)

Lemma str_eqb_eq (a b : str) : str_eqb a b = true <-> a = b.
Proof.
  revert b; induction a as [|x a IH]; intros [|y b]; simpl;
    try (split; [discriminate | discriminate]); try tauto.
  rewrite andb_true_iff, Ascii.eqb_eq, IH.
  split; [intros [-> ->]; reflexivity | intros E; inversion E; auto].
Qed.

Lemma str_eqb_refl (a : str) : str_eqb a a = true.
Proof. apply str_eqb_eq; reflexivity. Qed.

Lemma str_eqb_neq (a b : str) : str_eqb a b = false <-> a <> b.
Proof.
  rewrite <- str_eqb_eq. destruct (str_eqb a b); split; congruence.
Qed.

Lemma mem_In (x : str) (l : list str) : mem x l = true <-> In x l.
Proof.
  induction l as [|y l IH]; simpl.
  - split; [discriminate | tauto].
  - rewrite orb_true_iff, IH, str_eqb_eq. split; intros [E|E]; auto.
Qed.

Lemma mem_app (x : str) (l1 l2 : list str) :
  mem x (l1 ++ l2) = mem x l1 || mem x l2.
Proof.
  induction l1 as [|y l1 IH]; simpl; [reflexivity|].
  rewrite IH, orb_assoc; reflexivity.
Qed.

(** ** De-duplication through a [Set] *)

Lemma filter_filter_mem (acc : list str) (x : str) (l : list str) :
  filter (fun y => negb (mem y (acc ++ [x]))) l
  = filter (fun y => negb (mem y acc)) (filter (fun y => negb (str_eqb y x)) l).
Proof.
  induction l as [|y l IH]; simpl; [reflexivity|].
  rewrite mem_app; simpl. rewrite orb_false_r.
  destruct (str_eqb y x) eqn:E; simpl.
  - rewrite orb_true_r; simpl; exact IH.
  - rewrite orb_false_r. destruct (mem y acc); simpl; rewrite IH; reflexivity.
Qed.

Lemma filter_mem_absorb (acc : list str) (x : str) (l : list str) :
  mem x acc = true ->
  filter (fun y => negb (mem y acc)) (filter (fun y => negb (str_eqb y x)) l)
  = filter (fun y => negb (mem y acc)) l.
Proof.
  intros Hx. induction l as [|y l IH]; simpl; [reflexivity|].
  destruct (str_eqb y x) eqn:E; simpl.
  - apply str_eqb_eq in E; subst y. rewrite Hx; simpl; exact IH.
  - destruct (mem y acc); simpl; rewrite IH; reflexivity.
Qed.

Lemma fold_setAdd_keepFirst (l acc : list str) :
  fold_left setAdd l acc
  = acc ++ filter (fun y => negb (mem y acc)) (keepFirst l).
Proof.
  revert acc; induction l as [|x l IH]; intros acc; simpl.
  - rewrite app_nil_r; reflexivity.
  - unfold setAdd at 2. destruct (mem x acc) eqn:Hx; simpl.
    + rewrite IH, filter_mem_absorb by exact Hx. reflexivity.
    + rewrite IH, filter_filter_mem, <- app_assoc. reflexivity.
Qed.

(** [[...new Set(l)]] keeps the first occurrence of every string, in the
    order of first occurrence. *)
Lemma uniq_keepFirst (l : list str) : uniq l = keepFirst l.
Proof.
  unfold uniq. rewrite fold_setAdd_keepFirst; simpl.
  induction (keepFirst l) as [|y k IH]; simpl; congruence.
Qed.

Lemma keepFirst_In (x : str) (l : list str) : In x (keepFirst l) <-> In x l.
Proof.
  induction l as [|y l IH]; simpl; [tauto|].
  rewrite filter_In, IH, negb_true_iff, str_eqb_neq.
  destruct (str_eqb x y) eqn:E.
  - apply str_eqb_eq in E; subst; tauto.
  - apply str_eqb_neq in E. split; [tauto|].
    intros [->|Hin]; [congruence | right; split; auto].
Qed.

Lemma keepFirst_NoDup (l : list str) : NoDup (keepFirst l).
Proof.
  induction l as [|y l IH]; simpl; constructor.
  - rewrite filter_In, negb_true_iff, str_eqb_neq; tauto.
  - apply NoDup_filter; exact IH.
Qed.

Lemma uniq_In (x : str) (l : list str) : In x (uniq l) <-> In x l.
Proof. rewrite uniq_keepFirst; apply keepFirst_In. Qed.

Lemma uniq_NoDup (l : list str) : NoDup (uniq l).
Proof. rewrite uniq_keepFirst; apply keepFirst_NoDup. Qed.

Lemma uniq_head (x : str) (l : list str) :
  exists rest, uniq (x :: l) = x :: rest.
Proof. rewrite uniq_keepFirst; simpl; eauto. Qed.

(** ** Lower case *)

Lemma lowerChar_idem (c : ascii) : lowerChar (lowerChar c) = lowerChar c.
Proof.
  destruct c as [b0 b1 b2 b3 b4 b5 b6 b7];
    destruct b0, b1, b2, b3, b4, b5, b6, b7; reflexivity.
Qed.

Lemma isLowerCased_Forall (s : str) :
  isLowerCased s <-> Forall (fun c => lowerChar c = c) s.
Proof.
  unfold isLowerCased, toLowerCase.
  induction s as [|c s IH]; simpl.
  - split; auto.
  - split.
    + intros E; injection E as E1 E2. constructor; [exact E1|].
      apply IH; exact E2.
    + intros F; inversion F as [|? ? F1 F2]; subst.
      rewrite F1. f_equal. apply IH; exact F2.
Qed.

Lemma isLowerCased_toLowerCase (s : str) : isLowerCased (toLowerCase s).
Proof.
  unfold isLowerCased, toLowerCase. rewrite map_map.
  apply map_ext; intros c; apply lowerChar_idem.
Qed.

Lemma isLowerCased_app (a b : str) :
  isLowerCased (a ++ b) <-> isLowerCased a /\ isLowerCased b.
Proof. rewrite !isLowerCased_Forall. apply Forall_app. Qed.

Lemma isLowerCased_nil : isLowerCased [].
Proof. reflexivity. Qed.

Lemma isLowerCased_dropWhile (f : ascii -> bool) (s : str) :
  isLowerCased s -> isLowerCased (dropWhile f s).
Proof.
  rewrite !isLowerCased_Forall.
  induction s as [|c s IH]; simpl; intros F; [exact F|].
  destruct (f c); [apply IH; inversion F; assumption | exact F].
Qed.

Lemma isLowerCased_rev (s : str) : isLowerCased s -> isLowerCased (rev s).
Proof. rewrite !isLowerCased_Forall. apply Forall_rev. Qed.

Lemma isLowerCased_trim (s : str) : isLowerCased s -> isLowerCased (trim s).
Proof.
  intros L. unfold trim.
  apply isLowerCased_rev, isLowerCased_dropWhile, isLowerCased_rev,
    isLowerCased_dropWhile, L.
Qed.

Lemma isLowerCased_split_go (sep : str) (s : str) :
  forall skip cur,
    isLowerCased cur -> isLowerCased s ->
    Forall isLowerCased (split_go sep skip cur s).
Proof.
  induction s as [|c s IH]; intros skip cur Lc Ls; simpl.
  - constructor; [exact Lc | constructor].
  - assert (Ls' : isLowerCased s /\ isLowerCased [c]).
    { change (c :: s) with ([c] ++ s) in Ls.
      apply isLowerCased_app in Ls; tauto. }
    destruct Ls' as [Ls' Lc1].
    destruct skip as [|k].
    + destruct (startsWith sep (c :: s)).
      * constructor; [exact Lc|]. apply IH; [apply isLowerCased_nil | exact Ls'].
      * apply IH; [|exact Ls']. apply isLowerCased_app; split; assumption.
    + apply IH; assumption.
Qed.

Lemma isLowerCased_split (sep s : str) :
  isLowerCased s -> Forall isLowerCased (split sep s).
Proof. apply isLowerCased_split_go, isLowerCased_nil. Qed.

Lemma Forall_uniq (P : str -> Prop) (l : list str) :
  Forall P l -> Forall P (uniq l).
Proof.
  rewrite !Forall_forall. intros F x Hx. apply F, uniq_In, Hx.
Qed.

Ltac lower_parts :=
  rewrite ?isLowerCased_Forall in *;
  repeat first [ assumption
               | apply Forall_nil
               | apply Forall_cons; [reflexivity|]
               | apply Forall_app; split ].

Lemma isLowerCased_pushedPermutations (drugName : str) :
  isLowerCased drugName -> Forall isLowerCased (pushedPermutations drugName).
Proof.
  intros L. unfold pushedPermutations.
  assert (P2 : forall sep,
             match map trim (split sep drugName) with
             | [p0; p1] => isLowerCased p0 /\ isLowerCased p1
             | _ => True
             end).
  { intros sep.
    pose proof (isLowerCased_split sep L) as F.
    destruct (split sep drugName) as [|q0 [|q1 [|q2 qs]]]; simpl; auto.
    inversion F as [|? ? F0 F']; inversion F' as [|? ? F1 _]; subst.
    split; apply isLowerCased_trim; assumption. }
  set (sepAnd := if includes drugName (lit " and ") then lit " and " else lit " & ").
  pose proof (P2 (lit "/")) as Pslash. pose proof (P2 sepAnd) as Pand.
  destruct (includes drugName (lit "/"));
    destruct (includes drugName (lit " and ") || includes drugName (lit " & "));
    repeat match goal with
           | |- context [match map trim (split ?sep drugName) with _ => _ end] =>
               destruct (map trim (split sep drugName)) as [|? [|? [|? ?]]]
           end;
    repeat match goal with H : _ /\ _ |- _ => destruct H end;
    repeat (apply Forall_app; split);
    repeat (constructor; [lower_parts|]); try constructor.
Qed.

Lemma isLowerCased_permutations (drugName : str) :
  isLowerCased drugName ->
  Forall isLowerCased (generateCombinationPermutations drugName).
Proof. intros L. apply Forall_uniq, isLowerCased_pushedPermutations, L. Qed.

(** ** The combination-name expander *)

Lemma pushedPermutations_head (drugName : str) :
  exists rest, pushedPermutations drugName = drugName :: rest.
Proof.
  unfold pushedPermutations.
  destruct (includes drugName (lit "/"));
    destruct (includes drugName (lit " and ") || includes drugName (lit " & "));
    repeat match goal with
           | |- context [match map trim (split ?sep drugName) with _ => _ end] =>
               destruct (map trim (split sep drugName)) as [|? [|? [|? ?]]]
           end;
    simpl; eauto.
Qed.

Lemma incl_uniq (l k : list str) : incl l k -> incl l (uniq k).
Proof. intros I x Hx. apply uniq_In, I, Hx. Qed.

Ltac in_list :=
  simpl; repeat (first [left; reflexivity | right]).

Lemma pushedPermutations_slash (drugName a b : str) :
  includes drugName (lit "/") = true ->
  map trim (split (lit "/") drugName) = [a; b] ->
  incl [a ++ lit "/" ++ b; b ++ lit "/" ++ a;
        a ++ lit " " ++ b; b ++ lit " " ++ a;
        a ++ lit "-" ++ b; b ++ lit "-" ++ a; a; b]
       (pushedPermutations drugName).
Proof.
  intros Hs Hp. unfold pushedPermutations. rewrite Hs, Hp. clear Hp.
  destruct (includes drugName (lit " and ") || includes drugName (lit " & "));
    [destruct (map trim (split _ drugName)) as [|? [|? [|? ?]]]|];
    intros x Hx;
    repeat match goal with
           | |- In _ (([_] ++ _) ++ _) => apply in_or_app; left
           end;
    apply in_or_app; right; exact Hx.
Qed.

Lemma pushedPermutations_and (drugName sep a b : str) :
  (if includes drugName (lit " and ") then lit " and " else lit " & ") = sep ->
  includes drugName (lit " and ") || includes drugName (lit " & ") = true ->
  map trim (split sep drugName) = [a; b] ->
  incl [a ++ lit "/" ++ b; b ++ lit "/" ++ a;
        a ++ lit " " ++ b; b ++ lit " " ++ a; a; b]
       (pushedPermutations drugName).
Proof.
  intros Hsep Hs Hp. unfold pushedPermutations. rewrite Hs, Hsep, Hp.
  intros x Hx; apply in_or_app; right; exact Hx.
Qed.

Lemma pushedPermutations_plain (drugName : str) :
  includes drugName (lit "/") = false ->
  includes drugName (lit " and ") = false ->
  includes drugName (lit " & ") = false ->
  pushedPermutations drugName = [drugName].
Proof.
  intros H1 H2 H3. unfold pushedPermutations. rewrite H1, H2, H3. reflexivity.
Qed.

(** C4, as amended.  For every name, the expander returns the pushed
    permutations with first occurrences kept, in their order, and without
    duplicates; the original name comes first.  A name containing a slash
    whose split has exactly two parts yields, with the trimmed parts [a] and
    [b], the slash, space and dash forms in both orders and the two parts
    alone.  A name containing " and " (or else " & ") whose split has exactly
    two parts yields the slash and space forms in both orders and the two
    parts alone; the dash forms are not added for these separators.  A name
    with none of the separators is returned as the one-element list. *)
Theorem generateCombinationPermutations_contract (drugName : str) :
  generateCombinationPermutations drugName
  = keepFirst (pushedPermutations drugName)
  /\ (exists rest, generateCombinationPermutations drugName = drugName :: rest)
  /\ NoDup (generateCombinationPermutations drugName)
  /\ (forall a b,
         includes drugName (lit "/") = true ->
         map trim (split (lit "/") drugName) = [a; b] ->
         incl [a ++ lit "/" ++ b; b ++ lit "/" ++ a;
               a ++ lit " " ++ b; b ++ lit " " ++ a;
               a ++ lit "-" ++ b; b ++ lit "-" ++ a; a; b]
              (generateCombinationPermutations drugName))
  /\ (forall a b,
         includes drugName (lit " and ") = true ->
         map trim (split (lit " and ") drugName) = [a; b] ->
         incl [a ++ lit "/" ++ b; b ++ lit "/" ++ a;
               a ++ lit " " ++ b; b ++ lit " " ++ a; a; b]
              (generateCombinationPermutations drugName))
  /\ (forall a b,
         includes drugName (lit " and ") = false ->
         includes drugName (lit " & ") = true ->
         map trim (split (lit " & ") drugName) = [a; b] ->
         incl [a ++ lit "/" ++ b; b ++ lit "/" ++ a;
               a ++ lit " " ++ b; b ++ lit " " ++ a; a; b]
              (generateCombinationPermutations drugName))
  /\ (includes drugName (lit "/") = false ->
      includes drugName (lit " and ") = false ->
      includes drugName (lit " & ") = false ->
      generateCombinationPermutations drugName = [drugName]).
Proof.
  unfold generateCombinationPermutations.
  repeat split.
  - apply uniq_keepFirst.
  - destruct (pushedPermutations_head drugName) as [rest ->]. apply uniq_head.
  - apply uniq_NoDup.
  - intros a b Hs Hp. apply incl_uniq, pushedPermutations_slash; assumption.
  - intros a b Hs Hp. apply incl_uniq.
    apply pushedPermutations_and with (sep := lit " and ");
      rewrite ?Hs; auto.
  - intros a b Hn Hs Hp. apply incl_uniq.
    apply pushedPermutations_and with (sep := lit " & ");
      rewrite ?Hn, ?Hs; auto.
  - intros H1 H2 H3. rewrite pushedPermutations_plain by assumption.
    reflexivity.
Qed.

(** The two examples of the specification, obtained from the contract. *)
Lemma generateCombinationPermutations_examples :
  incl [lit "lisinopril/hydrochlorothiazide";
        lit "hydrochlorothiazide/lisinopril";
        lit "lisinopril"; lit "hydrochlorothiazide"]
       (generateCombinationPermutations (lit "lisinopril/hydrochlorothiazide"))
  /\ generateCombinationPermutations (lit "metformin") = [lit "metformin"].
Proof.
  split.
  - pose proof
      (proj1 (proj2 (proj2 (proj2
         (generateCombinationPermutations_contract
            (lit "lisinopril/hydrochlorothiazide")))))
         (lit "lisinopril") (lit "hydrochlorothiazide")
         eq_refl eq_refl) as I.
    intros x Hx. apply I. simpl in Hx. simpl.
    intuition.
  - apply (generateCombinationPermutations_contract (lit "metformin"));
      reflexivity.
Defined.

(** C4, as stated, fails: a name joined by " and " does not receive the
    dash-joined forms of the slash expansion. *)
Lemma generateCombinationPermutations_and_has_no_dash_form :
  includes (lit "amlodipine and benazepril") (lit " and ") = true
  /\ map trim (split (lit " and ") (lit "amlodipine and benazepril"))
     = [lit "amlodipine"; lit "benazepril"]
  /\ ~ In (lit "amlodipine-benazepril")
          (generateCombinationPermutations (lit "amlodipine and benazepril")).
Proof.
  split; [reflexivity|]. split; [reflexivity|].
  intros Hin. apply mem_In in Hin. vm_compute in Hin. discriminate.
Qed.

(** ** The search-term generator *)

Lemma isLowerCased_deliveryOf (m : Medication) : isLowerCased (deliveryOf m).
Proof.
  unfold deliveryOf. destruct (deliveryMethod m).
  - apply isLowerCased_toLowerCase.
  - apply isLowerCased_nil.
Qed.

Lemma startsWith_app (p x : str) : startsWith p (p ++ x) = true.
Proof.
  induction p as [|c p IH]; simpl; [reflexivity|].
  rewrite Ascii.eqb_refl; exact IH.
Qed.

(** A term pushed for a lower-cased name and delivery method is lower-cased,
    unless it is one of the two upper-case aliases. *)
Lemma termsFor_case (delivery : str) (f : Formulation) (respimat : bool)
      (d t : str) :
  isLowerCased delivery -> isLowerCased d ->
  In t (termsFor delivery f respimat d) ->
  isLowerCased t
  \/ (delivery = lit "inhaler" /\ t = d ++ lit " MDI")
  \/ (delivery = lit "handihaler" /\ t = d ++ lit " DPI").
Proof.
  intros Ld Ln. unfold termsFor.
  destruct (str_eqb delivery (lit "inhaler")) eqn:Ei;
    destruct (str_eqb delivery (lit "handihaler")) eqn:Eh;
    try (apply str_eqb_eq in Ei); try (apply str_eqb_eq in Eh);
    destruct (truthy delivery), f, respimat; simpl;
    intros Hin;
    repeat match type of Hin with
           | _ \/ _ => destruct Hin as [Hin|Hin]
           | False => contradiction
           end;
    subst t;
    first [ left; lower_parts; fail
          | right; left; split; [assumption | reflexivity]
          | right; right; split; [assumption | reflexivity] ].
Qed.

(** C5, as amended.  For every mention, the search terms are the pushed
    terms with first occurrences kept, in their order: no string occurs
    twice.  Every term begins with a permutation of the lower-cased name and
    is lower-cased, except the aliases ending in " MDI" (delivery method
    "inhaler") and " DPI" (delivery method "handihaler"); white space of the
    name and of the delivery method is kept as it is. *)
Theorem generateSearchTerms_contract (m : Medication) :
  generateSearchTerms m = keepFirst (rawSearchTerms m)
  /\ NoDup (generateSearchTerms m)
  /\ (forall t,
         In t (generateSearchTerms m) ->
         exists d,
           In d (generateCombinationPermutations (toLowerCase (name m)))
           /\ In t (termsFor (deliveryOf m) (formulation m)
                             (includes (toLowerCase (fullContext m))
                                       (lit "respimat")) d)
           /\ startsWith d t = true
           /\ (isLowerCased t
               \/ (deliveryOf m = lit "inhaler" /\ t = d ++ lit " MDI")
               \/ (deliveryOf m = lit "handihaler" /\ t = d ++ lit " DPI"))).
Proof.
  unfold generateSearchTerms. split; [apply uniq_keepFirst|].
  split; [apply uniq_NoDup|].
  intros t Hin. apply (proj1 (uniq_In _ _)) in Hin.
  unfold rawSearchTerms in Hin.
  apply in_flat_map in Hin. destruct Hin as [d [Hd Ht]].
  exists d. split; [exact Hd|]. split; [exact Ht|].
  assert (Ln : isLowerCased d).
  { pose proof (isLowerCased_permutations
                  (isLowerCased_toLowerCase (name m))) as F.
    rewrite Forall_forall in F. apply F, Hd. }
  split.
  - clear - Ht.
    pose proof (startsWith_app d) as P.
    unfold termsFor in Ht.
    repeat match type of Ht with
           | In _ (_ ++ _) => apply in_app_or in Ht; destruct Ht as [Ht|Ht]
           | In _ (if ?b then _ else _) => destruct b
           | In _ (match ?f with IR => _ | ER => _ end) => destruct f
           end;
      simpl in Ht;
      repeat match type of Ht with
             | _ \/ _ => destruct Ht as [Ht|Ht]
             | False => contradiction
             end;
      subst t; try apply P.
    rewrite <- (app_nil_r d) at 2. apply P.
  - apply termsFor_case with (f := formulation m)
      (respimat := includes (toLowerCase (fullContext m)) (lit "respimat"));
      [apply isLowerCased_deliveryOf | exact Ln | exact Ht].
Qed.

(** C5, as stated, fails: with the delivery method "inhaler" the list holds
    a term with upper-case letters, and white space of the name is not
    normalised. *)
Lemma generateSearchTerms_not_all_lower_cased :
  let inhaled :=
    {| name := lit "Albuterol"; dosage := lit "90mcg"; formulation := IR;
       deliveryMethod := Some (lit "inhaler");
       fullContext := lit "Albuterol 90mcg inhaler" |} in
  let spaced :=
    {| name := lit "insulin  glargine"; dosage := []; formulation := IR;
       deliveryMethod := None; fullContext := [] |} in
  In (lit "albuterol MDI") (generateSearchTerms inhaled)
  /\ ~ isLowerCased (lit "albuterol MDI")
  /\ In (lit "insulin  glargine") (generateSearchTerms spaced).
Proof.
  intros inhaled spaced. split; [|split].
  - apply mem_In. vm_compute. reflexivity.
  - unfold isLowerCased. vm_compute. discriminate.
  - apply mem_In. vm_compute. reflexivity.
Qed.

(** ** The matcher of regular expressions against its declarative reading *)

Lemma lastOr_cons (prev : option ascii) (x : ascii) (s : str) :
  lastOr prev (x :: s) = lastOr (Some x) s.
Proof. reflexivity. Qed.

Lemma lastOr_app (prev : option ascii) (a b : str) :
  lastOr prev (a ++ b) = lastOr (lastOr prev a) b.
Proof. unfold lastOr. apply fold_left_app. Qed.

(** The backtracking matcher succeeds exactly when the input splits into a
    string the alternative denotes and a rest the continuation accepts. *)
Lemma matchAtoms_spec (p : Alternative) (k : option ascii -> str -> bool) :
  forall prev s,
    matchAtoms p prev s k = true
    <-> exists mid rest,
        s = mid ++ rest /\ denotes p mid /\ k (lastOr prev mid) rest = true.
Proof.
  induction p as [|a p IH]; intros prev s; simpl.
  - split.
    + intros K. exists [], s. auto.
    + intros (mid & rest & -> & -> & K). exact K.
  - assert (Step : forall (g : ascii -> bool),
               match s with
               | x :: s' => g x && matchAtoms p (Some x) s' k
               | [] => false
               end = true
               <-> exists mid rest,
                   s = mid ++ rest
                   /\ (exists x m, mid = x :: m /\ g x = true /\ denotes p m)
                   /\ k (lastOr prev mid) rest = true).
    { intros g. destruct s as [|x s'].
      - split; [discriminate|].
        intros (mid & rest & E & (y & m & -> & _) & _). discriminate.
      - rewrite andb_true_iff, IH. split.
        + intros (G & mid & rest & -> & D & K).
          exists (x :: mid), rest. split; [reflexivity|].
          split; [exists x, mid; auto | exact K].
        + intros (mid & rest & E & (y & m & -> & G & D) & K).
          injection E as -> ->. split; [exact G|].
          exists m, rest. auto. }
    destruct a.
    + apply Step.
    + rewrite (Step (fun x => negb (isLineTerminator x))).
      split; intros (mid & rest & E & (x & m & Em & G & D) & K);
        exists mid, rest; (split; [exact E|]); (split; [|exact K]);
        exists x, m; (split; [exact Em|]); (split; [|exact D]);
        [apply negb_true_iff; exact G | apply negb_true_iff in G; exact G].
    + rewrite orb_true_iff, (Step (fun x => negb (isLineTerminator x))), IH.
      split.
      * intros [(mid & rest & E & (x & m & Em & G & D) & K)
               |(mid & rest & E & D & K)].
        -- exists mid, rest. split; [exact E|]. split; [|exact K].
           left. exists x, m. apply negb_true_iff in G. auto.
        -- exists mid, rest. auto.
      * intros (mid & rest & E & [(x & m & Em & G & D)|D] & K).
        -- left. exists mid, rest. split; [exact E|]. split; [|exact K].
           exists x, m. rewrite G. auto.
        -- right. exists mid, rest. auto.
Qed.

Lemma matchHere_spec (r : WordRegex) (prev : option ascii) (s : str) :
  matchHere r prev s = true
  <-> exists a mid post,
      In a r /\ s = mid ++ post /\ denotes a mid
      /\ wordBoundary prev s = true
      /\ wordBoundary (lastOr prev mid) post = true.
Proof.
  unfold matchHere. rewrite andb_true_iff, existsb_exists. split.
  - intros (B & a & Ha & Hm). apply matchAtoms_spec in Hm.
    destruct Hm as (mid & post & E & D & K). exists a, mid, post. auto.
  - intros (a & mid & post & Ha & E & D & B & K). split; [exact B|].
    exists a. split; [exact Ha|]. apply matchAtoms_spec.
    exists mid, post. auto.
Qed.

(** [test] succeeds exactly when some alternative denotes a substring that
    stands between word boundaries. *)
Lemma regexScan_spec (r : WordRegex) (s : str) :
  forall prev,
    regexScan r prev s = true
    <-> exists a pre mid post,
        In a r /\ s = pre ++ mid ++ post /\ denotes a mid
        /\ wordBoundary (lastOr prev pre) (mid ++ post) = true
        /\ wordBoundary (lastOr (lastOr prev pre) mid) post = true.
Proof.
  induction s as [|x s IH]; intros prev.
  - simpl. rewrite orb_false_r, matchHere_spec. split.
    + intros (a & mid & post & Ha & E & D & B & K).
      exists a, [], mid, post. simpl. rewrite <- E. auto.
    + intros (a & pre & mid & post & Ha & E & D & B & K).
      destruct pre; [|discriminate]. simpl in *.
      exists a, mid, post. rewrite E. auto.
  - simpl. rewrite orb_true_iff, matchHere_spec, IH. split.
    + intros [(a & mid & post & Ha & E & D & B & K)
             |(a & pre & mid & post & Ha & E & D & B & K)].
      * exists a, [], mid, post. simpl. rewrite <- E. auto.
      * exists a, (x :: pre), mid, post. simpl. rewrite E. auto.
    + intros (a & pre & mid & post & Ha & E & D & B & K).
      destruct pre as [|y pre]; simpl in *.
      * left. exists a, mid, post. rewrite E. auto.
      * injection E as -> E. right. exists a, pre, mid, post. auto.
Qed.

Lemma regexTest_spec (r : WordRegex) (s : str) :
  regexTest r s = true
  <-> exists a pre mid post,
      In a r /\ denotes a mid /\ wholeWordAt s pre mid post.
Proof.
  unfold regexTest, wholeWordAt. rewrite regexScan_spec.
  split; intros (a & pre & mid & post & X); exists a, pre, mid, post; tauto.
Qed.

Lemma denotes_app (p q : Alternative) :
  forall mid,
    denotes (p ++ q) mid
    <-> exists m1 m2, mid = m1 ++ m2 /\ denotes p m1 /\ denotes q m2.
Proof.
  induction p as [|a p IH]; intros mid; simpl.
  - split.
    + intros D. exists [], mid. auto.
    + intros (m1 & m2 & -> & -> & D). exact D.
  - assert (Step : forall g : ascii -> bool,
               (exists x m, mid = x :: m /\ g x = true /\ denotes (p ++ q) m)
               <-> exists m1 m2,
                   mid = m1 ++ m2
                   /\ (exists x m, m1 = x :: m /\ g x = true /\ denotes p m)
                   /\ denotes q m2).
    { intros g. split.
      - intros (x & m & -> & G & D). apply IH in D.
        destruct D as (m1 & m2 & -> & D1 & D2).
        exists (x :: m1), m2. split; [reflexivity|]. split; [|exact D2].
        exists x, m1. auto.
      - intros (m1 & m2 & -> & (x & m & -> & G & D1) & D2).
        exists x, (m ++ m2). split; [reflexivity|]. split; [exact G|].
        apply IH. exists m, m2. auto. }
    destruct a.
    + apply (Step (ciEq c)).
    + split.
      * intros (x & m & -> & G & D). apply IH in D.
        destruct D as (m1 & m2 & -> & D1 & D2).
        exists (x :: m1), m2. split; [reflexivity|]. split; [|exact D2].
        exists x, m1. auto.
      * intros (m1 & m2 & -> & (x & m & -> & G & D1) & D2).
        exists x, (m ++ m2). split; [reflexivity|]. split; [exact G|].
        apply IH. exists m, m2. auto.
    + split.
      * intros [(x & m & -> & G & D)|D]; apply IH in D;
          destruct D as (m1 & m2 & E & D1 & D2).
        -- subst m. exists (x :: m1), m2. split; [reflexivity|].
           split; [|exact D2]. left. exists x, m1. auto.
        -- exists m1, m2. auto.
      * intros (m1 & m2 & -> & [(x & m & -> & G & D1)|D1] & D2).
        -- left. exists x, (m ++ m2). split; [reflexivity|]. split; [exact G|].
           apply IH. exists m, m2. auto.
        -- right. apply IH. exists m1, m2. auto.
Qed.

Lemma isLineTerminator_lowerChar (c : ascii) :
  isLineTerminator (lowerChar c) = isLineTerminator c.
Proof.
  destruct c as [b0 b1 b2 b3 b4 b5 b6 b7];
    destruct b0, b1, b2, b3, b4, b5, b6, b7; reflexivity.
Qed.

Lemma isWordChar_lowerChar (c : ascii) :
  isWordChar (lowerChar c) = isWordChar c.
Proof.
  destruct c as [b0 b1 b2 b3 b4 b5 b6 b7];
    destruct b0, b1, b2, b3, b4, b5, b6, b7; reflexivity.
Qed.

(** A sequence of literals denotes the strings equal to it up to case. *)
Lemma denotes_literal (w : str) :
  forall mid, denotes (map Chr w) mid <-> toLowerCase mid = toLowerCase w.
Proof.
  induction w as [|c w IH]; intros mid; simpl.
  - split; [intros ->; reflexivity|].
    destruct mid; [reflexivity | discriminate].
  - split.
    + intros (x & m & -> & G & D). simpl. apply IH in D.
      unfold ciEq in G. apply Ascii.eqb_eq in G. congruence.
    + destruct mid as [|x m]; [discriminate|]. simpl.
      intros E. injection E as E1 E2.
      exists x, m. split; [reflexivity|]. split; [|apply IH; exact E2].
      unfold ciEq. apply Ascii.eqb_eq. exact E1.
Qed.

Lemma denotes_chars (w : string) (mid : str) :
  isLowerCased (lit w) ->
  denotes (chars w) mid <-> toLowerCase mid = lit w.
Proof. intros L. unfold chars. rewrite denotes_literal, L. reflexivity. Qed.

(** [a.?b] denotes [a], at most one code unit, then [b], up to case. *)
Lemma denotes_joined (a b : string) (mid : str) :
  isLowerCased (lit a) -> isLowerCased (lit b) ->
  denotes (chars a ++ [OptAnyChar] ++ chars b) mid <-> joinedPhrase a b mid.
Proof.
  intros La Lb. rewrite denotes_app. unfold joinedPhrase. split.
  - intros (m1 & m2 & -> & D1 & D2).
    apply (denotes_chars _ _ La) in D1. simpl in D2.
    destruct D2 as [(x & m & -> & G & D2)|D2];
      apply (denotes_chars _ _ Lb) in D2.
    + exists [x]. split; [simpl; lia|]. split; [repeat constructor; exact G|].
      unfold toLowerCase in *. rewrite map_app. simpl. congruence.
    + exists []. split; [simpl; lia|]. split; [constructor|].
      unfold toLowerCase in *. rewrite map_app. simpl. congruence.
  - intros (sep & Hlen & Hlt & E).
    unfold toLowerCase in E.
    apply map_eq_app in E. destruct E as (m1 & m' & -> & E1 & E').
    apply map_eq_app in E'. destruct E' as (s' & m2 & -> & Es & E2).
    exists m1, (s' ++ m2). split; [reflexivity|].
    split; [apply (denotes_chars _ _ La); exact E1|].
    assert (D2 : denotes (chars b) m2) by (apply (denotes_chars _ _ Lb); exact E2).
    destruct sep as [|x [|y sep]]; simpl in Hlen; [| |lia].
    + destruct s'; [|discriminate]. simpl. right. exact D2.
    + destruct s' as [|x' [|y' s']]; try discriminate.
      simpl in *. left. exists x', m2. split; [reflexivity|].
      split; [|exact D2].
      injection Es as Ex. inversion Hlt as [|? ? Hx _]; subst.
      rewrite <- isLineTerminator_lowerChar, Ex, isLineTerminator_lowerChar.
      exact Hx.
Qed.

(** [.] between two words: exactly one code unit. *)
Lemma denotes_spaced (a b : string) (mid : str) :
  isLowerCased (lit a) -> isLowerCased (lit b) ->
  denotes (chars a ++ [AnyChar] ++ chars b) mid ->
  exists x, isLineTerminator x = false
            /\ toLowerCase mid = lit a ++ lowerChar x :: lit b.
Proof.
  intros La Lb D. apply denotes_app in D.
  destruct D as (m1 & m2 & -> & D1 & D2).
  apply (denotes_chars _ _ La) in D1. simpl in D2.
  destruct D2 as (x & m & -> & G & D2). apply (denotes_chars _ _ Lb) in D2.
  exists x. split; [exact G|].
  unfold toLowerCase in *. rewrite map_app. simpl. congruence.
Qed.

(** ** The formulation classifier *)

Lemma containsWord_spec (kw ctx : str) :
  containsWord kw ctx = true
  <-> exists pre mid post,
      wholeWordAt ctx pre mid post /\ toLowerCase mid = toLowerCase kw.
Proof.
  unfold containsWord. rewrite regexTest_spec. split.
  - intros (a & pre & mid & post & [<-|[]] & D & W).
    apply denotes_literal in D. exists pre, mid, post. auto.
  - intros (pre & mid & post & W & E).
    exists (map Chr kw), pre, mid, post. split; [left; reflexivity|].
    split; [apply denotes_literal; exact E | exact W].
Qed.

Lemma erKeywords_denote (mid : str) :
  (exists a, In a erKeywords /\ denotes a mid) <-> erCue mid.
Proof.
  unfold erCue, erKeywords.
  assert (L : forall w : string,
             toLowerCase (lit w) = lit w -> isLowerCased (lit w))
    by (intros w E; exact E).
  rewrite <- (denotes_joined "extended" "release" mid) by reflexivity.
  rewrite <- (denotes_joined "sustained" "release" mid) by reflexivity.
  rewrite <- (denotes_joined "long" "acting" mid) by reflexivity.
  split.
  - intros (a & Ha & D). simpl in Ha.
    destruct Ha as [<-|[<-|[<-|[<-|[<-|[<-|[<-|[<-|[<-|[]]]]]]]]]]; auto;
      left; (apply denotes_chars in D; [|reflexivity]); rewrite D; in_list.
  - intros [Hin|[D|[D|D]]].
    + simpl in Hin.
      destruct Hin as [E|[E|[E|[E|[E|[]]]]]]; symmetry in E;
        [exists (chars "er") | exists (chars "xl") | exists (chars "xr")
         | exists (chars "sr") | exists (chars "la")];
        (split; [simpl; tauto | apply denotes_chars; [reflexivity | exact E]]).
    + eexists; split; [|exact D]; simpl; tauto.
    + eexists; split; [|exact D]; simpl; tauto.
    + eexists; split; [|exact D]; simpl; tauto.
Qed.

Lemma isExplicitlyER_spec (ctx : str) :
  isExplicitlyER ctx = true
  <-> exists pre mid post, wholeWordAt ctx pre mid post /\ erCue mid.
Proof.
  unfold isExplicitlyER. rewrite regexTest_spec. split.
  - intros (a & pre & mid & post & Ha & D & W).
    exists pre, mid, post. split; [exact W|].
    apply erKeywords_denote. exists a. auto.
  - intros (pre & mid & post & W & C). apply erKeywords_denote in C.
    destruct C as (a & Ha & D). exists a, pre, mid, post. auto.
Qed.

Lemma listed_keyword_is_cue (kw mid : str) :
  In kw listedErKeywords -> toLowerCase mid = toLowerCase kw -> erCue mid.
Proof.
  unfold listedErKeywords, erCue, joinedPhrase. simpl.
  intros [<-|[<-|[<-|[<-|[<-|[<-|[<-|[<-|[<-|[<-|[]]]]]]]]]]] E;
    rewrite E; simpl;
    try (left; tauto).
  - right; left. exists (lit " "). simpl. repeat split; auto.
  - right; left. exists (lit "-"). simpl. repeat split; auto.
  - right; right; left. exists (lit " "). simpl. repeat split; auto.
  - right; right; left. exists (lit "-"). simpl. repeat split; auto.
  - right; right; right. exists (lit "-"). simpl. repeat split; auto.
Qed.

Lemma finalFormulation_ER (med : RawMedication) :
  finalFormulation med = ER
  <-> raw_formulation med = Some (lit "ER")
      /\ isExplicitlyER (argString (raw_fullContext med)) = true.
Proof.
  unfold finalFormulation, isER.
  destruct (raw_formulation med) as [f|]; cbv beta iota.
  - destruct (str_eqb f (lit "ER")) eqn:E; cbv beta iota; simpl andb.
    + apply str_eqb_eq in E; subst f.
      destruct (isExplicitlyER _).
      * split; [intros _; split; reflexivity | reflexivity].
      * split; [discriminate | intros [_ X]; discriminate X].
    + apply str_eqb_neq in E. split; [discriminate|].
      intros [X _]. congruence.
  - split; [discriminate | intros [X _]; discriminate].
Qed.

(** C1, as amended.  [isExplicitlyER] holds exactly when the context
    contains, between word boundaries and in any case, one of er, xl, xr, sr,
    la, or "extended"/"sustained" followed by "release" or "long" followed by
    "acting" with at most one code unit (of any kind except a line
    terminator) in between.  Every keyword the specification lists is such a
    cue, so a context containing one is recognised.  Extraction returns ER
    exactly when the model's answer says ER and the context passes this
    test, and IR in every other case. *)
Theorem formulation_classifier (ctx : str) :
  (isExplicitlyER ctx = true
   <-> exists pre mid post, wholeWordAt ctx pre mid post /\ erCue mid)
  /\ (forall kw,
         In kw listedErKeywords -> containsWord kw ctx = true ->
         isExplicitlyER ctx = true)
  /\ (forall med,
         raw_fullContext med = Some ctx ->
         (finalFormulation med = ER
          <-> raw_formulation med = Some (lit "ER")
              /\ isExplicitlyER ctx = true)
         /\ (isExplicitlyER ctx = false -> finalFormulation med = IR)).
Proof.
  split; [apply isExplicitlyER_spec|]. split.
  - intros kw Hkw Hc. apply containsWord_spec in Hc.
    destruct Hc as (pre & mid & post & W & E).
    apply isExplicitlyER_spec. exists pre, mid, post. split; [exact W|].
    apply listed_keyword_is_cue with (kw := kw); assumption.
  - intros med Hctx.
    pose proof (finalFormulation_ER med) as F. rewrite Hctx in F. simpl in F.
    split; [exact F|].
    intros Hno. destruct (finalFormulation med); [reflexivity|].
    destruct (proj1 F eq_refl) as [_ X]. congruence.
Qed.

(** The classifier at work: an explicit keyword gives ER, its absence IR. *)
Lemma formulation_classifier_examples :
  isExplicitlyER (lit "Metformin XR 500mg daily") = true
  /\ finalFormulation
       {| raw_name := Some (lit "metformin");
          raw_dosage := Some (lit "500mg");
          raw_formulation := Some (lit "ER");
          raw_deliveryMethod := None;
          raw_fullContext := Some (lit "Metformin 500mg twice daily") |} = IR.
Proof.
  split.
  - apply (proj1 (proj2 (formulation_classifier
                           (lit "Metformin XR 500mg daily")))
                 (lit "xr")).
    + unfold listedErKeywords. simpl. tauto.
    + vm_compute. reflexivity.
  - apply (proj2 (proj2 (formulation_classifier
                           (lit "Metformin 500mg twice daily")))).
    + reflexivity.
    + vm_compute. reflexivity.
Defined.

(** C1, as stated, fails: a context with none of the listed keywords is
    classified ER, because the pattern also takes "long acting" written with
    a space (and the joined phrases with any or no code unit in between). *)
Lemma formulation_classifier_beyond_listed_keywords :
  let ctx := lit "insulin glargine long acting 10 units at bedtime" in
  let med :=
    {| raw_name := Some (lit "insulin glargine");
       raw_dosage := Some (lit "10 units");
       raw_formulation := Some (lit "ER");
       raw_deliveryMethod := Some (lit "injection");
       raw_fullContext := Some ctx |} in
  existsb (fun kw => containsWord kw ctx) listedErKeywords = false
  /\ isExplicitlyER ctx = true
  /\ finalFormulation med = ER.
Proof. vm_compute. auto. Qed.

(** The pattern-based extractor uses its own indicator, which lacks
    "long-acting". *)
Lemma patternFormulation_ignores_long_acting :
  patternFormulation (lit "insulin long-acting 10 units") = IR
  /\ isExplicitlyER (lit "insulin long-acting 10 units") = true.
Proof. vm_compute. auto. Qed.

(** ** The resolver, one step at a time *)

Section ResolverFacts.

Context `{Collaborator} `{ReferenceTexts}.

Lemma grownBy_refl (st : State) : grownBy st st [] [] [].
Proof. unfold grownBy. rewrite !app_nil_r. auto. Qed.

Lemma grownBy_trans (a b c : State) cs es ds cs' es' ds' :
  grownBy a b cs es ds -> grownBy b c cs' es' ds' ->
  grownBy a c (cs ++ cs') (es ++ es') (ds ++ ds').
Proof.
  unfold grownBy. intros (A1 & A2 & A3 & A4) (B1 & B2 & B3 & B4).
  rewrite B1, B2, B3, A1, A2, A3, !app_assoc.
  repeat split; auto. apply Forall_app; auto.
Qed.

Lemma answered_request (query : str) (st : State) :
  answered (query, answerOf query st).
Proof. exists (world st). reflexivity. Qed.

Lemma grownBy_afterRequest (query : str) (st : State) :
  grownBy st (afterRequest query st) [(query, answerOf query st)] [] [].
Proof.
  unfold grownBy; simpl. rewrite !app_nil_r.
  repeat split; auto. constructor; [apply answered_request | constructor].
Qed.

Lemma grownBy_logged (st : State) (es : list LogEntry) :
  grownBy st (logged st es) [] es [].
Proof. unfold grownBy; simpl. rewrite !app_nil_r. auto. Qed.

Lemma grownBy_pushed (st : State) (d : DailyMedDetails) :
  grownBy st {| world := world st; calls := calls st;
                searchLog := searchLog st; results := results st ++ [d] |}
          [] [] [d].
Proof. unfold grownBy; simpl. rewrite !app_nil_r. auto. Qed.

Lemma searchMedications_run (query : str) (st : State) :
  searchMedications query st = (answerOf query st, afterRequest query st).
Proof.
  unfold searchMedications, afterRequest, answerOf.
  destruct (fetchSpls query (world st)) as [o w]. reflexivity.
Qed.

Lemma checkTop_fst (m : Medication) (rs : list DailyMedSearchResult) :
  forall rejected,
    fst (checkTop m rs rejected) = find (strictAccepts m) rs.
Proof.
  induction rs as [|r rs IH]; intros rejected; simpl; [reflexivity|].
  unfold strictAccepts at 1.
  destruct (isMatch (isAppropriateMatchWithReasons m r)); [reflexivity|].
  apply IH.
Qed.

(** One pass of the search-term loop: the request is made, exactly one
    entry is logged for it whatever the answer, and [bestResult] is set
    when the answer holds an appropriate result among its first three. *)
Lemma strictStep_run (m : Medication) (t : str) (loc : Locals) (st : State) :
  exists loc',
    tryCatch (strictAttempt m t loc) (strictHandler m t loc) st
    = (Ok loc', logged (afterRequest t st) [strictEntry m (t, answerOf t st)])
    /\ bestResult loc'
       = match strictPick m (answerOf t st) with
         | Some r => Some r
         | None => bestResult loc
         end
    /\ bestSearchTerm loc'
       = match strictPick m (answerOf t st) with
         | Some _ => t
         | None => bestSearchTerm loc
         end.
Proof.
  unfold tryCatch, strictAttempt, strictHandler, bind.
  rewrite searchMedications_run. unfold strictEntry, strictPick.
  cbn [fst snd].
  destruct (answerOf t st) as [rs|e].
  - rewrite <- (checkTop_fst m (slice0 3 rs) []).
    destruct (checkTop m (slice0 3 rs) []) as [best rejected].
    cbn [fst snd]. unfold pushLog, ret, logged.
    eexists. split; [reflexivity|]. cbn [bestResult bestSearchTerm].
    destruct best; auto.
  - unfold pushLog, ret, logged. eexists. split; [reflexivity|].
    cbn [bestResult bestSearchTerm]. auto.
Qed.

Lemma grownBy_step (m : Medication) (t : str) (st : State) :
  grownBy st (logged (afterRequest t st) [strictEntry m (t, answerOf t st)])
          [(t, answerOf t st)] (map (strictEntry m) [(t, answerOf t st)]) [].
Proof.
  change (map (strictEntry m) [(t, answerOf t st)])
    with ([] ++ [strictEntry m (t, answerOf t st)]).
  rewrite <- (app_nil_r [(t, answerOf t st)]).
  rewrite <- (app_nil_l (@nil DailyMedDetails)).
  eapply grownBy_trans; [apply grownBy_afterRequest | apply grownBy_logged].
Qed.

Lemma strictLoop_spec (m : Medication) (terms : list str) :
  forall loc st,
    bestResult loc = None ->
    exists loc' st' cs,
      strictLoop m terms loc st = (Ok loc', st')
      /\ grownBy st st' cs (map (strictEntry m) cs) []
      /\ searchedUntil (strictPick m) terms cs
           (match bestResult loc' with
            | Some r => Some (bestSearchTerm loc', r)
            | None => None
            end).
Proof.
  induction terms as [|t rest IH]; intros loc st Hnone.
  - exists loc, st, []. simpl. rewrite Hnone.
    split; [reflexivity|]. split; [apply grownBy_refl|]. simpl. auto.
  - destruct (strictStep_run m t loc st) as (loc1 & Hrun & Hbest & Hterm).
    pose proof (grownBy_step m t st) as Hstep.
    set (st1 := logged (afterRequest t st) [strictEntry m (t, answerOf t st)])
      in *.
    simpl. unfold bind at 1. rewrite Hrun.
    destruct (strictPick m (answerOf t st)) as [r|] eqn:Hpick.
    + rewrite Hbest. exists loc1, st1, [(t, answerOf t st)].
      split; [reflexivity|]. split; [exact Hstep|].
      rewrite Hbest, Hterm. simpl.
      exists [], (answerOf t st), rest. simpl. auto.
    + rewrite Hnone in Hbest. rewrite Hbest.
      destruct (IH loc1 st1 Hbest) as (loc' & st' & cs & Hloop & Hgrow & Huntil).
      exists loc', st', ([(t, answerOf t st)] ++ cs).
      split; [exact Hloop|]. split.
      * rewrite map_app. rewrite <- (app_nil_l (@nil DailyMedDetails)).
        eapply grownBy_trans; [exact Hstep | exact Hgrow].
      * destruct (bestResult loc') as [r|]; simpl in *.
        -- destruct Huntil as (pre & resp & post & -> & -> & Hpre & Hr).
           exists ((t, answerOf t st) :: pre), resp, post. simpl.
           repeat split; auto.
        -- destruct Huntil as [<- Hall]. split; [reflexivity|].
           constructor; [exact Hpick | exact Hall].
Qed.

(** One pass of the relaxed loop: the request is made; an entry is logged
    only when a candidate is taken. *)
Lemma relaxedStep_run (m : Medication) (t : str) (st : State) :
  tryCatch (relaxedAttempt m t) (fun _ => ret None) st
  = match relaxedPick m (answerOf t st) with
    | Some r =>
        (Ok (Some (r, t ++ lit " (relaxed)")),
         logged (afterRequest t st) [relaxedLogEntry m t r])
    | None => (Ok None, afterRequest t st)
    end.
Proof.
  unfold tryCatch, relaxedAttempt, bind.
  rewrite searchMedications_run. unfold relaxedPick.
  destruct (answerOf t st) as [rs|e]; [|reflexivity].
  destruct (find (relaxedAccepts m) (slice0 10 rs)); reflexivity.
Qed.

Lemma relaxedLoop_spec (m : Medication) (terms : list str) :
  forall st,
    exists o st' cs,
      relaxedLoop m terms st = (Ok o, st')
      /\ match o with
         | Some (r, shown) =>
             exists t,
               shown = t ++ lit " (relaxed)"
               /\ searchedUntil (relaxedPick m) terms cs (Some (t, r))
               /\ grownBy st st' cs [relaxedLogEntry m t r] []
         | None =>
             searchedUntil (relaxedPick m) terms cs None
             /\ grownBy st st' cs [] []
         end.
Proof.
  induction terms as [|t rest IH]; intros st.
  - exists None, st, []. simpl.
    split; [reflexivity|]. split; [auto | apply grownBy_refl].
  - simpl. unfold bind at 1. rewrite relaxedStep_run.
    pose proof (grownBy_afterRequest t st) as Hreq.
    destruct (relaxedPick m (answerOf t st)) as [r|] eqn:Hpick.
    + exists (Some (r, t ++ lit " (relaxed)")),
        (logged (afterRequest t st) [relaxedLogEntry m t r]),
        [(t, answerOf t st)].
      split; [reflexivity|]. exists t. split; [reflexivity|]. split.
      * exists [], (answerOf t st), rest. simpl. auto.
      * rewrite <- (app_nil_r [(t, answerOf t st)]).
        change [relaxedLogEntry m t r] with ([] ++ [relaxedLogEntry m t r]).
        rewrite <- (app_nil_l (@nil DailyMedDetails)).
        eapply grownBy_trans; [exact Hreq | apply grownBy_logged].
    + destruct (IH (afterRequest t st)) as (o & st' & cs & Hloop & Hspec).
      exists o, st', ([(t, answerOf t st)] ++ cs).
      split; [exact Hloop|].
      destruct o as [[r shown]|].
      * destruct Hspec as (t' & Hshown & Huntil & Hgrow).
        exists t'. split; [exact Hshown|]. split.
        -- destruct Huntil as (pre & resp & post & -> & -> & Hpre & Hr).
           exists ((t, answerOf t st) :: pre), resp, post. simpl.
           repeat split; auto.
        -- change [relaxedLogEntry m t' r]
             with ([] ++ [relaxedLogEntry m t' r]).
           rewrite <- (app_nil_l (@nil DailyMedDetails)).
           eapply grownBy_trans; [exact Hreq | exact Hgrow].
      * destruct Hspec as ([<- Hall] & Hgrow). split.
        -- split; [reflexivity|]. constructor; [exact Hpick | exact Hall].
        -- rewrite <- (app_nil_l (@nil LogEntry)).
           rewrite <- (app_nil_l (@nil DailyMedDetails)).
           eapply grownBy_trans; [exact Hreq | exact Hgrow].
Qed.

Lemma grownBy_eq (a b : State) cs es ds cs' es' ds' :
  grownBy a b cs es ds -> cs = cs' -> es = es' -> ds = ds' ->
  grownBy a b cs' es' ds'.
Proof. intros G -> -> ->. exact G. Qed.

Ltac grown_from G :=
  eapply grownBy_eq;
  [exact G | simpl; rewrite ?app_nil_r, <- ?app_assoc; reflexivity ..].

(** The whole body of the medication loop: it never throws, and what it
    requests, logs and pushes is fixed by how the medication was resolved. *)
Lemma processMedication_spec (m : Medication) (st : State) :
  exists st' cs1 cs2 closing,
    processMedication m st = (Ok tt, st')
    /\ grownBy st st' (cs1 ++ cs2)
               (map (strictEntry m) cs1 ++ closingEntries m closing)
               (closingResults m closing)
    /\ resolution m cs1 cs2 closing.
Proof.
  unfold processMedication, bind.
  destruct (strictLoop_spec m (generateSearchTerms m) initLocals st eq_refl)
    as (loc1 & st1 & cs1 & Hloop & Hgrow1 & Huntil1).
  rewrite Hloop. unfold relaxedStage.
  destruct (bestResult loc1) as [r|] eqn:Hbest.
  - unfold ret. rewrite Hbest. unfold pushResult.
    eexists _, cs1, [], (ClosedByStrict r).
    split; [reflexivity|]. split.
    + grown_from (grownBy_trans Hgrow1 (grownBy_pushed st1 (detailsOf m r))).
    + simpl. split; [eauto | reflexivity].
  - unfold bind, tryRelaxedSearch.
    destruct (relaxedLoop_spec m (uniq (relaxedSearchTerms m)) st1)
      as (o & st2 & cs2 & Hrel & Hspec).
    rewrite Hrel.
    destruct o as [[r shown]|].
    + destruct Hspec as (t & Hshown & Huntil2 & Hgrow2).
      unfold ret. cbn [bestResult]. unfold pushResult.
      eexists _, cs1, cs2, (ClosedByRelaxed t r).
      split; [reflexivity|]. split.
      * grown_from (grownBy_trans (grownBy_trans Hgrow1 Hgrow2)
                                  (grownBy_pushed st2 (detailsOf m r))).
      * simpl. auto.
    + destruct Hspec as (Huntil2 & Hgrow2).
      unfold ret. rewrite Hbest.
      change (pushLog (failureEntry m loc1) st2)
        with (Ok tt, logged st2 [failureEntry m loc1]).
      eexists _, cs1, cs2, (ClosedByFailure loc1).
      split; [reflexivity|]. split.
      * grown_from (grownBy_trans (grownBy_trans Hgrow1 Hgrow2)
                                  (grownBy_logged st2 [failureEntry m loc1])).
      * simpl. auto.
Qed.

Lemma closingResults_length (m : Medication) (c : Closing) :
  List.length (closingResults m c) <= 1.
Proof. destruct c; simpl; lia. Qed.

(** ** The medication loop *)

Lemma medicationLoop_cons (body : Medication -> M unit)
      (m : Medication) (rest : list Medication) (st : State) :
  medicationLoop body (m :: rest) st
  = match body m st with
    | (Ok _, st1) => medicationLoop body rest st1
    | (Throw e, st1) =>
        medicationLoop body rest (logged st1 [processingErrorEntry m e])
    end.
Proof.
  simpl. unfold bind, tryCatch.
  destruct (body m st) as [[u|e] st1]; reflexivity.
Qed.

Lemma medicationLoop_total (body : Medication -> M unit)
      (meds : list Medication) :
  forall st, exists st', medicationLoop body meds st = (Ok tt, st').
Proof.
  induction meds as [|m rest IH]; intros st.
  - exists st. reflexivity.
  - rewrite medicationLoop_cons.
    destruct (body m st) as [[u|e] st1]; apply IH.
Qed.

Lemma medicationLoop_resolver (meds : list Medication) :
  forall st,
    exists st' cs es ds,
      medicationLoop processMedication meds st = (Ok tt, st')
      /\ grownBy st st' cs es ds
      /\ List.length ds <= List.length meds.
Proof.
  induction meds as [|m rest IH]; intros st.
  - exists st, [], [], []. split; [reflexivity|].
    split; [apply grownBy_refl | simpl; lia].
  - rewrite medicationLoop_cons.
    destruct (processMedication_spec m st)
      as (st1 & cs1 & cs2 & closing & Hrun & Hgrow & _).
    rewrite Hrun.
    destruct (IH st1) as (st' & cs & es & ds & Hloop & Hgrow' & Hlen).
    exists st', ((cs1 ++ cs2) ++ cs),
      ((map (strictEntry m) cs1 ++ closingEntries m closing) ++ es),
      (closingResults m closing ++ ds).
    split; [exact Hloop|]. split.
    + eapply grownBy_trans; [exact Hgrow | exact Hgrow'].
    + rewrite length_app. pose proof (closingResults_length m closing).
      simpl. lia.
Qed.

(** The mentions of a batch are resolved one after the other. *)
Lemma medicationLoop_runs (meds : list Medication) :
  forall st,
    exists st' runs,
      medicationLoop processMedication meds st = (Ok tt, st')
      /\ map run_mention runs = meds
      /\ Forall runValid runs
      /\ grownBy st st' (flat_map runCalls runs) (flat_map runEntries runs)
                 (flat_map runResults runs).
Proof.
  induction meds as [|m rest IH]; intros st.
  - exists st, []. split; [reflexivity|]. split; [reflexivity|].
    split; [constructor | apply grownBy_refl].
  - rewrite medicationLoop_cons.
    destruct (processMedication_spec m st)
      as (st1 & cs1 & cs2 & closing & Hrun & Hgrow & Hhow).
    rewrite Hrun.
    destruct (IH st1) as (st' & runs & Hloop & Hmeds & Hvalid & Hgrow').
    exists st',
      ({| run_mention := m; run_strict := cs1; run_relaxed := cs2;
          run_closing := closing |} :: runs).
    split; [exact Hloop|]. split; [simpl; congruence|].
    split; [constructor; [exact Hhow | exact Hvalid]|].
    simpl. eapply grownBy_trans; [exact Hgrow | exact Hgrow'].
Qed.

End ResolverFacts.

(** ** The medication loop on the mentions of the routes *)

Section JsFacts.

Context `{Collaborator} `{ReferenceTexts}.

Lemma jsMedicationLoop_cons (jm : JsMedication) (rest : list JsMedication)
      (st : State) :
  jsMedicationLoop (jm :: rest) st
  = match processJsMedication jm st with
    | (Ok _, st1) => jsMedicationLoop rest st1
    | (Throw e, st1) =>
        jsMedicationLoop rest (logged st1 [jsProcessingErrorEntry jm e])
    end.
Proof.
  simpl. unfold bind, tryCatch.
  destruct (processJsMedication jm st) as [[u|e] st1]; reflexivity.
Qed.

Lemma withContext_ofMedication (m : Medication) :
  withContext (ofMedication m) (fullContext m) = m.
Proof. destruct m; reflexivity. Qed.

(** On mentions whose context is a string the loop is the loop of the
    resolver. *)
Lemma jsMedicationLoop_typed (meds : list Medication) :
  forall st,
    jsMedicationLoop (map ofMedication meds) st
    = medicationLoop processMedication meds st.
Proof.
  induction meds as [|m rest IH]; intros st; [reflexivity|].
  cbn [map]. rewrite jsMedicationLoop_cons, medicationLoop_cons.
  unfold processJsMedication. cbn [ofMedication js_fullContext].
  rewrite withContext_ofMedication.
  destruct (processMedication m st) as [[u|e] st1]; rewrite IH;
    [reflexivity|].
  destruct m; reflexivity.
Qed.

Lemma searchMultipleMedicationsJson_typed (meds : list Medication) (w : World) :
  searchMultipleMedicationsJson (map ofMedication meds) w
  = searchMultipleMedications meds w.
Proof.
  unfold searchMultipleMedicationsJson, searchMultipleMedications.
  rewrite jsMedicationLoop_typed. reflexivity.
Qed.

(** Every mention is handled in its turn: resolved as the resolver does,
    or, when its context is no string, left with the entry of the catch. *)
Lemma jsMedicationLoop_outcomes (jms : list JsMedication) :
  forall st,
    exists st' outs,
      jsMedicationLoop jms st = (Ok tt, st')
      /\ Forall2 jsOutcomeValid jms outs
      /\ grownBy st st' (flat_map jsOutcomeCalls outs) (jsEntries jms outs)
                 (flat_map jsOutcomeResults outs).
Proof.
  induction jms as [|jm rest IH]; intros st.
  - exists st, []. split; [reflexivity|]. split; [constructor|].
    apply grownBy_refl.
  - rewrite jsMedicationLoop_cons. unfold processJsMedication.
    destruct (js_fullContext jm) as [context|] eqn:C.
    + destruct (processMedication_spec (withContext jm context) st)
        as (st1 & cs1 & cs2 & closing & Hrun & Hgrow & Hhow).
      rewrite Hrun.
      destruct (IH st1) as (st' & outs & Hloop & Hvalid & Hgrow').
      exists st',
        (Some {| run_mention := withContext jm context;
                 run_strict := cs1; run_relaxed := cs2;
                 run_closing := closing |} :: outs).
      split; [exact Hloop|]. split.
      * constructor; [|exact Hvalid].
        cbn [jsOutcomeValid run_mention withContext fullContext].
        split; [exact C|]. split; [reflexivity | exact Hhow].
      * unfold jsEntries.
        cbn [flat_map combine fst snd jsOutcomeCalls jsOutcomeEntries
                      jsOutcomeResults].
        eapply grownBy_trans; [exact Hgrow | exact Hgrow'].
    + destruct (IH (logged st
                      [jsProcessingErrorEntry
                         jm (notAFunction "medication.fullContext.toLowerCase")]))
        as (st' & outs & Hloop & Hvalid & Hgrow').
      exists st', (None :: outs).
      split; [exact Hloop|]. split.
      * constructor; [exact C | exact Hvalid].
      * unfold jsEntries.
        cbn [flat_map combine fst snd jsOutcomeCalls jsOutcomeEntries
                      jsOutcomeResults app].
        pose proof (grownBy_logged st
                      [jsProcessingErrorEntry
                         jm (notAFunction "medication.fullContext.toLowerCase")])
          as G0.
        eapply grownBy_eq; [exact (grownBy_trans G0 Hgrow') | reflexivity ..].
Qed.

End JsFacts.

(** ** The candidate matchers *)

Lemma startsWith_toLowerCase (p s : str) :
  startsWith p s = true -> startsWith (toLowerCase p) (toLowerCase s) = true.
Proof.
  revert s; induction p as [|x p IH]; intros [|y s]; simpl; auto.
  rewrite !andb_true_iff, !Ascii.eqb_eq. intros [-> Hs]. auto.
Qed.

Lemma includes_toLowerCase (s sub : str) :
  includes s sub = true ->
  includes (toLowerCase s) (toLowerCase sub) = true.
Proof.
  induction s as [|c s IH]; simpl.
  - rewrite !orb_false_r. apply (startsWith_toLowerCase sub []).
  - rewrite !orb_true_iff. intros [Hs|Hs].
    + left. apply (startsWith_toLowerCase sub (c :: s) Hs).
    + right. apply IH, Hs.
Qed.

Lemma veterinaryKeywords_lower : Forall isLowerCased veterinaryKeywords.
Proof. repeat constructor. Qed.

(** A keyword found in the title or labeler as written is also found after
    lower-casing, which is where the code looks. *)
Lemma isVeterinary_flagged (title : str) (labeler : option str) :
  isVeterinary title (orEmpty labeler) = true ->
  veterinaryFlagged title labeler = true.
Proof.
  unfold veterinaryFlagged, isVeterinary. rewrite !existsb_exists.
  intros (k & Hk & Hin). exists k. split; [exact Hk|].
  pose proof veterinaryKeywords_lower as L. rewrite Forall_forall in L.
  specialize (L k Hk). unfold isLowerCased in L.
  apply orb_true_iff in Hin. apply orb_true_iff.
  destruct Hin as [Hin|Hin]; apply includes_toLowerCase in Hin;
    rewrite L in Hin; auto.
Qed.

Lemma strictAccepts_sound (m : Medication) (r : DailyMedSearchResult) :
  strictAccepts m r = true ->
  veterinaryFlagged (title r) (labeler r) = false
  /\ formulationConflict (formulation m) (title r) = false.
Proof.
  unfold strictAccepts, isAppropriateMatchWithReasons, veterinaryFlagged,
    formulationConflict, lowerTitle, lowerLabeler.
  destruct (negb (existsb _ (generateCombinationPermutations _)));
    [discriminate|].
  destruct (isVeterinary _ _); [discriminate|].
  destruct (truthy (deliveryOf m) && isInhalerDelivery (deliveryOf m) && _);
    [discriminate|].
  destruct (truthy (deliveryOf m) && isInhalerDelivery (deliveryOf m) && _);
    [discriminate|].
  destruct (str_eqb _ _ && _ && _); [discriminate|].
  destruct (formulation m);
    [destruct (regexTest erIndicators _) | destruct (regexTest irIndicators _)];
    simpl; intros E; try discriminate; auto.
Qed.

Lemma relaxedAccepts_sound (m : Medication) (r : DailyMedSearchResult) :
  relaxedAccepts m r = true ->
  veterinaryFlagged (title r) (labeler r) = false
  /\ formulationConflict (formulation m) (title r) = false.
Proof.
  unfold relaxedAccepts, veterinaryFlagged, formulationConflict,
    lowerTitle, lowerLabeler.
  destruct (isVeterinary _ _); [discriminate|].
  destruct (negb (_ || _)); [discriminate|].
  destruct (formulation m); rewrite negb_true_iff; auto.
Qed.

Lemma resolution_accepted (m : Medication) cs1 cs2 (c : Closing) :
  resolution m cs1 cs2 c ->
  match c with
  | ClosedByStrict r => strictAccepts m r = true
  | ClosedByRelaxed _ r => relaxedAccepts m r = true
  | ClosedByFailure _ => True
  end.
Proof.
  destruct c as [r|t r|loc]; simpl; [| |auto].
  - intros [(t & pre & resp & post & _ & _ & _ & Hpick) _].
    destruct resp as [rs|e]; simpl in Hpick; [|discriminate].
    apply find_some in Hpick. tauto.
  - intros [_ (pre & resp & post & _ & _ & _ & Hpick)].
    destruct resp as [rs|e]; simpl in Hpick; [|discriminate].
    apply find_some in Hpick. tauto.
Qed.

(** ** [searchMedications]: filter, stable sort, first five *)

Lemma insertBy_pharma (x : SplItem) (l : list SplItem) :
  isHumanPharma x = true ->
  insertBy comparePharma x l = x :: l.
Proof.
  intros Hx. destruct l as [|y l]; simpl; [reflexivity|].
  unfold comparePharma. rewrite Hx. simpl.
  destruct (isHumanPharma y); reflexivity.
Qed.

Lemma insertBy_other (x : SplItem) (P N : list SplItem) :
  isHumanPharma x = false ->
  Forall (fun y => isHumanPharma y = true) P ->
  Forall (fun y => isHumanPharma y = false) N ->
  insertBy comparePharma x (P ++ N) = P ++ x :: N.
Proof.
  intros Hx HP HN. induction HP as [|y P Hy HP IH]; simpl.
  - destruct N as [|z N]; simpl; [reflexivity|].
    inversion HN as [|? ? Hz _]; subst.
    unfold comparePharma. rewrite Hx, Hz. reflexivity.
  - unfold comparePharma at 1. rewrite Hx, Hy. simpl. rewrite IH. reflexivity.
Qed.

(** The comparator has two classes only, so the stable sort is the stable
    partition: the human-pharmaceutical labelers first, each class in the
    order of the answer. *)
Lemma stableSort_comparePharma (l : list SplItem) :
  stableSort comparePharma l
  = filter isHumanPharma l ++ filter (fun y => negb (isHumanPharma y)) l.
Proof.
  unfold stableSort. induction l as [|x l IH]; simpl; [reflexivity|].
  rewrite IH. destruct (isHumanPharma x) eqn:Hx; simpl.
  - apply insertBy_pharma, Hx.
  - apply insertBy_other; [exact Hx | |].
    + apply Forall_forall. intros y Hy. apply filter_In in Hy. tauto.
    + apply Forall_forall. intros y Hy. apply filter_In in Hy.
      destruct Hy as [_ Hy]. apply negb_true_iff in Hy. exact Hy.
Qed.

Lemma searchResultsOf_partition (data : list SplItem) :
  searchResultsOf data
  = map toSearchResult
        (slice0 5 (filter isHumanPharma (filter isHumanItem data)
                   ++ filter (fun y => negb (isHumanPharma y))
                             (filter isHumanItem data))).
Proof. unfold searchResultsOf. rewrite stableSort_comparePharma. reflexivity. Qed.

Lemma searchResultsOf_length (data : list SplItem) :
  List.length (searchResultsOf data) <= 5.
Proof.
  unfold searchResultsOf, slice0. rewrite length_map. apply firstn_le_length.
Qed.

Lemma In_firstn {A} (n : nat) (x : A) (l : list A) :
  In x (firstn n l) -> In x l.
Proof.
  revert l; induction n as [|n IH]; intros [|y l]; simpl; try tauto.
  intros [E|Hin]; auto.
Qed.

Lemma searchResultsOf_human (data : list SplItem) :
  Forall (fun r => veterinaryFlagged (title r) (labeler r) = false)
         (searchResultsOf data).
Proof.
  rewrite searchResultsOf_partition. apply Forall_forall. intros r Hr.
  apply in_map_iff in Hr. destruct Hr as (item & <- & Hin).
  apply In_firstn in Hin.
  assert (Hh : In item (filter isHumanItem data)).
  { apply in_app_or in Hin. destruct Hin as [Hin|Hin];
      apply filter_In in Hin; tauto. }
  apply filter_In in Hh. destruct Hh as [_ Hh].
  unfold isHumanItem in Hh. apply negb_true_iff in Hh. exact Hh.
Qed.

Lemma slice0_short {A} (n : nat) (l : list A) :
  List.length l <= n -> slice0 n l = l.
Proof. intros L. unfold slice0. apply firstn_all2, L. Qed.

(** ** Titles and the formulation indicators *)

Lemma lastOr_toLowerCase (prev : option ascii) (s : str) :
  lastOr (option_map lowerChar prev) (toLowerCase s)
  = option_map lowerChar (lastOr prev s).
Proof.
  revert prev; induction s as [|c s IH]; intros prev; [reflexivity|].
  exact (IH (Some c)).
Qed.

Lemma wordBoundary_toLowerCase (prev : option ascii) (s : str) :
  wordBoundary (option_map lowerChar prev) (toLowerCase s)
  = wordBoundary prev s.
Proof.
  unfold wordBoundary. f_equal.
  - destruct prev; simpl; auto using isWordChar_lowerChar.
  - destruct s; simpl; auto using isWordChar_lowerChar.
Qed.

Lemma wholeWordAt_toLowerCase (s pre mid post : str) :
  wholeWordAt s pre mid post ->
  wholeWordAt (toLowerCase s) (toLowerCase pre) (toLowerCase mid)
              (toLowerCase post).
Proof.
  unfold wholeWordAt. intros (-> & B1 & B2).
  unfold toLowerCase at 1. rewrite !map_app. split; [reflexivity|].
  change (@None ascii) with (option_map lowerChar None).
  rewrite !lastOr_toLowerCase.
  fold (toLowerCase mid) (toLowerCase post).
  change (toLowerCase mid ++ toLowerCase post)
    with (map lowerChar mid ++ map lowerChar post).
  rewrite <- map_app. fold (toLowerCase (mid ++ post)).
  rewrite !wordBoundary_toLowerCase. auto.
Qed.

(** A title that contains a word which one alternative of the indicator
    denotes is matched by the indicator after lower-casing. *)
Lemma indicator_matches_word (r : WordRegex) (a : Alternative)
      (kw title : str) :
  In a r -> denotes a (toLowerCase kw) ->
  containsWord kw title = true ->
  regexTest r (toLowerCase title) = true.
Proof.
  intros Ha D Hc. apply containsWord_spec in Hc.
  destruct Hc as (pre & mid & post & W & E).
  apply regexTest_spec.
  exists a, (toLowerCase pre), (toLowerCase mid), (toLowerCase post).
  split; [exact Ha|]. split; [rewrite E; exact D|].
  apply wholeWordAt_toLowerCase, W.
Qed.

Ltac denotes_word :=
  simpl;
  repeat (eexists; eexists; split; [reflexivity|]; split; [reflexivity|]);
  reflexivity.

Lemma erTitleWords_conflict (kw title : str) :
  In kw erTitleWords -> containsWord kw title = true ->
  formulationConflict IR title = true.
Proof.
  unfold erTitleWords, formulationConflict. simpl.
  intros [<-|[<-|[<-|[<-|[<-|[<-|[<-|[<-|[<-|[]]]]]]]]]];
    [ apply indicator_matches_word
        with (a := chars "extended" ++ [AnyChar] ++ chars "release")
    | apply indicator_matches_word with (a := chars "extended-release")
    | apply indicator_matches_word with (a := chars "er")
    | apply indicator_matches_word with (a := chars "xl")
    | apply indicator_matches_word with (a := chars "xr")
    | apply indicator_matches_word
        with (a := chars "sustained" ++ [AnyChar] ++ chars "release")
    | apply indicator_matches_word with (a := chars "sustained-release")
    | apply indicator_matches_word with (a := chars "sr")
    | apply indicator_matches_word with (a := chars "la") ];
    try (unfold erIndicators; in_list); denotes_word.
Qed.

Lemma irTitleWords_conflict (kw title : str) :
  In kw irTitleWords -> containsWord kw title = true ->
  formulationConflict ER title = true.
Proof.
  unfold irTitleWords, formulationConflict. simpl.
  intros [<-|[<-|[<-|[]]]];
    [ apply indicator_matches_word
        with (a := chars "immediate" ++ [AnyChar] ++ chars "release")
    | apply indicator_matches_word with (a := chars "immediate-release")
    | apply indicator_matches_word with (a := chars "ir") ];
    try (unfold irIndicators; in_list); denotes_word.
Qed.

(** ** The pipeline *)

Section PipelineTheorems.

Context `{Collaborator} `{ReferenceTexts}.

(** What one medication adds to [results] was taken by one of the two
    matchers. *)
Lemma resolved_results_accepted (m : Medication) (st : State) :
  exists st' ds,
    processMedication m st = (Ok tt, st')
    /\ results st' = results st ++ ds
    /\ Forall (fun d =>
                 veterinaryFlagged (d_title d) (d_labeler d) = false
                 /\ formulationConflict (formulation m) (d_title d) = false)
              ds.
Proof.
  destruct (processMedication_spec m st)
    as (st' & cs1 & cs2 & closing & Hrun & (_ & _ & Hres & _) & Hhow).
  exists st', (closingResults m closing).
  split; [exact Hrun|]. split; [exact Hres|].
  apply resolution_accepted in Hhow.
  destruct closing as [r|t r|loc]; simpl.
  - constructor; [|constructor]. apply (strictAccepts_sound m r), Hhow.
  - constructor; [|constructor]. apply (relaxedAccepts_sound m r), Hhow.
  - constructor.
Qed.

(** C3, as amended.  For every mention and candidate whose title contradicts the
    requested formulation (the title of a candidate for an IR mention matches
    the extended-release indicators, or that of a candidate for an ER mention
    the immediate-release indicators), the strict matcher rejects the
    candidate and the relaxed pass skips it, by the same test.  A title
    containing one of the extended-release words as a whole word, in any
    case, contradicts IR, and one containing an immediate-release word
    contradicts ER.  No result added for a mention has a contradicting
    title.  The extended-release words are those of the matchers' regular
    expression, [erTitleWords]: the words of [isExplicitlyER] without
    long-acting. *)
Theorem formulation_conflict_never_accepted (m : Medication) :
  (forall r,
      formulationConflict (formulation m) (title r) = true ->
      isMatch (isAppropriateMatchWithReasons m r) = false
      /\ relaxedAccepts m r = false)
  /\ (forall kw t,
         In kw erTitleWords -> containsWord kw t = true ->
         formulationConflict IR t = true)
  /\ (forall kw t,
         In kw irTitleWords -> containsWord kw t = true ->
         formulationConflict ER t = true)
  /\ (forall st,
         exists st' ds,
           processMedication m st = (Ok tt, st')
           /\ results st' = results st ++ ds
           /\ Forall (fun d =>
                        formulationConflict (formulation m) (d_title d) = false)
                     ds).
Proof.
  split; [|split; [|split]].
  - intros r Hc. split.
    + destruct (isMatch (isAppropriateMatchWithReasons m r)) eqn:E;
        [|reflexivity].
      apply (strictAccepts_sound m r) in E. destruct E as [_ E]. congruence.
    + destruct (relaxedAccepts m r) eqn:E; [|reflexivity].
      apply relaxedAccepts_sound in E. destruct E as [_ E]. congruence.
  - apply erTitleWords_conflict.
  - apply irTitleWords_conflict.
  - intros st.
    destruct (resolved_results_accepted m st) as (st' & ds & Hrun & Hres & F).
    exists st', ds. split; [exact Hrun|]. split; [exact Hres|].
    eapply Forall_impl; [|exact F]. simpl. tauto.
Qed.

(** C6.  For every mention and candidate whose title or labeler holds a
    veterinary keyword, as written or in another letter case, the strict
    matcher returns no match and the relaxed pass skips the candidate;
    [searchMedications] returns no such candidate, and no result added for a
    mention is one. *)
Theorem veterinary_candidate_never_accepted (m : Medication) :
  (forall r,
      isVeterinary (title r) (orEmpty (labeler r)) = true
      \/ veterinaryFlagged (title r) (labeler r) = true ->
      isMatch (isAppropriateMatchWithReasons m r) = false
      /\ relaxedAccepts m r = false)
  /\ (forall query st rs st',
         searchMedications query st = (Ok rs, st') ->
         Forall (fun r => veterinaryFlagged (title r) (labeler r) = false) rs)
  /\ (forall st,
         exists st' ds,
           processMedication m st = (Ok tt, st')
           /\ results st' = results st ++ ds
           /\ Forall (fun d =>
                        veterinaryFlagged (d_title d) (d_labeler d) = false)
                     ds).
Proof.
  split; [|split].
  - intros r Hv.
    assert (Hf : veterinaryFlagged (title r) (labeler r) = true).
    { destruct Hv as [Hv|Hv]; [apply isVeterinary_flagged, Hv | exact Hv]. }
    split.
    + destruct (isMatch (isAppropriateMatchWithReasons m r)) eqn:E;
        [|reflexivity].
      apply (strictAccepts_sound m r) in E. destruct E as [E _]. congruence.
    + destruct (relaxedAccepts m r) eqn:E; [|reflexivity].
      apply relaxedAccepts_sound in E. destruct E as [E _]. congruence.
  - intros query st rs st' Hrun. rewrite searchMedications_run in Hrun.
    injection Hrun as Hans _. unfold answerOf in Hans.
    destruct (fst (fetchSpls query (world st))) as [| |data]; simpl in Hans.
    + discriminate.
    + injection Hans as <-. constructor.
    + injection Hans as <-. apply searchResultsOf_human.
  - intros st.
    destruct (resolved_results_accepted m st) as (st' & ds & Hrun & Hres & F).
    exists st', ds. split; [exact Hrun|]. split; [exact Hres|].
    eapply Forall_impl; [|exact F]. simpl. tauto.
Qed.

Lemma closing_resultOf (m : Medication) (c : Closing) :
  resultOf c (closingResults m c).
Proof.
  destruct c as [r|t r|loc]; cbn [resultOf closingResults];
    [exists (detailsOf m r) | exists (detailsOf m r) | reflexivity];
    (split; [reflexivity|]); repeat split.
Qed.

(** C7.  For every mention, processing never throws and adds at most one
    entry to the results.  The strict pass requests the search terms in
    order and stops at the first answer whose first three candidates hold an
    appropriate one; the entry added carries the set id, the title, the names
    and the labeler of the first such candidate, and no relaxed request is
    made.  When no strict answer holds one, the relaxed pass requests its
    terms in order and stops at the first answer whose candidates hold one
    the relaxed check takes; the entry added carries the fields of the first
    such candidate.  Otherwise nothing is added.  The requests recorded are
    exactly these, each answered by the service.  The results of a batch are
    those of its mentions in their order, every mention being resolved in
    this way, so that a batch returns at most as many results as it has
    mentions. *)
Theorem first_accepted_candidate_wins :
  (forall m st,
      exists st' cs1 cs2 closing ds,
        processMedication m st = (Ok tt, st')
        /\ calls st' = calls st ++ cs1 ++ cs2
        /\ Forall answered (cs1 ++ cs2)
        /\ resolution m cs1 cs2 closing
        /\ results st' = results st ++ ds
        /\ resultOf closing ds)
  /\ (forall meds w,
         exists runs st,
           searchMultipleMedications meds w
           = (Ok (flat_map runResults runs, flat_map runEntries runs), st)
           /\ map run_mention runs = meds
           /\ Forall runValid runs
           /\ Forall (fun run => resultOf (run_closing run) (runResults run))
                     runs
           /\ calls st = flat_map runCalls runs
           /\ Forall answered (calls st)
           /\ List.length (flat_map runResults runs) <= List.length meds).
Proof.
  split.
  - intros m st.
    destruct (processMedication_spec m st)
      as (st' & cs1 & cs2 & closing & Hrun & (Hc & _ & Hres & Ha) & Hhow).
    exists st', cs1, cs2, closing, (closingResults m closing).
    repeat split; auto using closing_resultOf.
  - intros meds w. unfold searchMultipleMedications.
    destruct (medicationLoop_runs meds (initState w))
      as (st & runs & Hrun & Hmeds & Hvalid & (Hc & Hl & Hr & Ha)).
    rewrite Hrun. exists runs, st. cbn [initState calls searchLog results app]
      in Hc, Hl, Hr.
    rewrite Hr, Hl. split; [reflexivity|]. split; [exact Hmeds|].
    split; [exact Hvalid|]. split; [|split; [exact Hc|split]].
    + apply Forall_forall. intros run _. apply closing_resultOf.
    + rewrite Hc. exact Ha.
    + rewrite <- Hmeds, length_map. clear.
      induction runs as [|r runs IH]; cbn [flat_map List.length]; [lia|].
      rewrite length_app. pose proof (closingResults_length (run_mention r)
                                        (run_closing r)).
      unfold runResults at 1. lia.
Qed.

Lemma strictEntry_term (m : Medication) cs :
  map l_searchTerm (map (strictEntry m) cs) = map fst cs.
Proof.
  rewrite map_map. apply map_ext. intros [t [rs|e]]; reflexivity.
Qed.

(** C8, as amended.  For every mention, the log grows by exactly one entry
    for every search term requested in the strict pass, in the order of the
    requests and whatever the answer (candidates rejected, no result, or a
    failed request), each entry carrying the term and the reasons of the
    candidates rejected; then by the entry of the relaxed match when the
    relaxed pass took a candidate, or by the SEARCH_FAILED entry when nothing
    was taken.  The relaxed requests that take no candidate leave no entry.
    A batch goes through its mentions in order, each one adding its entries
    after those of the mentions before it. *)
Theorem search_log_record :
  (forall m st,
      exists st' cs1 cs2 closing,
        processMedication m st = (Ok tt, st')
        /\ calls st' = calls st ++ cs1 ++ cs2
        /\ searchLog st'
           = searchLog st ++ map (strictEntry m) cs1 ++ closingEntries m closing
        /\ map l_searchTerm (map (strictEntry m) cs1) = map fst cs1
        /\ resolution m cs1 cs2 closing)
  /\ (forall m rest st,
         exists st1,
           processMedication m st = (Ok tt, st1)
           /\ medicationLoop processMedication (m :: rest) st
              = medicationLoop processMedication rest st1).
Proof.
  split.
  - intros m st.
    destruct (processMedication_spec m st)
      as (st' & cs1 & cs2 & closing & Hrun & (Hc & Hlog & _ & _) & Hhow).
    exists st', cs1, cs2, closing.
    repeat split; auto using strictEntry_term.
  - intros m rest st.
    destruct (processMedication_spec m st) as (st1 & _ & _ & _ & Hrun & _).
    exists st1. split; [exact Hrun|].
    rewrite medicationLoop_cons, Hrun. reflexivity.
Qed.

(** C10.  Whenever [searchMedications] returns, it returns at most five
    candidates, none of them with a veterinary keyword in title or labeler;
    they are the first five of the non-veterinary entries of the answer,
    those with a human-pharmaceutical labeler moved before the others and
    each group in the order of the answer.  The first ten of them are all of
    them.  The order can differ from the order of the answer. *)
Theorem searchMedications_candidates :
  (forall query st rs st',
      searchMedications query st = (Ok rs, st') ->
      List.length rs <= 5
      /\ Forall (fun r => veterinaryFlagged (title r) (labeler r) = false) rs
      /\ slice0 10 rs = rs
      /\ (fst (fetchSpls query (world st)) = NoDataArray /\ rs = []
          \/ exists data,
              fst (fetchSpls query (world st)) = DataArray data
              /\ rs = map toSearchResult
                        (slice0 5
                           (filter isHumanPharma (filter isHumanItem data)
                            ++ filter (fun y => negb (isHumanPharma y))
                                      (filter isHumanItem data)))))
  /\ (exists data,
         List.length data <= 5
         /\ filter isHumanItem data = data
         /\ searchResultsOf data <> map toSearchResult data).
Proof.
  split.
  - intros query st rs st' Hrun. rewrite searchMedications_run in Hrun.
    injection Hrun as Hans _. unfold answerOf in Hans.
    destruct (fst (fetchSpls query (world st))) as [| |data]; simpl in Hans.
    + discriminate.
    + injection Hans as <-.
      split; [simpl; lia|]. split; [constructor|].
      split; [reflexivity|]. left. split; reflexivity.
    + injection Hans as <-.
      pose proof (searchResultsOf_length data) as L.
      split; [exact L|]. split; [apply searchResultsOf_human|].
      split; [apply slice0_short; lia|].
      right. exists data. split; [reflexivity|].
      apply searchResultsOf_partition.
  - exists [label "Metformin Hydrochloride Tablets" (Some "Zydus"%string);
            label "Metformin Hydrochloride Extended-Release Tablets"
                  (Some "Teva Pharmaceuticals"%string)].
    split; [simpl; lia|]. split; [reflexivity|].
    vm_compute. discriminate.
Qed.

End PipelineTheorems.

(** ** Failures inside a batch *)

Section BatchFailures.

Context `{Collaborator} `{ReferenceTexts}.

Lemma searchedUntil_prefix pick terms cs best :
  searchedUntil pick terms cs best ->
  exists post, terms = map fst cs ++ post.
Proof.
  destruct best as [[t r]|]; simpl.
  - intros (pre & resp & post & -> & -> & _). exists post.
    rewrite map_app, <- app_assoc. reflexivity.
  - intros [<- _]. exists []. rewrite app_nil_r. reflexivity.
Qed.

Lemma failed_requests (qs : list str) cs :
  failsOn qs -> Forall answered cs ->
  (exists post, qs = map fst cs ++ post) ->
  cs = map (fun t => (t, Throw searchError)) (map fst cs).
Proof.
  intros Hf Ha [post Hq].
  assert (Hin : forall c, In c cs -> In (fst c) qs).
  { intros c Hc. rewrite Hq. apply in_or_app. left. apply in_map, Hc. }
  clear Hq. induction Ha as [|c cs Hc Ha IH]; simpl; [reflexivity|].
  rewrite <- IH by (intros c' Hc'; apply Hin; right; exact Hc').
  f_equal. destruct c as [t a]. destruct Hc as [w Hw]. simpl in *.
  rewrite (Hf t (Hin (t, a) (or_introl eq_refl)) w) in Hw.
  rewrite Hw. reflexivity.
Qed.

Lemma failed_pick_none
      (pick : Res (list DailyMedSearchResult) -> option DailyMedSearchResult)
      (ts : list str) (t : str) (resp : Res (list DailyMedSearchResult))
      (r : DailyMedSearchResult) pre :
  pick (Throw searchError) = None ->
  pre ++ [(t, resp)] = map (fun t => (t, Throw searchError)) ts ->
  pick resp = Some r -> False.
Proof.
  intros Hnone E Hpick.
  assert (Hin : In (t, resp) (map (fun t => (t, Throw searchError)) ts)).
  { rewrite <- E. apply in_or_app. right. left. reflexivity. }
  apply in_map_iff in Hin. destruct Hin as (t' & E' & _).
  injection E' as _ <-. congruence.
Qed.

(** A mention for which every request fails, with its requests: all the
    search terms and all the relaxed terms are requested, every request
    fails, nothing is added to [results] and the log is closed by the
    SEARCH_FAILED entry. *)
Lemma processMedication_failing_run (m : Medication) (st : State) :
  failsOn (generateSearchTerms m ++ uniq (relaxedSearchTerms m)) ->
  exists st' loc,
    processMedication m st = (Ok tt, st')
    /\ grownBy st st'
         (map (fun t => (t, Throw searchError))
              (generateSearchTerms m ++ uniq (relaxedSearchTerms m)))
         (map (fun t => searchFailedEntry m t searchError)
              (generateSearchTerms m)
          ++ [failureEntry m loc])
         [].
Proof.
  intros Hf.
  destruct (processMedication_spec m st)
    as (st' & cs1 & cs2 & closing & Hrun & (Hc & Hlog & Hres & Ha) & Hhow).
  pose proof Ha as Hall.
  apply Forall_app in Ha. destruct Ha as [Ha1 Ha2].
  assert (Hf1 : failsOn (generateSearchTerms m)).
  { intros q Hq. apply Hf, in_or_app. auto. }
  assert (Hf2 : failsOn (uniq (relaxedSearchTerms m))).
  { intros q Hq. apply Hf, in_or_app. auto. }
  assert (S1 : exists post, generateSearchTerms m = map fst cs1 ++ post).
  { destruct closing; unfold resolution in Hhow.
    - destruct Hhow as [[t Hu] _]. exact (searchedUntil_prefix _ _ _ _ Hu).
    - destruct Hhow as [Hu _]. exact (searchedUntil_prefix _ _ _ _ Hu).
    - destruct Hhow as [Hu _]. exact (searchedUntil_prefix _ _ _ _ Hu). }
  pose proof (failed_requests Hf1 Ha1 S1) as E1.
  destruct closing as [r|t r|loc]; unfold resolution in Hhow.
  - exfalso. destruct Hhow as [[t (pre & resp & post & Ecs & _ & _ & Hpick)] _].
    rewrite Ecs in E1 at 1.
    eapply (failed_pick_none (strictPick m));
      [reflexivity | exact E1 | exact Hpick].
  - exfalso. destruct Hhow as [_ Hu].
    pose proof (failed_requests Hf2 Ha2 (searchedUntil_prefix _ _ _ _ Hu)) as E2.
    destruct Hu as (pre & resp & post & Ecs & _ & _ & Hpick).
    rewrite Ecs in E2 at 1.
    eapply (failed_pick_none (relaxedPick m));
      [reflexivity | exact E2 | exact Hpick].
  - exists st', loc. split; [exact Hrun|].
    destruct Hhow as [Hu1 Hu2].
    pose proof (failed_requests Hf2 Ha2 (searchedUntil_prefix _ _ _ _ Hu2)) as E2.
    destruct Hu1 as [T1 _]. destruct Hu2 as [T2 _].
    assert (Ecs : cs1 ++ cs2
                  = map (fun t => (t, Throw searchError))
                        (generateSearchTerms m ++ uniq (relaxedSearchTerms m))).
    { rewrite map_app, <- T1, <- T2, <- E1, <- E2. reflexivity. }
    assert (Ees : map (strictEntry m) cs1
                  = map (fun t => searchFailedEntry m t searchError)
                        (generateSearchTerms m)).
    { rewrite E1, T1, map_map. reflexivity. }
    cbn [closingEntries closingResults] in *.
    repeat split.
    + rewrite Hc, Ecs. reflexivity.
    + rewrite Hlog, Ees. reflexivity.
    + exact Hres.
    + rewrite <- Ecs. exact Hall.
Qed.

(** C9.  An exception that leaves the body of the medication loop for one
    mention is caught there, whatever the body and the exception are: the
    entry with the search term PROCESSING_ERROR is appended and the loop goes
    on with the next mention, so the loop itself never throws.  In the
    resolver this happens for a mention whose context is no string: the body
    throws a TypeError before its first request, the entry is appended, and
    the batch goes on; every mention of a batch is either resolved as usual
    or leaves this one entry, and the results, the log and the requests of
    the batch are those of its mentions in order.  A failing request, on the
    other hand, is caught at its search term: a mention for which every
    request fails adds no result, has every term requested and logged with
    the failure, and is closed by SEARCH_FAILED.  A batch of three mentions
    whose second fails on every term therefore returns the results of the
    first and of the third, each resolved by its own requests. *)
Theorem mention_failure_never_aborts_batch :
  (forall (body : Medication -> M unit) m rest st e st1,
      body m st = (Throw e, st1) ->
      medicationLoop body (m :: rest) st
      = medicationLoop body rest (logged st1 [processingErrorEntry m e])
      /\ l_searchTerm (processingErrorEntry m e) = lit "PROCESSING_ERROR")
  /\ (forall (body : Medication -> M unit) meds st,
         exists st', medicationLoop body meds st = (Ok tt, st'))
  /\ (forall jm rest st,
         js_fullContext jm = JsOther ->
         let entry :=
           jsProcessingErrorEntry
             jm (notAFunction "medication.fullContext.toLowerCase") in
         jsMedicationLoop (jm :: rest) st
         = jsMedicationLoop rest (logged st [entry])
         /\ l_searchTerm entry = lit "PROCESSING_ERROR"
         /\ l_medication entry = js_name jm)
  /\ (forall jms w,
         exists outs st,
           searchMultipleMedicationsJson jms w
           = (Ok (flat_map jsOutcomeResults outs, jsEntries jms outs), st)
           /\ Forall2 jsOutcomeValid jms outs
           /\ calls st = flat_map jsOutcomeCalls outs
           /\ Forall answered (calls st))
  /\ (forall m st,
         failsOn (generateSearchTerms m ++ uniq (relaxedSearchTerms m)) ->
         exists st' loc,
           processMedication m st = (Ok tt, st')
           /\ results st' = results st
           /\ searchLog st'
              = searchLog st
                ++ map (fun t => searchFailedEntry m t searchError)
                       (generateSearchTerms m)
                ++ [failureEntry m loc]
           /\ calls st'
              = calls st
                ++ map (fun t => (t, Throw searchError))
                       (generateSearchTerms m ++ uniq (relaxedSearchTerms m)))
  /\ (forall m1 m2 m3 w,
         failsOn (generateSearchTerms m2 ++ uniq (relaxedSearchTerms m2)) ->
         exists run1 run3 loc st,
           searchMultipleMedications [m1; m2; m3] w
           = (Ok (runResults run1 ++ runResults run3,
                  runEntries run1
                  ++ (map (fun t => searchFailedEntry m2 t searchError)
                          (generateSearchTerms m2)
                      ++ [failureEntry m2 loc])
                  ++ runEntries run3), st)
           /\ run_mention run1 = m1 /\ runValid run1
           /\ run_mention run3 = m3 /\ runValid run3
           /\ calls st
              = runCalls run1
                ++ map (fun t => (t, Throw searchError))
                       (generateSearchTerms m2 ++ uniq (relaxedSearchTerms m2))
                ++ runCalls run3
           /\ Forall answered (calls st)).
Proof.
  split; [|split; [|split; [|split; [|split]]]].
  - intros body m rest st e st1 Hthrow. split; [|reflexivity].
    rewrite medicationLoop_cons, Hthrow. reflexivity.
  - intros body meds st. apply medicationLoop_total.
  - intros jm rest st C entry. split; [|split; reflexivity].
    rewrite jsMedicationLoop_cons. unfold processJsMedication.
    rewrite C. reflexivity.
  - intros jms w. unfold searchMultipleMedicationsJson.
    destruct (jsMedicationLoop_outcomes jms (initState w))
      as (st & outs & Hrun & Hvalid & (Hc & Hl & Hr & Ha)).
    rewrite Hrun. exists outs, st.
    cbn [initState calls searchLog results app] in Hc, Hl, Hr.
    rewrite Hr, Hl, Hc. auto.
  - intros m st Hf.
    destruct (processMedication_failing_run m st Hf)
      as (st' & loc & Hrun & (Hc & Hl & Hr & _)).
    exists st', loc. rewrite app_nil_r in Hr. auto.
  - intros m1 m2 m3 w Hf.
    unfold searchMultipleMedications.
    destruct (processMedication_spec m1 (initState w))
      as (st1 & cs1 & cs1' & c1 & Hrun1 & G1 & Hhow1).
    destruct (processMedication_failing_run m2 st1 Hf)
      as (st2 & loc & Hrun2 & G2).
    destruct (processMedication_spec m3 st2)
      as (st3 & cs3 & cs3' & c3 & Hrun3 & G3 & Hhow3).
    exists {| run_mention := m1; run_strict := cs1; run_relaxed := cs1';
              run_closing := c1 |},
      {| run_mention := m3; run_strict := cs3; run_relaxed := cs3';
         run_closing := c3 |}, loc, st3.
    rewrite medicationLoop_cons, Hrun1.
    rewrite medicationLoop_cons, Hrun2.
    rewrite medicationLoop_cons, Hrun3.
    destruct (grownBy_trans (grownBy_trans G1 G2) G3) as (Hc & Hl & Hr & Ha).
    cbn [initState calls searchLog results app] in Hc, Hl, Hr.
    cbn [medicationLoop ret].
    unfold runResults, runEntries, runCalls.
    cbn [run_mention run_strict run_relaxed run_closing].
    rewrite Hr, Hl, Hc, app_nil_r, <- !app_assoc.
    split; [reflexivity|]. repeat split; auto.
    rewrite <- !app_assoc in Ha. exact Ha.
Qed.

End BatchFailures.

(** ** The claims at concrete inputs *)

(** The search terms of a plain IR mention, through the contract. *)
Lemma generateSearchTerms_example :
  let m := mention "Metformin" "500mg" IR "Metformin 500mg twice daily" in
  exists d,
    In d (generateCombinationPermutations (toLowerCase (name m)))
    /\ In (lit "metformin ir")
          (termsFor (deliveryOf m) (formulation m)
                    (includes (toLowerCase (fullContext m)) (lit "respimat")) d)
    /\ startsWith d (lit "metformin ir") = true
    /\ (isLowerCased (lit "metformin ir")
        \/ (deliveryOf m = lit "inhaler" /\ lit "metformin ir" = d ++ lit " MDI")
        \/ (deliveryOf m = lit "handihaler"
            /\ lit "metformin ir" = d ++ lit " DPI")).
Proof.
  intros m.
  apply (proj2 (proj2 (generateSearchTerms_contract m)) (lit "metformin ir")).
  apply mem_In. vm_compute. reflexivity.
Defined.

(** An IR mention against an extended-release title, and an ER mention
    against an immediate-release title. *)
Lemma formulation_conflict_examples :
  let ir := mention "metformin" "500mg" IR "Metformin 500mg twice daily" in
  let er := mention "metformin" "500mg" ER "Metformin ER 500mg daily" in
  let erLabel :=
    toSearchResult
      (label "Metformin Hydrochloride Extended-Release Tablets" None) in
  let irLabel :=
    toSearchResult
      (label "Metformin Hydrochloride Immediate Release Tablets" None) in
  (isMatch (isAppropriateMatchWithReasons ir erLabel) = false
   /\ relaxedAccepts ir erLabel = false)
  /\ (isMatch (isAppropriateMatchWithReasons er irLabel) = false
      /\ relaxedAccepts er irLabel = false).
Proof.
  intros ir er erLabel irLabel.
  pose proof (@formulation_conflict_never_accepted pharmacy noTexts ir)
    as (RejectIR & WordER & _ & _).
  pose proof (@formulation_conflict_never_accepted pharmacy noTexts er)
    as (RejectER & _ & WordIR & _).
  split.
  - apply RejectIR. apply (WordER (lit "extended-release")).
    + unfold erTitleWords. simpl. tauto.
    + vm_compute. reflexivity.
  - apply RejectER. apply (WordIR (lit "immediate release")).
    + unfold irTitleWords. simpl. tauto.
    + vm_compute. reflexivity.
Defined.

(** C3, as stated, fails: the extended-release words of the specification
    hold long-acting, which the regular expression of the matchers does not
    have.  An IR mention is accepted, by the strict matcher and by the
    relaxed check, against a title that says long-acting, and the batch
    returns that label. *)
Lemma formulation_conflict_long_acting_accepted :
  let m :=
    mention "insulin glargine" "10 units" IR
            "insulin glargine 10 units at bedtime" in
  let r :=
    toSearchResult (label "Insulin Glargine Long-Acting Injection"
                          (Some "Sandoz"%string)) in
  In (lit "long-acting") listedErKeywords
  /\ containsWord (lit "long-acting") (title r) = true
  /\ formulation m = IR
  /\ isMatch (isAppropriateMatchWithReasons m r) = true
  /\ relaxedAccepts m r = true
  /\ exists rs log st,
      @searchMultipleMedications insulinService noTexts [m] 0
      = (Ok (rs, log), st)
      /\ map d_title rs = [lit "Insulin Glargine Long-Acting Injection"].
Proof.
  intros m r.
  split; [cbn; tauto|]. split; [reflexivity|]. split; [reflexivity|].
  split; [reflexivity|]. split; [reflexivity|].
  eexists _, _, _. split; [vm_compute; reflexivity | reflexivity].
Qed.

(** A label of an animal-health company is refused whatever else it says. *)
Lemma veterinary_candidate_example :
  let m := mention "metformin" "500mg" IR "Metformin 500mg twice daily" in
  let r :=
    toSearchResult
      (label "Metformin Hydrochloride Tablets" (Some "Zoetis Animal Health"%string)) in
  isMatch (isAppropriateMatchWithReasons m r) = false
  /\ relaxedAccepts m r = false.
Proof.
  intros m r.
  apply (proj1 (@veterinary_candidate_never_accepted pharmacy noTexts m)).
  right. vm_compute. reflexivity.
Defined.

(** The pharmacy answers a metformin query with its two labels, the one of
    the human-pharmaceutical labeler first. *)
Lemma searchMedications_example :
  let rs :=
    searchResultsOf
      [label "Metformin Hydrochloride Tablets" (Some "Zydus"%string);
       label "Metformin Hydrochloride Extended-Release Tablets"
             (Some "Teva Pharmaceuticals"%string)] in
  List.length rs <= 5
  /\ Forall (fun r => veterinaryFlagged (title r) (labeler r) = false) rs
  /\ slice0 10 rs = rs.
Proof.
  intros rs.
  destruct (proj1 (@searchMedications_candidates pharmacy)
                  (lit "metformin") (@initState pharmacy 0) rs
                  (@afterRequest pharmacy (lit "metformin")
                                 (@initState pharmacy 0))
                  eq_refl)
    as (L & V & S & _).
  auto.
Defined.

(** Scenario C of the specification: metformin, lisinopril (every request
    fails) and atorvastatin; the same batch with lisinopril given a context
    that is no string; and a body that throws for lisinopril. *)
Lemma batch_with_failing_mention :
  let m1 := mention "metformin" "500mg" IR "Metformin 500mg twice daily" in
  let m2 := mention "lisinopril" "10mg" IR "Lisinopril 10mg daily" in
  let m3 := mention "atorvastatin" "20mg" IR "Atorvastatin 20mg at night" in
  let jm2 :=
    {| js_name := lit "lisinopril"; js_dosage := lit "10mg";
       js_formulation := IR; js_deliveryMethod := Some [];
       js_fullContext := JsOther |} in
  (exists run1 run3 loc st,
      @searchMultipleMedications pharmacy noTexts [m1; m2; m3] 0
      = (Ok (@runResults noTexts run1 ++ @runResults noTexts run3,
             runEntries run1
             ++ (map (fun t => searchFailedEntry m2 t searchError)
                     (generateSearchTerms m2)
                 ++ [failureEntry m2 loc])
             ++ runEntries run3), st)
      /\ run_mention run1 = m1 /\ runValid run1
      /\ run_mention run3 = m3 /\ runValid run3
      /\ map d_title (@runResults noTexts run1 ++ @runResults noTexts run3)
         = [lit "Metformin Hydrochloride Tablets";
            lit "Atorvastatin Calcium Tablets"]
      /\ map fst (calls st)
         = [lit "metformin immediate release";
            lit "lisinopril immediate release"; lit "lisinopril ir";
            lit "lisinopril"; lit "lisinopril";
            lit "atorvastatin immediate release"])
  /\ (exists outs st,
         @searchMultipleMedicationsJson pharmacy noTexts
           [ofMedication m1; jm2; ofMedication m3] 0
         = (Ok (flat_map (@jsOutcomeResults noTexts) outs,
                jsEntries [ofMedication m1; jm2; ofMedication m3] outs), st)
         /\ Forall2 jsOutcomeValid [ofMedication m1; jm2; ofMedication m3] outs
         /\ map d_title (flat_map (@jsOutcomeResults noTexts) outs)
            = [lit "Metformin Hydrochloride Tablets";
               lit "Atorvastatin Calcium Tablets"]
         /\ map l_searchTerm
                (jsEntries [ofMedication m1; jm2; ofMedication m3] outs)
            = [lit "metformin immediate release"; lit "PROCESSING_ERROR";
               lit "atorvastatin immediate release"])
  /\ @medicationLoop pharmacy faultyBody [m2; m3] (@initState pharmacy 0)
     = @medicationLoop pharmacy faultyBody [m3]
         (@logged pharmacy (@initState pharmacy 0)
            [processingErrorEntry m2
               {| exn_name := lit "TypeError";
                  exn_message := lit "x is not a function" |}]).
Proof.
  intros m1 m2 m3 jm2.
  pose proof (@mention_failure_never_aborts_batch pharmacy noTexts)
    as (Catch & _ & _ & Json & _ & Scenario).
  split; [|split].
  - assert (Hf : @failsOn pharmacy
                   (generateSearchTerms m2 ++ uniq (relaxedSearchTerms m2))).
    { intros q Hq w. vm_compute in Hq.
      repeat (destruct Hq as [<-|Hq]; [reflexivity|]). contradiction. }
    destruct (Scenario m1 m2 m3 0 Hf)
      as (run1 & run3 & loc & st & E & R1 & V1 & R3 & V3 & Hc & _).
    assert (C : exists rs log st0,
               @searchMultipleMedications pharmacy noTexts [m1; m2; m3] 0
               = (Ok (rs, log), st0)
               /\ map d_title rs
                  = [lit "Metformin Hydrochloride Tablets";
                     lit "Atorvastatin Calcium Tablets"]
               /\ map fst (calls st0)
                  = [lit "metformin immediate release";
                     lit "lisinopril immediate release"; lit "lisinopril ir";
                     lit "lisinopril"; lit "lisinopril";
                     lit "atorvastatin immediate release"]).
    { eexists _, _, _. split; [vm_compute; reflexivity|].
      split; reflexivity. }
    destruct C as (rs & log & st0 & C & T & Q).
    rewrite E in C. injection C as <- _ <-.
    exists run1, run3, loc, st. repeat split; auto.
  - destruct (Json [ofMedication m1; jm2; ofMedication m3] 0)
      as (outs & st & E & V & _).
    assert (C : exists rs log st0,
               @searchMultipleMedicationsJson pharmacy noTexts
                 [ofMedication m1; jm2; ofMedication m3] 0
               = (Ok (rs, log), st0)
               /\ map d_title rs
                  = [lit "Metformin Hydrochloride Tablets";
                     lit "Atorvastatin Calcium Tablets"]
               /\ map l_searchTerm log
                  = [lit "metformin immediate release";
                     lit "PROCESSING_ERROR";
                     lit "atorvastatin immediate release"]).
    { eexists _, _, _. split; [vm_compute; reflexivity|].
      split; reflexivity. }
    destruct C as (rs & log & st0 & C & T & L).
    rewrite E in C. injection C as <- <- _.
    exists outs, st. repeat split; auto.
  - apply Catch. reflexivity.
Defined.

(** The same batch, computed: two results, the failed requests of the
    second mention in the log, no PROCESSING_ERROR entry. *)
Lemma batch_with_failing_mention_computed :
  let m1 := mention "metformin" "500mg" IR "Metformin 500mg twice daily" in
  let m2 := mention "lisinopril" "10mg" IR "Lisinopril 10mg daily" in
  let m3 := mention "atorvastatin" "20mg" IR "Atorvastatin 20mg at night" in
  exists rs log st,
    @searchMultipleMedications pharmacy noTexts [m1; m2; m3] 0
    = (Ok (rs, log), st)
    /\ map d_title rs
       = [lit "Metformin Hydrochloride Tablets";
          lit "Atorvastatin Calcium Tablets"]
    /\ map l_searchTerm log
       = [lit "metformin immediate release";
          lit "lisinopril immediate release"; lit "lisinopril ir";
          lit "lisinopril"; lit "SEARCH_FAILED";
          lit "atorvastatin immediate release"].
Proof.
  intros m1 m2 m3. eexists _, _, _. split; [vm_compute; reflexivity|].
  split; reflexivity.
Qed.

(** C8, as stated, fails: the two requests of the relaxed pass are made and
    leave no entry in the log. *)
Lemma search_log_omits_relaxed_attempts :
  let m :=
    mention "amlodipine/benazepril" "5/10mg" IR "amlodipine/benazepril 5/10mg" in
  exists rs log st,
    @searchMultipleMedications emptyService noTexts [m] 0 = (Ok (rs, log), st)
    /\ map fst (calls st)
       = generateSearchTerms m
         ++ [lit "amlodipine/benazepril"; lit "amlodipine"]
    /\ map l_searchTerm log = generateSearchTerms m ++ [lit "SEARCH_FAILED"]
    /\ List.length (attemptEntries log) < List.length (calls st).
Proof.
  intros m. eexists _, _, _. split; [vm_compute; reflexivity|].
  split; [reflexivity|]. split; [reflexivity|]. vm_compute. lia.
Qed.

(** ** The dosage-availability correction *)

(** C2: the code breaks the claim.  [validateDosageAvailability] answers ER
    for a medication that requested IR when the only label holding one of its
    dosage strings is an extended-release one, against its own comment
    ("prefer IR, only use ER if explicitly requested AND available").  In
    [/api/generate-games] the label at index [i] need not belong to the
    medication at index [i]: here warfarin, extracted as IR from a context
    without any extended-release cue and not found by the service, is paired
    with the label found for metformin ER and leaves the loop as ER. *)
Theorem dosage_logic_turns_IR_into_ER :
  let warfarin := finalizeMedication rawWarfarin in
  let erLabel :=
    @detailsOf noTexts (finalizeMedication rawMetforminER)
      (toSearchResult
         (label "Metformin Hydrochloride Extended-Release Tablets 500 mg"
                (Some "Teva Pharmaceuticals"%string))) in
  formulation warfarin = IR
  /\ isExplicitlyER (fullContext warfarin) = false
  /\ validateDosageAvailability warfarin [erLabel]
     = {| v_formulation := ER;
          v_reasoning := lit "only ER formulation available" |}
  /\ generateGamesFormulations strengthService 0 [rawWarfarin; rawMetforminER]
     = [(lit "warfarin", ER); (lit "metformin", ER)].
Proof. vm_compute. auto. Qed.

(** With the label that was resolved for the same medication, the loop
    leaves an IR medication as IR: the matchers took no label whose title
    matches the extended-release indicators. *)
Lemma dosage_logic_keeps_IR_on_own_label (med : Medication)
      (result : DailyMedDetails) :
  formulation med = IR ->
  formulationConflict IR (d_title result) = false ->
  v_formulation (validateDosageAvailability med [result]) = IR.
Proof.
  intros Hf Hc. unfold validateDosageAvailability. rewrite Hf. simpl.
  unfold noteAvailable. unfold formulationConflict in Hc. rewrite Hc. simpl.
  destruct (existsb _ _); simpl; rewrite ?orb_true_r; reflexivity.
Qed.

(** * Part III: further properties of the code *)

(** ** Dosage strings *)

Lemma spanDigits_split (s : str) :
  s = fst (spanDigits s) ++ snd (spanDigits s)
  /\ forallb isDigit (fst (spanDigits s)) = true.
Proof.
  induction s as [|c s [IH1 IH2]]; simpl; [auto|].
  destruct (isDigit c) eqn:Hc; simpl; [|auto].
  destruct (spanDigits s) as [ds r]. simpl in *. rewrite Hc, IH2.
  split; [congruence | reflexivity].
Qed.

Lemma spanDigits_head (s : str) :
  startsWithDigit s = false -> spanDigits s = ([], s).
Proof.
  destruct s as [|c s]; simpl; [reflexivity|]. intros ->. reflexivity.
Qed.

Lemma spanDigits_nonempty (s : str) (c : ascii) (ds r : str) :
  spanDigits s = (c :: ds, r) -> isDigit c = true.
Proof.
  pose proof (spanDigits_split s) as [_ F]. intros E. rewrite E in F.
  simpl in F. apply andb_true_iff in F. tauto.
Qed.

Lemma numberAt_digit (s m r : str) :
  numberAt s = Some (m, r) -> startsWithDigit m = true.
Proof.
  unfold numberAt. destruct (spanDigits s) as [[|c ds] r0] eqn:E;
    [discriminate|].
  apply spanDigits_nonempty in E.
  destruct r0 as [|d r1].
  - intros X; injection X as <- _. exact E.
  - destruct (Ascii.eqb d "."%char).
    + destruct (spanDigits r1) as [[|f fs] r2];
        intros X; injection X as <- _; exact E.
    + intros X; injection X as <- _. exact E.
Qed.

Lemma numberAt_none (s : str) :
  startsWithDigit s = false -> numberAt s = None.
Proof. intros Hs. unfold numberAt. rewrite spanDigits_head; auto. Qed.

Lemma hasDigit_head (s : str) : hasDigit s = false -> startsWithDigit s = false.
Proof.
  destruct s as [|c s]; simpl; [reflexivity|].
  intros Hd. apply orb_false_iff in Hd. tauto.
Qed.

Lemma matchNumbers_digits (s : str) :
  forall skip,
    Forall (fun m => startsWithDigit m = true) (matchNumbers skip s).
Proof.
  induction s as [|c s IH]; intros skip; simpl; [constructor|].
  destruct skip as [|k]; [|apply IH].
  destruct (numberAt (c :: s)) as [[m r]|] eqn:E; [|apply IH].
  constructor; [eapply numberAt_digit, E | apply IH].
Qed.

Lemma matchNumbers_no_digit (s : str) :
  hasDigit s = false -> forall skip, matchNumbers skip s = [].
Proof.
  induction s as [|c s IH]; intros Hd skip; simpl; [reflexivity|].
  assert (Hs : hasDigit s = false).
  { simpl in Hd. apply orb_false_iff in Hd. tauto. }
  destruct skip as [|k]; [|apply IH, Hs].
  rewrite numberAt_none by (apply hasDigit_head, Hd). apply IH, Hs.
Qed.

Lemma matchCombination_digit (s a b : str) :
  matchCombination s = Some (a, b) -> startsWithDigit a = true.
Proof.
  induction s as [|c s IH]; simpl.
  - discriminate.
  - destruct (numberAt (c :: s)) as [[a0 [|d r]]|] eqn:E; try apply IH.
    destruct (Ascii.eqb d "/"%char); [|apply IH].
    destruct (numberAt r) as [[b0 r']|]; [|apply IH].
    intros X; injection X as <- _. eapply numberAt_digit, E.
Qed.

Lemma matchCombination_no_digit (s : str) :
  hasDigit s = false -> matchCombination s = None.
Proof.
  induction s as [|c s IH]; intros Hd; simpl; [reflexivity|].
  rewrite numberAt_none by (apply hasDigit_head, Hd).
  apply IH. simpl in Hd. apply orb_false_iff in Hd. tauto.
Qed.

Lemma startsWithDigit_app (m x : str) :
  startsWithDigit m = true -> startsWithDigit (m ++ x) = true.
Proof. destruct m; simpl; [discriminate | auto]. Qed.

Lemma extractDosageNumbers_digits (dosage : str) :
  Forall (fun p => startsWithDigit p = true) (extractDosageNumbers dosage).
Proof.
  unfold extractDosageNumbers.
  apply Forall_uniq.
  assert (F : Forall (fun p => startsWithDigit p = true)
                     (flat_map (fun m => [m ++ lit "mg"; m ++ lit " mg"; m])
                               (matchNumbers 0 dosage))).
  { apply Forall_flat_map.
    eapply Forall_impl; [|apply matchNumbers_digits].
    intros m Hm. repeat constructor; auto using startsWithDigit_app. }
  destruct (matchCombination dosage) as [[a b]|] eqn:E; [|exact F].
  apply matchCombination_digit in E.
  apply Forall_app. split; [exact F|].
  repeat constructor; apply startsWithDigit_app, E.
Qed.

(** X1.  Every string [extractDosageNumbers] returns begins with a digit,
    and no string is returned twice. *)
Theorem extractDosageNumbers_patterns (dosage : str) :
  Forall (fun p => startsWithDigit p = true) (extractDosageNumbers dosage)
  /\ NoDup (extractDosageNumbers dosage).
Proof.
  split; [apply extractDosageNumbers_digits|].
  unfold extractDosageNumbers. apply uniq_NoDup.
Qed.

(** X2.  A dosage without any digit ("as needed", the empty string) gives
    no dosage string at all. *)
Theorem extractDosageNumbers_no_digit (dosage : str) :
  hasDigit dosage = false -> extractDosageNumbers dosage = [].
Proof.
  intros Hd. unfold extractDosageNumbers.
  rewrite matchNumbers_no_digit, matchCombination_no_digit by exact Hd.
  reflexivity.
Qed.

Lemma extractDosageNumbers_no_digit_example :
  extractDosageNumbers (lit "one tablet as needed") = [].
Proof. apply extractDosageNumbers_no_digit. reflexivity. Defined.

(** ** The decision of [validateDosageAvailability] *)

Lemma fold_noteAvailable (ps : list str) (rs : list DailyMedDetails) :
  forall av,
    fold_left (noteAvailable ps) rs av
    = {| availIR :=
           availIR av
           || existsb (fun r => dosageOnLabel ps r
                                && negb (extendedReleaseLabel r)) rs;
         availER :=
           availER av
           || existsb (fun r => dosageOnLabel ps r
                                && extendedReleaseLabel r) rs |}.
Proof.
  induction rs as [|r rs IH]; intros [ir er]; simpl.
  - rewrite !orb_false_r. reflexivity.
  - rewrite IH. unfold noteAvailable, dosageOnLabel, extendedReleaseLabel.
    destruct (existsb _ ps); simpl; [|reflexivity].
    destruct (regexTest erIndicators _); simpl.
    + rewrite orb_true_r. reflexivity.
    + rewrite orb_true_r. simpl. rewrite orb_true_r. reflexivity.
Qed.

(** X3.  [validateDosageAvailability] answers ER exactly when some label
    carries one of the dosage strings in an extended-release title and, in
    addition, ER was requested or no label carries a dosage string in a title
    that is not extended release.  In every other case it answers IR. *)
Theorem validateDosageAvailability_decision
        (medication : Medication) (searchResults : list DailyMedDetails) :
  let ps := extractDosageNumbers (dosage medication) in
  let er := existsb (fun r => dosageOnLabel ps r && extendedReleaseLabel r)
                    searchResults in
  let ir := existsb (fun r => dosageOnLabel ps r
                              && negb (extendedReleaseLabel r))
                    searchResults in
  v_formulation (validateDosageAvailability medication searchResults)
  = if er && (Formulation_eqb (formulation medication) ER || negb ir)
    then ER else IR.
Proof.
  intros ps er ir. unfold validateDosageAvailability.
  fold ps. rewrite fold_noteAvailable. simpl. fold er ir.
  destruct (formulation medication), er, ir; reflexivity.
Qed.

Lemma includes_digit (s p : str) :
  startsWithDigit p = true -> includes s p = true -> hasDigit s = true.
Proof.
  intros Hp. induction s as [|c s IH]; simpl.
  - destruct p; [discriminate | simpl; discriminate].
  - intros Hi. apply orb_true_iff in Hi. apply orb_true_iff.
    destruct Hi as [Hi|Hi]; [|right; apply IH, Hi].
    left. destruct p as [|d p]; [discriminate|]. simpl in Hi, Hp.
    apply andb_true_iff in Hi. destruct Hi as [Hi _].
    apply Ascii.eqb_eq in Hi. subst d. exact Hp.
Qed.

Lemma isDigit_lowerChar (c : ascii) : isDigit (lowerChar c) = isDigit c.
Proof.
  destruct c as [b0 b1 b2 b3 b4 b5 b6 b7];
    destruct b0, b1, b2, b3, b4, b5, b6, b7; reflexivity.
Qed.

Lemma hasDigit_toLowerCase (s : str) : hasDigit (toLowerCase s) = hasDigit s.
Proof.
  unfold hasDigit, toLowerCase.
  induction s as [|c s IH]; simpl; [reflexivity|].
  rewrite isDigit_lowerChar, IH. reflexivity.
Qed.

Lemma dosageOnLabel_digit (dosage : str) (r : DailyMedDetails) :
  hasDigit (d_title r) = false ->
  dosageOnLabel (extractDosageNumbers dosage) r = false.
Proof.
  intros Hd. unfold dosageOnLabel.
  destruct (existsb _ _) eqn:E; [|reflexivity].
  apply existsb_exists in E. destruct E as (p & Hp & Hi).
  pose proof (extractDosageNumbers_digits dosage) as F.
  rewrite Forall_forall in F.
  apply (includes_digit _ _ (F p Hp)) in Hi.
  rewrite hasDigit_toLowerCase in Hi. congruence.
Qed.

Lemma spanDigits_app (ds rest : str) :
  forallb isDigit ds = true -> startsWithDigit rest = false ->
  spanDigits (ds ++ rest) = (ds, rest).
Proof.
  intros Hd Hr. induction ds as [|c ds IH]; simpl.
  - apply spanDigits_head, Hr.
  - simpl in Hd. apply andb_true_iff in Hd. destruct Hd as [Hc Hd].
    rewrite Hc, (IH Hd). reflexivity.
Qed.

(** X4.  A dosage that begins with a whole number ("500mg", "10 mg twice
    daily") yields that number alone and with "mg" and " mg" appended. *)
Theorem extractDosageNumbers_leading_number (ds rest : str) :
  ds <> [] -> forallb isDigit ds = true ->
  startsWithDigit rest = false -> startsWith (lit ".") rest = false ->
  incl [ds ++ lit "mg"; ds ++ lit " mg"; ds]
       (extractDosageNumbers (ds ++ rest)).
Proof.
  intros Hne Hd Hr Hdot.
  assert (Hnum : numberAt (ds ++ rest) = Some (ds, rest)).
  { unfold numberAt. rewrite (spanDigits_app _ _ Hd Hr).
    destruct ds as [|c ds]; [congruence|].
    destruct rest as [|d rest]; [reflexivity|].
    unfold lit in Hdot. cbn [list_ascii_of_string startsWith] in Hdot.
    rewrite andb_true_r in Hdot.
    rewrite Ascii.eqb_sym, Hdot. reflexivity. }
  unfold extractDosageNumbers.
  assert (Hin : In ds (matchNumbers 0 (ds ++ rest))).
  { destruct ds as [|c ds]; [congruence|].
    change ((c :: ds) ++ rest) with (c :: (ds ++ rest)) in *.
    simpl. simpl in Hnum. rewrite Hnum. left. reflexivity. }
  intros x Hx. apply uniq_In.
  destruct (matchCombination (ds ++ rest)) as [[a b]|];
    [apply in_or_app; left|];
    apply in_flat_map; exists ds; (split; [exact Hin | exact Hx]).
Qed.

Lemma extractDosageNumbers_leading_number_example :
  incl [lit "500mg"; lit "500 mg"; lit "500"]
       (extractDosageNumbers (lit "500mg twice daily")).
Proof.
  apply (@extractDosageNumbers_leading_number (lit "500")
                                              (lit "mg twice daily"));
    [discriminate | reflexivity | reflexivity | reflexivity].
Defined.

Lemma validateDosageAvailability_nothing_found
      (medication : Medication) (searchResults : list DailyMedDetails) :
  (forall r, In r searchResults ->
             dosageOnLabel (extractDosageNumbers (dosage medication)) r = false) ->
  validateDosageAvailability medication searchResults
  = {| v_formulation := IR;
       v_reasoning := lit "no specific dosage found, defaulting to IR" |}.
Proof.
  intros Hno. unfold validateDosageAvailability.
  rewrite fold_noteAvailable.
  assert (E : forall g : DailyMedDetails -> bool,
             existsb (fun r => dosageOnLabel
                                 (extractDosageNumbers (dosage medication)) r
                               && g r) searchResults = false).
  { intros g. induction searchResults as [|r rs IH]; simpl; [reflexivity|].
    rewrite (Hno r (or_introl eq_refl)). simpl. apply IH.
    intros r' Hr'. apply Hno. right. exact Hr'. }
  rewrite (E (fun r => negb (extendedReleaseLabel r))), (E extendedReleaseLabel).
  simpl. rewrite !andb_false_r. reflexivity.
Qed.

(** X5.  When the dosage holds no digit, or no label title holds a digit,
    or no label title holds one of the dosage strings (in particular when
    there is no label), [validateDosageAvailability] answers IR with the
    reason "no specific dosage found, defaulting to IR", whatever formulation
    was requested: an explicit ER request is not kept. *)
Theorem validateDosageAvailability_without_strength
        (medication : Medication) (searchResults : list DailyMedDetails) :
  hasDigit (dosage medication) = false
  \/ (forall r, In r searchResults -> hasDigit (d_title r) = false)
  \/ (forall r, In r searchResults ->
                dosageOnLabel (extractDosageNumbers (dosage medication)) r
                = false) ->
  validateDosageAvailability medication searchResults
  = {| v_formulation := IR;
       v_reasoning := lit "no specific dosage found, defaulting to IR" |}.
Proof.
  intros [Hd|[Ht|Hno]]; apply validateDosageAvailability_nothing_found.
  - intros r _. rewrite (extractDosageNumbers_no_digit _ Hd). reflexivity.
  - intros r Hr. apply dosageOnLabel_digit, Ht, Hr.
  - exact Hno.
Qed.

(** An explicit ER medication against its own extended-release label, whose
    title does not print the strength. *)
Lemma validateDosageAvailability_without_strength_example :
  validateDosageAvailability
    (finalizeMedication rawMetforminER)
    [@detailsOf noTexts (finalizeMedication rawMetforminER)
       (toSearchResult
          (label "Metformin Hydrochloride Extended-Release Tablets" None))]
  = {| v_formulation := IR;
       v_reasoning := lit "no specific dosage found, defaulting to IR" |}.
Proof.
  apply validateDosageAvailability_without_strength.
  right. left. intros r [<-|[]]. reflexivity.
Defined.

(** ** The dosage loop of the route *)

Lemma applyDosageLogicAt_fields (rs : list DailyMedDetails) (i : nat)
      (med : Medication) :
  let med' := applyDosageLogicAt rs i med in
  name med' = name med /\ dosage med' = dosage med
  /\ deliveryMethod med' = deliveryMethod med
  /\ fullContext med' = fullContext med
  /\ (List.length rs <= i \/ dosage med = [] -> med' = med).
Proof.
  unfold applyDosageLogicAt.
  destruct (nth_error rs i) as [r|] eqn:E.
  - destruct (truthy (dosage med)) eqn:T.
    + destruct (negb _); simpl; repeat split; auto.
      all: intros [L|D];
        [apply nth_error_None in L; congruence
        | rewrite D in T; discriminate].
    + repeat split; auto.
  - repeat split; auto.
Qed.

(** X6.  The dosage loop changes nothing but formulations: it returns as
    many medications as it was given, each with the name, dosage, delivery
    method and context it had; a medication without dosage, or at an index
    beyond the last result, is returned as it was. *)
Theorem applyDosageLogic_fields (meds : list Medication)
        (dailyMedResults : list DailyMedDetails) :
  let meds' := applyDosageLogic meds dailyMedResults in
  List.length meds' = List.length meds
  /\ map name meds' = map name meds
  /\ map dosage meds' = map dosage meds
  /\ map deliveryMethod meds' = map deliveryMethod meds
  /\ map fullContext meds' = map fullContext meds
  /\ (forall i med,
         nth_error meds i = Some med ->
         List.length dailyMedResults <= i \/ dosage med = [] ->
         nth_error meds' i = Some med).
Proof.
  unfold applyDosageLogic.
  assert (G : forall k,
             let meds' := applyDosageLogicFrom dailyMedResults k meds in
             List.length meds' = List.length meds
             /\ map name meds' = map name meds
             /\ map dosage meds' = map dosage meds
             /\ map deliveryMethod meds' = map deliveryMethod meds
             /\ map fullContext meds' = map fullContext meds
             /\ (forall i med,
                    nth_error meds i = Some med ->
                    List.length dailyMedResults <= k + i \/ dosage med = [] ->
                    nth_error meds' i = Some med)).
  { induction meds as [|m meds IH]; intros k; simpl.
    - repeat split; auto.
    - destruct (IH (S k)) as (L & N & D & V & C & U).
      destruct (applyDosageLogicAt_fields dailyMedResults k m)
        as (N0 & D0 & V0 & C0 & U0).
      repeat split; try congruence.
      intros [|i] med Hn Hc; simpl in *.
      + injection Hn as <-. f_equal. apply U0.
        destruct Hc as [Hc|Hc]; [left; lia | right; exact Hc].
      + apply U; [exact Hn|].
        destruct Hc as [Hc|Hc]; [left; lia | right; exact Hc]. }
  exact (G 0).
Qed.

Lemma applyDosageLogic_fields_example :
  let med := mention "metformin" "500mg" ER "metformin ER 500mg daily" in
  nth_error [med] 0 = Some med
  /\ (List.length (@nil DailyMedDetails) <= 0 \/ dosage med = [])
  /\ nth_error (applyDosageLogic [med] []) 0 = Some med.
Proof.
  intros med.
  assert (H0 : nth_error [med] 0 = Some med) by reflexivity.
  assert (H1 : List.length (@nil DailyMedDetails) <= 0 \/ dosage med = [])
    by (left; simpl; lia).
  split; [exact H0|]. split; [exact H1|].
  destruct (applyDosageLogic_fields [med] []) as (_ & _ & _ & _ & _ & U).
  exact (U 0 med H0 H1).
Defined.

(** ** How many search terms, how many requests *)

Lemma keepFirst_length (l : list str) :
  List.length (keepFirst l) <= List.length l.
Proof.
  induction l as [|x l IH]; simpl; [lia|].
  pose proof (filter_length_le (fun y => negb (str_eqb y x)) (keepFirst l)).
  lia.
Qed.

Lemma uniq_length (l : list str) : List.length (uniq l) <= List.length l.
Proof. rewrite uniq_keepFirst. apply keepFirst_length. Qed.

Lemma pushedPermutations_length (drugName : str) :
  List.length (pushedPermutations drugName) <= 15.
Proof.
  unfold pushedPermutations.
  destruct (includes drugName (lit "/"));
    destruct (includes drugName (lit " and ") || includes drugName (lit " & "));
    repeat match goal with
           | |- context [match map trim (split ?sep drugName) with _ => _ end] =>
               destruct (map trim (split sep drugName)) as [|? [|? [|? ?]]]
           end;
    simpl; lia.
Qed.

Lemma termsFor_length (delivery : str) (f : Formulation) (respimat : bool)
      (d : str) :
  List.length (termsFor delivery f respimat d) <= 16.
Proof.
  unfold termsFor.
  destruct (str_eqb delivery (lit "inhaler")) eqn:Ei;
    destruct (str_eqb delivery (lit "handihaler")) eqn:Eh.
  - apply str_eqb_eq in Ei. apply str_eqb_eq in Eh.
    rewrite Ei in Eh. discriminate.
  - destruct (truthy delivery), f, respimat; simpl; lia.
  - destruct (truthy delivery), f, respimat; simpl; lia.
  - destruct (truthy delivery), f, respimat; simpl; lia.
Qed.

Lemma flat_map_length_le {A B} (f : A -> list B) (n : nat) (l : list A) :
  (forall x, List.length (f x) <= n) ->
  List.length (flat_map f l) <= n * List.length l.
Proof.
  intros Hf. induction l as [|x l IH]; simpl; [lia|].
  rewrite length_app. specialize (Hf x). lia.
Qed.

Lemma generateSearchTerms_length (m : Medication) :
  List.length (generateSearchTerms m) <= 240.
Proof.
  unfold generateSearchTerms, rawSearchTerms.
  eapply Nat.le_trans; [apply uniq_length|].
  eapply Nat.le_trans;
    [apply flat_map_length_le with (n := 16); intros d;
     apply termsFor_length|].
  unfold generateCombinationPermutations.
  pose proof (uniq_length (pushedPermutations (toLowerCase (name m)))).
  pose proof (pushedPermutations_length (toLowerCase (name m))).
  lia.
Qed.

Lemma bare_name_searched (m : Medication) :
  In (toLowerCase (name m)) (generateSearchTerms m).
Proof.
  unfold generateSearchTerms, rawSearchTerms. apply uniq_In.
  apply in_flat_map. exists (toLowerCase (name m)). split.
  - unfold generateCombinationPermutations. apply uniq_In.
    destruct (pushedPermutations_head (toLowerCase (name m))) as [rest ->].
    left. reflexivity.
  - unfold termsFor. repeat (apply in_or_app; right). left. reflexivity.
Qed.

(** X7.  Every mention has at least one and at most 240 search terms, and
    the lower-cased name by itself is always one of them; it is also the
    first term of the relaxed pass, which has at most three terms. *)
Theorem search_term_bounds (m : Medication) :
  In (toLowerCase (name m)) (generateSearchTerms m)
  /\ 1 <= List.length (generateSearchTerms m) <= 240
  /\ (exists rest,
         uniq (relaxedSearchTerms m) = toLowerCase (name m) :: rest
         /\ List.length rest <= 2).
Proof.
  split; [apply bare_name_searched|]. split.
  - split; [|apply generateSearchTerms_length].
    pose proof (bare_name_searched m) as Hin.
    destruct (generateSearchTerms m); [contradiction | simpl; lia].
  - unfold relaxedSearchTerms.
    destruct (uniq_head (toLowerCase (name m))
                [hd [] (split (lit "/") (toLowerCase (name m)));
                 hd [] (split (lit "-") (toLowerCase (name m)))])
      as [rest E].
    exists rest. split; [exact E|].
    pose proof (uniq_length
                  [toLowerCase (name m);
                   hd [] (split (lit "/") (toLowerCase (name m)));
                   hd [] (split (lit "-") (toLowerCase (name m)))]) as L.
    rewrite E in L. simpl in L. lia.
Qed.

(** ** A batch, mention by mention *)

Lemma countTerm_app (t : str) (a b : list LogEntry) :
  countTerm t (a ++ b) = countTerm t a + countTerm t b.
Proof. unfold countTerm. rewrite filter_app, length_app. reflexivity. Qed.

Lemma marker_shape (t : str) :
  isMarker t -> ~ isLowerCased t /\ ~ In " "%char t.
Proof.
  intros [->| ->]; split; try (unfold isLowerCased; simpl; discriminate);
    simpl; intuition discriminate.
Qed.

(** No search term is one of the two closing markers. *)
Lemma search_term_not_marker (m : Medication) (t : str) :
  In t (generateSearchTerms m) -> ~ isMarker t.
Proof.
  intros Hin Hm. apply marker_shape in Hm. destruct Hm as [Hlow Hsp].
  apply (proj1 (uniq_In _ _)) in Hin. unfold rawSearchTerms in Hin.
  apply in_flat_map in Hin. destruct Hin as (d & Hd & Ht).
  assert (Ln : isLowerCased d).
  { pose proof (isLowerCased_permutations
                  (isLowerCased_toLowerCase (name m))) as F.
    rewrite Forall_forall in F. apply F, Hd. }
  destruct (termsFor_case _ _ _ (isLowerCased_deliveryOf m) Ln Ht)
    as [L|[[_ ->]|[_ ->]]].
  - contradiction.
  - apply Hsp. apply in_or_app. right. left. reflexivity.
  - apply Hsp. apply in_or_app. right. left. reflexivity.
Qed.

Lemma countTerm_zero (t : str) (log : list LogEntry) :
  (forall e, In e log -> l_searchTerm e <> t) -> countTerm t log = 0.
Proof.
  intros Hno. unfold countTerm.
  induction log as [|e log IH]; simpl; [reflexivity|].
  destruct (str_eqb (l_searchTerm e) t) eqn:E.
  - apply str_eqb_eq in E. exfalso. apply (Hno e); auto. left. reflexivity.
  - apply IH. intros e' He'. apply Hno. right. exact He'.
Qed.

Lemma searchedUntil_terms pick terms cs best :
  searchedUntil pick terms cs best ->
  (forall c, In c cs -> In (fst c) terms)
  /\ List.length cs <= List.length terms
  /\ (terms <> [] -> cs <> []).
Proof.
  intros Hu.
  assert (P : exists post, terms = map fst cs ++ post).
  { destruct best as [[t r]|]; simpl in Hu.
    - destruct Hu as (pre & resp & post & -> & -> & _). exists post.
      rewrite map_app, <- app_assoc. reflexivity.
    - destruct Hu as [<- _]. exists []. rewrite app_nil_r. reflexivity. }
  destruct P as [post E]. split; [|split].
  - intros c Hc. rewrite E. apply in_or_app. left. apply in_map, Hc.
  - rewrite E, length_app, length_map. lia.
  - intros Hne ->. destruct best as [[t r]|]; simpl in Hu.
    + destruct Hu as (pre & resp & post' & Epre & _).
      destruct pre; discriminate.
    + destruct Hu as [Et _]. simpl in Et. congruence.
Qed.

Lemma runValid_strict (r : MentionRun) :
  runValid r ->
  exists best,
    searchedUntil (strictPick (run_mention r))
                  (generateSearchTerms (run_mention r)) (run_strict r) best.
Proof.
  unfold runValid, resolution. destruct (run_closing r).
  - intros [[t Hu] _]. eauto.
  - intros [Hu _]. eauto.
  - intros [Hu _]. eauto.
Qed.

Lemma runValid_relaxed (r : MentionRun) :
  runValid r -> List.length (run_relaxed r) <= 3.
Proof.
  unfold runValid, resolution.
  assert (L : List.length (uniq (relaxedSearchTerms (run_mention r))) <= 3).
  { eapply Nat.le_trans; [apply uniq_length | simpl; lia]. }
  destruct (run_closing r).
  - intros [_ ->]. simpl. lia.
  - intros [_ Hu]. apply searchedUntil_terms in Hu. lia.
  - intros [_ Hu]. apply searchedUntil_terms in Hu. lia.
Qed.

Lemma runCalls_length (r : MentionRun) :
  runValid r -> 1 <= List.length (runCalls r) <= 243.
Proof.
  intros Hv. unfold runCalls. rewrite length_app.
  pose proof (@runValid_relaxed r Hv) as L2.
  destruct (@runValid_strict r Hv) as [best Hu].
  apply searchedUntil_terms in Hu. destruct Hu as (_ & L1 & Hne).
  pose proof (generateSearchTerms_length (run_mention r)) as L.
  assert (N : run_strict r <> []).
  { apply Hne. intros E. pose proof (bare_name_searched (run_mention r)) as B.
    rewrite E in B. contradiction. }
  destruct (run_strict r); [congruence | simpl in *; lia].
Qed.

Section BatchAccounting.

Context `{Collaborator} `{ReferenceTexts}.

Lemma strictEntries_no_marker (r : MentionRun) (t : str) :
  runValid r -> isMarker t ->
  countTerm t (map (strictEntry (run_mention r)) (run_strict r)) = 0.
Proof.
  intros Hv Hm. apply countTerm_zero. intros e He E.
  apply in_map_iff in He. destruct He as (c & <- & Hc).
  destruct (@runValid_strict r Hv) as [best Hu].
  apply searchedUntil_terms in Hu. destruct Hu as (Hin & _).
  apply (@search_term_not_marker (run_mention r) (fst c)); [apply Hin, Hc|].
  rewrite <- E in Hm. destruct c as [q [rs|e]]; exact Hm.
Qed.

(** One mention: one result, or one SEARCH_FAILED entry, and never a
    PROCESSING_ERROR entry. *)
Lemma run_accounting (r : MentionRun) :
  runValid r ->
  List.length (runResults r) + countTerm (lit "SEARCH_FAILED") (runEntries r) = 1
  /\ countTerm (lit "PROCESSING_ERROR") (runEntries r) = 0.
Proof.
  intros Hv. unfold runEntries, runResults. rewrite !countTerm_app.
  rewrite !strictEntries_no_marker by (auto; unfold isMarker; auto).
  destruct (run_closing r) as [x|t x|loc]; [simpl; auto| |simpl; auto].
  rewrite !countTerm_zero; [simpl; auto| |];
    intros e [<-|[]] E;
    (assert (Hm : isMarker (t ++ lit " (relaxed)"))
      by (change (isMarker (l_searchTerm
                              (relaxedLogEntry (run_mention r) t x)));
          rewrite E; unfold isMarker; auto));
    apply marker_shape in Hm; destruct Hm as [_ Hsp];
    apply Hsp, in_or_app; right; left; reflexivity.
Qed.

(** X8.  The results, the log and the requests of a batch are those of its
    mentions one after the other, in the order of the input: a mention with
    no result leaves no gap, so the position of a result is the number of
    resolved mentions before it, not the index of its mention. *)
Theorem batch_in_mention_order (meds : list Medication) (w : World) :
  exists runs st,
    searchMultipleMedications meds w
    = (Ok (flat_map runResults runs, flat_map runEntries runs), st)
    /\ map run_mention runs = meds
    /\ Forall runValid runs
    /\ calls st = flat_map runCalls runs.
Proof.
  unfold searchMultipleMedications.
  destruct (medicationLoop_runs meds (initState w))
    as (st & runs & Hrun & Hmeds & Hvalid & (Hc & Hl & Hr & _)).
  rewrite Hrun. exists runs, st. simpl in Hc, Hl, Hr.
  rewrite Hr, Hl. auto.
Qed.

Lemma runs_accounting (runs : list MentionRun) :
  Forall runValid runs ->
  List.length (flat_map runResults runs)
  + countTerm (lit "SEARCH_FAILED") (flat_map runEntries runs)
  = List.length runs
  /\ countTerm (lit "PROCESSING_ERROR") (flat_map runEntries runs) = 0
  /\ List.length runs <= List.length (flat_map runCalls runs)
     <= 243 * List.length runs.
Proof.
  induction 1 as [|r runs Hr _ (IH1 & IH2 & IH3)]; cbn [flat_map List.length].
  - repeat split; auto; lia.
  - rewrite !length_app, !countTerm_app.
    destruct (@run_accounting r Hr) as [A1 A2].
    pose proof (@runCalls_length r Hr).
    repeat split; lia.
Qed.

Lemma jsOutcome_accounting (jm : JsMedication) (o : option MentionRun) :
  jsOutcomeValid jm o ->
  List.length (jsOutcomeResults o)
  + countTerm (lit "SEARCH_FAILED") (jsOutcomeEntries jm o)
  + countTerm (lit "PROCESSING_ERROR") (jsOutcomeEntries jm o) = 1
  /\ countTerm (lit "PROCESSING_ERROR") (jsOutcomeEntries jm o)
     = if isFaulty jm then 1 else 0.
Proof.
  unfold isFaulty. destruct o as [run|]; cbn [jsOutcomeValid].
  - intros (C & _ & Hv). rewrite C.
    cbn [jsOutcomeResults jsOutcomeEntries].
    pose proof Hv as Hacc. apply run_accounting in Hacc.
    destruct Hacc as [A1 A2]. rewrite A2. lia.
  - intros C. rewrite C. cbn [jsOutcomeResults jsOutcomeEntries].
    split; reflexivity.
Qed.

Lemma jsOutcomes_accounting (jms : list JsMedication)
      (outs : list (option MentionRun)) :
  Forall2 jsOutcomeValid jms outs ->
  List.length (flat_map jsOutcomeResults outs)
  + countTerm (lit "SEARCH_FAILED") (jsEntries jms outs)
  + countTerm (lit "PROCESSING_ERROR") (jsEntries jms outs)
  = List.length jms
  /\ countTerm (lit "PROCESSING_ERROR") (jsEntries jms outs)
     = List.length (filter isFaulty jms).
Proof.
  unfold jsEntries.
  induction 1 as [|jm o jms outs Hv _ (IH1 & IH2)];
    cbn [flat_map combine List.length filter fst snd]; [auto|].
  rewrite length_app, !countTerm_app.
  pose proof Hv as Hacc. apply jsOutcome_accounting in Hacc.
  destruct Hacc as [A1 A2].
  split; [lia|]. rewrite A2, IH2.
  destruct (isFaulty jm); reflexivity.
Qed.

(** X9.  Every mention of a batch leaves exactly one of three traces: a
    result, a SEARCH_FAILED entry, or a PROCESSING_ERROR entry; the last
    one exactly when its context is no string.  So the number of results and
    the number of failed medications the routes count add up to the number
    of mentions. *)
Theorem batch_accounting (jms : list JsMedication) (w : World) :
  exists rs log st,
    searchMultipleMedicationsJson jms w = (Ok (rs, log), st)
    /\ List.length rs + countTerm (lit "SEARCH_FAILED") log
       + countTerm (lit "PROCESSING_ERROR") log
       = List.length jms
    /\ countTerm (lit "PROCESSING_ERROR") log
       = List.length (filter isFaulty jms).
Proof.
  unfold searchMultipleMedicationsJson.
  destruct (jsMedicationLoop_outcomes jms (initState w))
    as (st & outs & Hrun & Hvalid & (_ & Hl & Hr & _)).
  rewrite Hrun. exists (results st), (searchLog st), st.
  split; [reflexivity|].
  cbn [initState searchLog results app] in Hl, Hr. rewrite Hl, Hr.
  apply jsOutcomes_accounting, Hvalid.
Qed.

(** X10.  A batch makes at least one request for every mention and at most
    243 (240 search terms and three relaxed terms). *)
Theorem batch_request_bound (meds : list Medication) (w : World) :
  exists rs log st,
    searchMultipleMedications meds w = (Ok (rs, log), st)
    /\ List.length meds <= List.length (calls st) <= 243 * List.length meds.
Proof.
  unfold searchMultipleMedications.
  destruct (medicationLoop_runs meds (initState w))
    as (st & runs & Hrun & Hmeds & Hvalid & (Hc & _ & _ & _)).
  rewrite Hrun. exists (results st), (searchLog st), st.
  split; [reflexivity|]. simpl in Hc. rewrite Hc.
  destruct (@runs_accounting runs Hvalid) as (_ & _ & A3).
  rewrite <- Hmeds, length_map. exact A3.
Qed.

End BatchAccounting.

(** ** The relaxed check against the strict one *)

Lemma split_without_separator (sep s : str) :
  includes s sep = false -> forall cur, split_go sep 0 cur s = [cur ++ s].
Proof.
  induction s as [|c s IH]; intros Hi cur; simpl.
  - rewrite app_nil_r. reflexivity.
  - simpl in Hi. apply orb_false_iff in Hi. destruct Hi as [Hs Hi].
    rewrite Hs, (IH Hi), <- app_assoc. reflexivity.
Qed.

Lemma permutations_single (n : str) :
  singleComponent n -> generateCombinationPermutations n = [n].
Proof.
  intros (H1 & H2 & H3). unfold generateCombinationPermutations.
  rewrite pushedPermutations_plain by assumption.
  unfold uniq. simpl. reflexivity.
Qed.

Lemma single_component_checks (m : Medication)
        (r : DailyMedSearchResult) :
  singleComponent (toLowerCase (name m)) ->
  (isMatch (isAppropriateMatchWithReasons m r) = true ->
   relaxedAccepts m r = true)
  /\ (relaxedAccepts m r = true ->
      isInhalerDelivery (deliveryOf m) = false ->
      toLowerCase (name m) <> lit "tiotropium" ->
      isMatch (isAppropriateMatchWithReasons m r) = true).
Proof.
  intros Hs.
  assert (Hsplit : hd [] (split (lit "/") (toLowerCase (name m)))
                   = toLowerCase (name m)).
  { unfold split. rewrite split_without_separator by apply Hs. reflexivity. }
  unfold isAppropriateMatchWithReasons, relaxedAccepts.
  rewrite (permutations_single Hs), Hsplit. cbn [existsb].
  rewrite (isLowerCased_toLowerCase (name m)).
  rewrite orb_false_r, orb_diag.
  destruct (isVeterinary (lowerTitle r) (lowerLabeler r));
    destruct (includes (lowerTitle r) (toLowerCase (name m)));
    cbn [negb isMatch];
    try (split; [discriminate | intros; discriminate]).
  split.
  - destruct (truthy (deliveryOf m) && isInhalerDelivery (deliveryOf m) && _);
      [discriminate|].
    destruct (truthy (deliveryOf m) && isInhalerDelivery (deliveryOf m) && _);
      [discriminate|].
    destruct (str_eqb _ _ && _ && _); [discriminate|].
    destruct (formulation m);
      destruct (regexTest _ (lowerTitle r)); cbn [negb isMatch]; auto.
  - intros Hr Hd Hn. rewrite Hd, !andb_false_r. cbn [andb].
    apply str_eqb_neq in Hn. rewrite Hn. cbn [andb].
    destruct (formulation m);
      destruct (regexTest _ (lowerTitle r)); cbn [negb isMatch] in *; auto.
Qed.

(** X11.  For a mention whose name has a single component, every candidate
    the strict matcher accepts is one the relaxed check takes; and a
    candidate the relaxed check takes is accepted by the strict matcher
    unless the delivery method is inhaler or handihaler or the name is
    tiotropium: for such names the relaxed check is the strict one without
    the delivery-method and the olodaterol rule. *)
Theorem relaxed_check_of_single_component (m : Medication)
        (r : DailyMedSearchResult) :
  singleComponent (toLowerCase (name m)) ->
  (isMatch (isAppropriateMatchWithReasons m r) = true ->
   relaxedAccepts m r = true)
  /\ (relaxedAccepts m r = true ->
      isInhalerDelivery (deliveryOf m) = false ->
      toLowerCase (name m) <> lit "tiotropium" ->
      isMatch (isAppropriateMatchWithReasons m r) = true).
Proof. apply single_component_checks. Qed.

Lemma relaxed_check_of_single_component_example :
  relaxedAccepts
    (mention "metformin" "500mg" IR "Metformin 500mg twice daily")
    (toSearchResult
       (label "Metformin Hydrochloride Tablets" (Some "Zydus"%string)))
  = true.
Proof.
  apply relaxed_check_of_single_component.
  - repeat split; reflexivity.
  - vm_compute. reflexivity.
Defined.

(** ** A service without state *)

Section Stateless.

Context `{Collaborator} `{ReferenceTexts}.

Lemma uniform_ret {A} (a : A) : uniform (ret a) (Ok a) [] [].
Proof. intros st. exists st. rewrite !app_nil_r. auto. Qed.

Lemma uniform_bind {A B} (c : M A) (f : A -> M B) a r es ds es' ds' :
  uniform c (Ok a) es ds -> uniform (f a) r es' ds' ->
  uniform (bind c f) r (es ++ es') (ds ++ ds').
Proof.
  intros Uc Uf st. destruct (Uc st) as (st1 & E1 & L1 & R1).
  destruct (Uf st1) as (st2 & E2 & L2 & R2).
  exists st2. unfold bind. rewrite E1, E2, L2, R2, L1, R1, !app_assoc. auto.
Qed.

Lemma uniform_tryCatch_ok {A} (body : M A) (h : Exn -> M A) a es ds :
  uniform body (Ok a) es ds -> uniform (tryCatch body h) (Ok a) es ds.
Proof.
  intros Ub st. destruct (Ub st) as (st1 & E1 & L1 & R1).
  exists st1. unfold tryCatch. rewrite E1. auto.
Qed.

Lemma uniform_tryCatch_throw {A} (body : M A) (h : Exn -> M A)
      e r es ds es' ds' :
  uniform body (Throw e) es ds -> uniform (h e) r es' ds' ->
  uniform (tryCatch body h) r (es ++ es') (ds ++ ds').
Proof.
  intros Ub Uh st. destruct (Ub st) as (st1 & E1 & L1 & R1).
  destruct (Uh st1) as (st2 & E2 & L2 & R2).
  exists st2. unfold tryCatch. rewrite E1, E2, L2, R2, L1, R1, !app_assoc.
  auto.
Qed.

Lemma uniform_bind_throw {A B} (c : M A) (f : A -> M B) e es ds :
  uniform c (Throw e) es ds -> uniform (bind c f) (Throw e) es ds.
Proof.
  intros Uc st. destruct (Uc st) as (st1 & E1 & L1 & R1).
  exists st1. unfold bind. rewrite E1. auto.
Qed.

Lemma uniform_pushLog (e : LogEntry) : uniform (pushLog e) (Ok tt) [e] [].
Proof. intros st. eexists. split; [reflexivity|]. simpl. rewrite app_nil_r. auto. Qed.

Lemma uniform_pushResult (d : DailyMedDetails) :
  uniform (pushResult d) (Ok tt) [] [d].
Proof. intros st. eexists. split; [reflexivity|]. simpl. rewrite app_nil_r. auto. Qed.

Lemma uniform_eq {A} (c : M A) r es ds es' ds' :
  uniform c r es ds -> es = es' -> ds = ds' -> uniform c r es' ds'.
Proof. intros U -> ->. exact U. Qed.

Lemma uniform_unique {A} (c : M A) r es ds r' es' ds' (st : State) :
  uniform c r es ds -> uniform c r' es' ds' ->
  r = r' /\ es = es' /\ ds = ds'.
Proof.
  intros U U'. destruct (U st) as (s1 & E1 & L1 & R1).
  destruct (U' st) as (s2 & E2 & L2 & R2).
  rewrite E1 in E2. injection E2 as -> ->.
  rewrite L1 in L2. rewrite R1 in R2.
  apply app_inv_head in L2. apply app_inv_head in R2. auto.
Qed.

Hypothesis stateless : statelessService.

Lemma uniform_searchMedications (w0 : World) (query : str) :
  uniform (searchMedications query)
          (searchOutcome (fst (fetchSpls query w0))) [] [].
Proof.
  intros st. rewrite searchMedications_run. exists (afterRequest query st).
  unfold answerOf. rewrite (stateless query (world st) w0).
  simpl. rewrite !app_nil_r. auto.
Qed.

Lemma uniform_strictStep (w0 : World) (m : Medication) (t : str)
      (loc : Locals) :
  exists loc' es,
    uniform (tryCatch (strictAttempt m t loc) (strictHandler m t loc))
            (Ok loc') es [].
Proof.
  pose proof (uniform_searchMedications w0 t) as Us.
  unfold strictAttempt, strictHandler.
  destruct (searchOutcome (fst (fetchSpls t w0))) as [rs|e].
  - destruct (checkTop m (slice0 3 rs) []) as [best rejected] eqn:E.
    eexists _, _. apply uniform_tryCatch_ok.
    eapply uniform_eq;
      [eapply uniform_bind; [exact Us|]; rewrite E;
       eapply uniform_bind; [apply uniform_pushLog | apply uniform_ret]
      | reflexivity | reflexivity].
  - eexists _, _.
    eapply uniform_eq;
      [eapply uniform_tryCatch_throw;
       [apply uniform_bind_throw; exact Us
       | eapply uniform_bind; [apply uniform_pushLog | apply uniform_ret]]
      | reflexivity | reflexivity].
Qed.

Lemma uniform_strictLoop (w0 : World) (m : Medication) (terms : list str) :
  forall loc,
    exists loc' es, uniform (strictLoop m terms loc) (Ok loc') es [].
Proof.
  induction terms as [|t rest IH]; intros loc; simpl.
  - exists loc, []. apply uniform_ret.
  - destruct (uniform_strictStep w0 m t loc) as (loc1 & es1 & U1).
    destruct (bestResult loc1) eqn:B.
    + exists loc1, (es1 ++ []).
      eapply uniform_eq;
        [eapply uniform_bind; [exact U1|]; rewrite B; apply uniform_ret
        | reflexivity | reflexivity].
    + destruct (IH loc1) as (loc' & es' & U').
      exists loc', (es1 ++ es').
      eapply uniform_eq;
        [eapply uniform_bind; [exact U1|]; rewrite B; exact U'
        | reflexivity | reflexivity].
Qed.

Lemma uniform_relaxedStep (w0 : World) (m : Medication) (t : str) :
  exists o es,
    uniform (tryCatch (relaxedAttempt m t) (fun _ => ret None)) (Ok o) es [].
Proof.
  pose proof (uniform_searchMedications w0 t) as Us.
  unfold relaxedAttempt.
  destruct (searchOutcome (fst (fetchSpls t w0))) as [rs|e].
  - destruct (find (relaxedAccepts m) (slice0 10 rs)) as [r|] eqn:E.
    + eexists _, _. apply uniform_tryCatch_ok.
      eapply uniform_eq;
        [eapply uniform_bind; [exact Us|]; rewrite E;
         eapply uniform_bind; [apply uniform_pushLog | apply uniform_ret]
        | reflexivity | reflexivity].
    + eexists _, _. apply uniform_tryCatch_ok.
      eapply uniform_eq;
        [eapply uniform_bind; [exact Us|]; rewrite E; apply uniform_ret
        | reflexivity | reflexivity].
  - eexists _, _.
    eapply uniform_eq;
      [eapply uniform_tryCatch_throw;
       [apply uniform_bind_throw; exact Us | apply uniform_ret]
      | reflexivity | reflexivity].
Qed.

Lemma uniform_relaxedLoop (w0 : World) (m : Medication) (terms : list str) :
  exists o es, uniform (relaxedLoop m terms) (Ok o) es [].
Proof.
  induction terms as [|t rest IH]; simpl.
  - exists None, []. apply uniform_ret.
  - destruct (uniform_relaxedStep w0 m t) as ([found|] & es1 & U1).
    + exists (Some found), (es1 ++ []).
      eapply uniform_eq;
        [eapply uniform_bind; [exact U1 | apply uniform_ret]
        | reflexivity | reflexivity].
    + destruct IH as (o & es' & U').
      exists o, (es1 ++ es').
      eapply uniform_eq;
        [eapply uniform_bind; [exact U1 | exact U']
        | reflexivity | reflexivity].
Qed.

Lemma uniform_processMedication (w0 : World) (m : Medication) :
  exists es ds, uniform (processMedication m) (Ok tt) es ds.
Proof.
  unfold processMedication.
  destruct (uniform_strictLoop w0 m (generateSearchTerms m) initLocals)
    as (loc1 & es1 & U1).
  assert (U2 : exists loc2 es2,
             uniform (relaxedStage m loc1) (Ok loc2) es2 []).
  { unfold relaxedStage. destruct (bestResult loc1).
    - exists loc1, []. apply uniform_ret.
    - unfold tryRelaxedSearch.
      destruct (uniform_relaxedLoop w0 m (uniq (relaxedSearchTerms m)))
        as ([[r shown]|] & es & U).
      + eexists _, (es ++ []).
        eapply uniform_eq;
          [eapply uniform_bind; [exact U | apply uniform_ret]
          | reflexivity | reflexivity].
      + eexists _, (es ++ []).
        eapply uniform_eq;
          [eapply uniform_bind; [exact U | apply uniform_ret]
          | reflexivity | reflexivity]. }
  destruct U2 as (loc2 & es2 & U2).
  destruct (bestResult loc2) as [best|] eqn:B.
  - eexists _, _.
    eapply uniform_bind; [exact U1|].
    eapply uniform_bind; [exact U2|]. rewrite B. apply uniform_pushResult.
  - eexists _, _.
    eapply uniform_bind; [exact U1|].
    eapply uniform_bind; [exact U2|]. rewrite B. apply uniform_pushLog.
Qed.

Lemma uniform_medicationLoop (w0 : World) (meds : list Medication) :
  exists es ds, uniform (medicationLoop processMedication meds) (Ok tt) es ds.
Proof.
  induction meds as [|m rest (es' & ds' & U')]; simpl.
  - exists [], []. apply uniform_ret.
  - destruct (uniform_processMedication w0 m) as (es & ds & U).
    exists (es ++ es'), (ds ++ ds').
    eapply uniform_bind; [apply uniform_tryCatch_ok; exact U | exact U'].
Qed.

Lemma medicationLoop_app (body : Medication -> M unit)
      (ms1 ms2 : list Medication) :
  forall st,
    medicationLoop body (ms1 ++ ms2) st
    = bind (medicationLoop body ms1) (fun _ => medicationLoop body ms2) st.
Proof.
  induction ms1 as [|m ms1 IH]; intros st.
  - reflexivity.
  - simpl app. rewrite !medicationLoop_cons.
    unfold bind at 1. rewrite medicationLoop_cons.
    destruct (body m st) as [[u|e] st1]; rewrite IH; reflexivity.
Qed.

Lemma batch_uniform (meds : list Medication) (w : World) es ds :
  uniform (medicationLoop processMedication meds) (Ok tt) es ds ->
  exists st, searchMultipleMedications meds w = (Ok (ds, es), st).
Proof.
  intros U. unfold searchMultipleMedications.
  destruct (U (initState w)) as (st & E & L & R).
  rewrite E. exists st. simpl in L, R. rewrite L, R. reflexivity.
Qed.

(** X12.  With a service whose answers do not depend on its state, the
    mentions of a batch are resolved independently: the results and the log
    of a batch are those of its first part followed by those of the rest,
    wherever each started.  In particular, running the same batch again gives
    the same results and the same log. *)
Theorem batch_of_independent_mentions
        (ms1 ms2 : list Medication) (w w1 w2 : World)
        rs1 log1 st1 rs2 log2 st2 :
  searchMultipleMedications ms1 w1 = (Ok (rs1, log1), st1) ->
  searchMultipleMedications ms2 w2 = (Ok (rs2, log2), st2) ->
  exists st,
    searchMultipleMedications (ms1 ++ ms2) w
    = (Ok (rs1 ++ rs2, log1 ++ log2), st).
Proof.
  intros E1 E2.
  destruct (uniform_medicationLoop w ms1) as (es1 & ds1 & U1).
  destruct (uniform_medicationLoop w ms2) as (es2 & ds2 & U2).
  destruct (@batch_uniform ms1 w1 _ _ U1) as (s1 & B1). rewrite E1 in B1.
  destruct (@batch_uniform ms2 w2 _ _ U2) as (s2 & B2). rewrite E2 in B2.
  injection B1 as -> -> _. injection B2 as -> -> _.
  apply batch_uniform.
  assert (U : uniform (bind (medicationLoop processMedication ms1)
                           (fun _ => medicationLoop processMedication ms2))
                     (Ok tt) (es1 ++ es2) (ds1 ++ ds2))
    by (eapply uniform_bind; [exact U1 | exact U2]).
  intros st. rewrite medicationLoop_app. apply U.
Qed.

End Stateless.

Lemma batch_of_independent_mentions_example :
  let batch := @searchMultipleMedications pharmacy noTexts in
  let metformin := mention "metformin" "500mg" IR "metformin 500mg daily" in
  let statin := mention "atorvastatin" "40mg" IR "atorvastatin 40mg" in
  @statelessService pharmacy
  /\ exists rs1 log1 st1 rs2 log2 st2 st,
      batch [metformin] 0 = (Ok (rs1, log1), st1)
      /\ batch [statin] 0 = (Ok (rs2, log2), st2)
      /\ batch ([metformin] ++ [statin]) 7
         = (Ok (rs1 ++ rs2, log1 ++ log2), st).
Proof.
  intros batch metformin statin.
  assert (S : @statelessService pharmacy) by (intros q w w'; reflexivity).
  split; [exact S|].
  destruct (batch [metformin] 0) as [[[rs1 log1]|e1] st1] eqn:E1;
    [|vm_compute in E1; discriminate].
  destruct (batch [statin] 0) as [[[rs2 log2]|e2] st2] eqn:E2;
    [|vm_compute in E2; discriminate].
  destruct (@batch_of_independent_mentions pharmacy noTexts S
              [metformin] [statin] 7 0 0 rs1 log1 st1 rs2 log2 st2 E1 E2)
    as [st E].
  exists rs1, log1, st1, rs2, log2, st2, st. auto.
Defined.


(** ** The retry with corrected search terms *)

Section RetryProperties.

Context `{Collaborator} `{ReferenceTexts}.

Lemma retrySearch_run (meds : list Medication) (t : str) (i : nat)
      (st : State) :
  retrySearch meds t i st
  = (Ok (retryAnswer meds t i (answerOf t st)), afterRequest t st).
Proof.
  unfold retrySearch, tryCatch, bind. rewrite searchMedications_run.
  unfold retryAnswer. destruct (answerOf t st); reflexivity.
Qed.

Lemma retrySearches_run (meds : list Medication) (terms : list str) :
  forall i st,
    exists st' cs,
      retrySearches meds terms i st = (Ok (retried meds i cs), st')
      /\ grownBy st st' cs [] []
      /\ map fst cs = terms.
Proof.
  induction terms as [|t rest IH]; intros i st.
  - exists st, []. split; [reflexivity|]. split; [apply grownBy_refl|reflexivity].
  - destruct (IH (S i) (afterRequest t st)) as (st' & cs & E & G & T).
    exists st', ((t, answerOf t st) :: cs).
    split; [|split].
    + cbn [retrySearches]. unfold bind at 1. rewrite retrySearch_run.
      unfold bind at 1. rewrite E. reflexivity.
    + destruct G as (Gc & Gl & Gr & Ga). repeat split.
      * rewrite Gc. simpl. rewrite <- app_assoc. reflexivity.
      * rewrite Gl. reflexivity.
      * rewrite Gr. reflexivity.
      * constructor; [|exact Ga]. exists (world st). reflexivity.
    + simpl. rewrite T. reflexivity.
Qed.

Lemma retryOutcome_details (meds : list Medication) (t : str) (i : nat)
      (r : Res (list DailyMedSearchResult)) (rr : RetryResult)
      (d : DailyMedDetails) :
  improvedDetails (Some (retryAnswer meds t i r)) = Some (rr, d) ->
  exists m answer c,
    nth_error meds i = Some m /\ r = Ok answer /\ In c (slice0 3 answer)
    /\ strictAccepts m c = true /\ d = detailsOf m c
    /\ rr_searchTerm rr = t /\ rr_resultTitle rr = Some (title c).
Proof.
  unfold improvedDetails, retryAnswer, retryOutcome.
  destruct r as [answer|e]; [|discriminate].
  destruct (nth_error meds i) as [m|]; [|discriminate].
  destruct (negb _); [|discriminate].
  destruct (find _ (slice0 3 answer)) as [c|] eqn:F; [|discriminate].
  cbn. intros E. injection E as <- <-.
  apply find_some in F. destruct F as [Hin Hm].
  exists m, answer, c. repeat split; auto.
Qed.

Lemma mergeFrom_spec (rs0 : list DailyMedDetails) (rrs : list RetryResult)
      (meds : list Medication) :
  forall i acc,
    mergeFrom rs0 rrs i meds acc
    = {| improvedResults :=
           improvedResults acc
           ++ map (fun p => slotAt rs0 rrs (fst p)) (passes i meds);
         improvedSearchLog :=
           improvedSearchLog acc
           ++ map (fun p => entryAt rrs (fst p) (snd p)) (passes i meds);
         foundAtLeastOne :=
           foundAtLeastOne acc
           || existsb (fun p => match improvedDetails (nth_error rrs (fst p))
                                with Some _ => true | None => false end)
                      (passes i meds) |}.
Proof.
  induction meds as [|m rest IH]; intros i acc.
  - simpl. rewrite !app_nil_r, orb_false_r. destruct acc; reflexivity.
  - cbn [mergeFrom passes map existsb fst snd]. rewrite IH.
    unfold mergeAt, slotAt, entryAt.
    destruct (improvedDetails (nth_error rrs i)) as [[r d]|];
      cbn [improvedResults improvedSearchLog foundAtLeastOne];
      rewrite <- !app_assoc; cbn [app];
      rewrite ?orb_true_r, ?orb_true_l, ?orb_false_l; reflexivity.
Qed.


Lemma retryWithCorrections_run (meds : list Medication)
      (rs0 : list DailyMedDetails) (log0 : list LogEntry) (v : Validation)
      (st : State) :
  exists st' cs,
    grownBy st st' cs [] []
    /\ map fst cs = (if retryEntered v then correctedSearchTerms v else [])
    /\ retryWithCorrections meds rs0 log0 v st
       = (Ok (if retryEntered v
                 && existsb (retryFound (retried meds 0 cs)) (passes 0 meds)
              then (notNull (map (fun p => slotAt rs0 (retried meds 0 cs) (fst p))
                                 (passes 0 meds)),
                    log0 ++ map (fun p => entryAt (retried meds 0 cs)
                                                  (fst p) (snd p))
                                (passes 0 meds))
              else (rs0, log0)), st').
Proof.
  unfold retryWithCorrections. fold (retryEntered v).
  destruct (retryEntered v).
  - destruct (retrySearches_run meds (correctedSearchTerms v) 0 st)
      as (st' & cs & E & G & T).
    exists st', cs. split; [exact G|]. split; [exact T|].
    unfold bind. rewrite E, mergeFrom_spec.
    cbn [improvedResults improvedSearchLog foundAtLeastOne app orb andb].
    fold (retryFound (retried meds 0 cs)).
    destruct (existsb _ _); reflexivity.
  - exists st, []. split; [apply grownBy_refl|]. split; reflexivity.
Qed.

Lemma nth_error_retried (meds : list Medication) cs :
  forall k i,
    nth_error (retried meds k cs) i
    = option_map (fun c => retryAnswer meds (fst c) (k + i) (snd c))
                 (nth_error cs i).
Proof.
  induction cs as [|c cs IH]; intros k [|i]; simpl; try reflexivity.
  - rewrite Nat.add_0_r. reflexivity.
  - rewrite IH. rewrite Nat.add_succ_r. reflexivity.
Qed.

Lemma passes_In (meds : list Medication) :
  forall k i m, In (i, m) (passes k meds) ->
                exists j, i = k + j /\ nth_error meds j = Some m.
Proof.
  induction meds as [|a rest IH]; intros k i m; simpl; [tauto|].
  intros [E|Hin].
  - injection E as <- <-. exists 0. rewrite Nat.add_0_r. auto.
  - destruct (IH _ _ _ Hin) as (j & -> & Hj).
    exists (S j). rewrite Nat.add_succ_r. auto.
Qed.

Lemma notNull_In {A} (l : list (option A)) (a : A) :
  In a (notNull l) <-> In (Some a) l.
Proof.
  induction l as [|[x|] l IH]; simpl; [tauto| |].
  - rewrite IH. split; intros [E|Hin]; auto; left; congruence.
  - rewrite IH. split; [auto|]. intros [E|Hin]; [discriminate|auto].
Qed.


Lemma passes_length (meds : list Medication) :
  forall k, List.length (passes k meds) = List.length meds.
Proof.
  induction meds as [|a rest IH]; intros k; simpl; [reflexivity|].
  rewrite IH. reflexivity.
Qed.



(** X13.  Every result the retry returns is one of the results it was given
    or the label of a candidate that stood among the first three of the
    answer to the corrected term with the index of a medication and is
    appropriate for that medication: it is not flagged as veterinary and its
    title does not contradict the formulation. *)
Theorem retry_takes_only_appropriate_candidates
        (meds : list Medication) (rs0 : list DailyMedDetails)
        (log0 : list LogEntry) (v : Validation) (st : State)
        rs log st' :
  retryWithCorrections meds rs0 log0 v st = (Ok (rs, log), st') ->
  forall d,
    In d rs ->
    In d rs0
    \/ exists i m t answer c,
         nth_error meds i = Some m
         /\ nth_error (correctedSearchTerms v) i = Some t
         /\ In (t, Ok answer) (calls st')
         /\ In c (slice0 3 answer)
         /\ d = detailsOf m c
         /\ strictAccepts m c = true
         /\ veterinaryFlagged (title c) (labeler c) = false
         /\ formulationConflict (formulation m) (title c) = false.
Proof.
  intros Run.
  destruct (retryWithCorrections_run meds rs0 log0 v st)
    as (st1 & cs & (Gc & _) & T & E).
  rewrite E in Run. clear E. injection Run as Ers <-.
  destruct (retryEntered v) eqn:En; cbn [andb] in Ers;
    [|injection Ers as <- _; auto].
  destruct (existsb _ _); [|injection Ers as <- _; auto].
  injection Ers as <- _.
  intros d Hd. apply notNull_In, in_map_iff in Hd.
  destruct Hd as ([i m] & Hslot & Hin). cbn [fst] in Hslot.
  unfold slotAt in Hslot.
  destruct (improvedDetails (nth_error (retried meds 0 cs) i))
    as [[rr d']|] eqn:D.
  - right. injection Hslot as ->.
    rewrite nth_error_retried in D.
    destruct (nth_error cs i) as [[t r]|] eqn:C; [|discriminate].
    cbn [option_map fst snd Nat.add] in D.
    destruct (retryOutcome_details _ _ _ _ D)
      as (m' & answer & c & Hm & -> & Hc & Ha & -> & _).
    destruct (strictAccepts_sound _ _ Ha) as [Hv Hf].
    exists i, m', t, answer, c. repeat split; auto.
    + rewrite <- T. rewrite nth_error_map, C. reflexivity.
    + rewrite Gc. apply in_or_app. right.
      eapply nth_error_In. exact C.
  - left. eapply nth_error_In. exact Hslot.
Qed.



Lemma nth_error_passes (meds : list Medication) :
  forall k i,
    nth_error (passes k meds) i
    = option_map (fun m => (k + i, m)) (nth_error meds i).
Proof.
  induction meds as [|a rest IH]; intros k [|i]; simpl; try reflexivity.
  - rewrite Nat.add_0_r. reflexivity.
  - rewrite IH, Nat.add_succ_r. reflexivity.
Qed.

Lemma notNull_all {A} (l : list (option A)) :
  Forall (fun o => o <> None) l -> map Some (notNull l) = l.
Proof.
  induction 1 as [|[a|] l Ha _ IH]; simpl; [reflexivity| |congruence].
  rewrite IH. reflexivity.
Qed.

(** X15.  When every extracted medication had a result before the retry,
    the retry keeps the positions: there are as many results as medications
    afterwards, and the result at an index is the one that was there before
    or a label the retry accepted for the medication at that index. *)
Theorem retry_keeps_positions
        (meds : list Medication) (rs0 : list DailyMedDetails)
        (log0 : list LogEntry) (v : Validation) (st : State)
        rs log st' :
  List.length rs0 = List.length meds ->
  retryWithCorrections meds rs0 log0 v st = (Ok (rs, log), st') ->
  List.length rs = List.length meds
  /\ forall i d,
       nth_error rs i = Some d ->
       nth_error rs0 i = Some d
       \/ exists m c,
            nth_error meds i = Some m
            /\ strictAccepts m c = true
            /\ d = detailsOf m c.
Proof.
  intros L Run.
  destruct (retryWithCorrections_run meds rs0 log0 v st)
    as (st1 & cs & _ & _ & E).
  rewrite E in Run. clear E.
  destruct (retryEntered v && existsb _ _);
    injection Run as <- _ _; [|auto].
  set (slots := map (fun p => slotAt rs0 (retried meds 0 cs) (fst p))
                    (passes 0 meds)).
  assert (A : map Some (notNull slots) = slots).
  { apply notNull_all, Forall_forall. intros o Ho.
    apply in_map_iff in Ho. destruct Ho as ([i m] & <- & Hin).
    apply passes_In in Hin. destruct Hin as (j & -> & Hj).
    cbn [fst Nat.add]. unfold slotAt.
    destruct (improvedDetails _) as [[r d]|]; [discriminate|].
    apply nth_error_Some. rewrite L. apply nth_error_Some. congruence. }
  split.
  - rewrite <- (length_map Some), A. unfold slots.
    rewrite length_map, passes_length. reflexivity.
  - intros i d Hd.
    assert (Hs : nth_error slots i = Some (Some d))
      by (rewrite <- A, nth_error_map, Hd; reflexivity).
    unfold slots in Hs. rewrite nth_error_map, nth_error_passes in Hs.
    destruct (nth_error meds i) as [m|] eqn:M; [|discriminate].
    cbn [option_map fst Nat.add] in Hs. injection Hs as Hs.
    unfold slotAt in Hs.
    destruct (improvedDetails (nth_error (retried meds 0 cs) i))
      as [[rr d']|] eqn:D; [|left; exact Hs].
    right. injection Hs as ->.
    rewrite nth_error_retried in D.
    destruct (nth_error cs i) as [[t r]|]; [|discriminate].
    cbn [option_map fst snd Nat.add] in D.
    destruct (retryOutcome_details _ _ _ _ D)
      as (m' & answer & c & Hm & _ & _ & Ha & -> & _).
    exists m', c. rewrite M in Hm. injection Hm as <-. auto.
Qed.

End RetryProperties.


Lemma retry_takes_only_appropriate_candidates_example :
  let metformin := mention "metformin" "500mg" IR "metformin 500mg daily" in
  let statin := mention "atorvastatin" "40mg" IR "atorvastatin 40mg" in
  let v := {| validated := false;
              issues := [];
              correctedSearchTerms := [lit "metformin tablet";
                                       lit "atorvastatin calcium"] |} in
  exists rs log st',
    @retryWithCorrections pharmacy noTexts [metformin; statin] [] [] v
                          (@initState pharmacy 0)
    = (Ok (rs, log), st')
    /\ map d_title rs = [lit "Metformin Hydrochloride Tablets";
                         lit "Atorvastatin Calcium Tablets"]
    /\ forall d,
        In d rs ->
        In d []
        \/ exists i m t answer c,
             nth_error [metformin; statin] i = Some m
             /\ nth_error (correctedSearchTerms v) i = Some t
             /\ In (t, Ok answer) (calls st')
             /\ In c (slice0 3 answer)
             /\ d = @detailsOf noTexts m c
             /\ strictAccepts m c = true
             /\ veterinaryFlagged (title c) (labeler c) = false
             /\ formulationConflict (formulation m) (title c) = false.
Proof.
  intros metformin statin v.
  destruct (@retryWithCorrections pharmacy noTexts [metformin; statin] [] [] v
              (@initState pharmacy 0)) as [[[rs log]|e] st'] eqn:E;
    [|vm_compute in E; discriminate].
  exists rs, log, st'. split; [reflexivity|]. split.
  - vm_compute in E. injection E as <- _ _. reflexivity.
  - exact (@retry_takes_only_appropriate_candidates pharmacy noTexts
             [metformin; statin] [] [] v (@initState pharmacy 0) rs log st' E).
Defined.

Lemma retry_keeps_positions_example :
  let metformin := mention "metformin" "500mg" IR "metformin 500mg daily" in
  let statin := mention "atorvastatin" "40mg" IR "atorvastatin 40mg" in
  let rs0 :=
    [@detailsOf noTexts metformin
       (toSearchResult
          (label "Metformin Hydrochloride Tablets" (Some "Zydus"%string)));
     @detailsOf noTexts statin
       (toSearchResult
          (label "Atorvastatin Calcium Tablets" (Some "Pfizer"%string)))] in
  let v := {| validated := false;
              issues := [];
              correctedSearchTerms := [lit "metformin tablet";
                                       lit "atorvastatin calcium"] |} in
  List.length rs0 = List.length [metformin; statin]
  /\ exists rs log st',
      @retryWithCorrections pharmacy noTexts [metformin; statin] rs0 [] v
                            (@initState pharmacy 0)
      = (Ok (rs, log), st')
      /\ List.length rs = 2
      /\ forall i d,
           nth_error rs i = Some d ->
           nth_error rs0 i = Some d
           \/ exists m c,
                nth_error [metformin; statin] i = Some m
                /\ strictAccepts m c = true
                /\ d = @detailsOf noTexts m c.
Proof.
  intros metformin statin rs0 v.
  assert (L : List.length rs0 = List.length [metformin; statin])
    by reflexivity.
  split; [exact L|].
  destruct (@retryWithCorrections pharmacy noTexts [metformin; statin] rs0 []
              v (@initState pharmacy 0)) as [[[rs log]|e] st'] eqn:E;
    [|vm_compute in E; discriminate].
  exists rs, log, st'. split; [reflexivity|].
  exact (@retry_keeps_positions pharmacy noTexts [metformin; statin] rs0 []
           v (@initState pharmacy 0) rs log st' L E).
Defined.

(** ** The pattern-based extractor *)

Lemma startsWith_iff (p s : str) :
  startsWith p s = true <-> exists r, s = p ++ r.
Proof.
  revert s. induction p as [|x p IH]; intros s; simpl.
  - split; eauto.
  - destruct s as [|y s].
    + split; [discriminate | intros (r & E); discriminate].
    + rewrite andb_true_iff, Ascii.eqb_eq, IH. split.
      * intros (-> & r & ->). eauto.
      * intros (r & E). injection E as -> ->. eauto.
Qed.

Lemma includes_occurs (s sub : str) :
  includes s sub = true <-> exists pre post, s = pre ++ sub ++ post.
Proof.
  induction s as [|c s IH]; simpl.
  - rewrite orb_false_r, startsWith_iff. split.
    + intros (r & E). exists [], r. exact E.
    + intros (pre & post & E). destruct pre; [eauto|discriminate].
  - rewrite orb_true_iff, startsWith_iff, IH. split.
    + intros [(r & E)|(pre & post & ->)].
      * exists [], r. exact E.
      * exists (c :: pre), post. reflexivity.
    + intros (pre & post & E). destruct pre as [|x pre].
      * left. eauto.
      * right. injection E as -> ->. eauto.
Qed.

Lemma toLowerCase_app (a b : str) :
  toLowerCase (a ++ b) = toLowerCase a ++ toLowerCase b.
Proof. apply map_app. Qed.

Lemma toLowerCase_length (s : str) :
  List.length (toLowerCase s) = List.length s.
Proof. apply length_map. Qed.

Lemma globalMatch_skip (f : str -> option nat) (a rest : str) :
  globalMatch f (List.length a) (a ++ rest) = globalMatch f 0 rest.
Proof.
  induction a as [|c a IH]; simpl; [reflexivity|].
  destruct a as [|c' a']; [destruct rest; reflexivity|exact IH].
Qed.

Lemma globalMatch_occurs (f : str -> option nat) (s : str) :
  forall k m, In m (globalMatch f k s) -> exists pre post, s = pre ++ m ++ post.
Proof.
  induction s as [|c s IH]; intros k m; simpl; [tauto|].
  assert (Later : forall k', In m (globalMatch f k' s) ->
                             exists pre post, c :: s = pre ++ m ++ post).
  { intros k' Hin. destruct (IH _ _ Hin) as (pre & post & ->).
    exists (c :: pre), post. reflexivity. }
  destruct k as [|k]; [|apply Later].
  destruct (f (c :: s)) as [n|]; [|apply Later].
  intros [<-|Hin]; [|eapply Later; exact Hin].
  exists [], (skipn n (c :: s)). simpl app.
  symmetry. apply firstn_skipn.
Qed.

Lemma literalAt_spec (p : string) (s : str) :
  isLowerCased (lit p) ->
  literalAt p s
  = if startsWith (lit p) (toLowerCase s)
    then Some (List.length (lit p)) else None.
Proof.
  intros L. unfold literalAt.
  destruct (startsWith (lit p) (toLowerCase s)) eqn:S.
  - replace (matchAtoms _ _ _ _) with true; [reflexivity|].
    symmetry. apply matchAtoms_spec.
    apply startsWith_iff in S. destruct S as (r & E).
    exists (firstn (List.length (lit p)) s), (skipn (List.length (lit p)) s).
    split; [symmetry; apply firstn_skipn|]. split; [|reflexivity].
    apply (denotes_chars _ _ L).
    unfold toLowerCase in *. rewrite <- firstn_map, E.
    rewrite firstn_app, firstn_all, Nat.sub_diag. simpl.
    apply app_nil_r.
  - destruct (matchAtoms _ _ _ _) eqn:Mt; [|reflexivity].
    apply matchAtoms_spec in Mt. destruct Mt as (mid & rest & -> & D & _).
    apply (denotes_chars _ _ L) in D.
    rewrite toLowerCase_app, D, startsWith_app in S. discriminate.
Qed.

Lemma literal_matches (p : string) (s : str) :
  isLowerCased (lit p) ->
  forall k m, In m (globalMatch (literalAt p) k s) -> toLowerCase m = lit p.
Proof.
  intros L. induction s as [|c s IH]; intros k m; simpl; [tauto|].
  destruct k as [|k]; [|apply IH].
  rewrite (literalAt_spec _ _ L).
  destruct (startsWith _ _) eqn:S; [|apply IH].
  intros [<-|Hin]; [|eapply IH; exact Hin].
  apply startsWith_iff in S. destruct S as (r & E).
  unfold toLowerCase in *. rewrite <- firstn_map, E.
  rewrite firstn_app, firstn_all, Nat.sub_diag. simpl. apply app_nil_r.
Qed.

Lemma literal_found (p : string) (s : str) :
  isLowerCased (lit p) -> lit p <> [] ->
  includes (toLowerCase s) (lit p) = true ->
  globalMatch (literalAt p) 0 s <> [].
Proof.
  intros L N. induction s as [|c s IH]; simpl.
  - rewrite orb_false_r. destruct (lit p); [congruence|discriminate].
  - change (lowerChar c :: toLowerCase s) with (toLowerCase (c :: s)).
    rewrite (literalAt_spec _ _ L).
    destruct (startsWith _ _); [discriminate|].
    simpl. exact IH.
Qed.

(** *** The suffix patterns *)

Lemma forallb_word_toLowerCase (s : str) :
  forallb isWordChar (toLowerCase s) = forallb isWordChar s.
Proof.
  induction s as [|c s IH]; simpl; [reflexivity|].
  rewrite isWordChar_lowerChar, IH. reflexivity.
Qed.

Lemma lastOr_word (prev : option ascii) (s : str) :
  s <> [] -> forallb isWordChar s = true -> isWordOpt (lastOr prev s) = true.
Proof.
  revert prev. induction s as [|c s IH]; intros prev N W; [congruence|].
  simpl in W. apply andb_true_iff in W. destruct W as [Wc Ws].
  rewrite lastOr_cons. destruct s as [|d s]; [exact Wc|].
  apply IH; [discriminate|exact Ws].
Qed.

Lemma run_unique (w mid rest rest' : str) :
  forallb isWordChar w = true -> forallb isWordChar mid = true ->
  isWordOpt (hd_error rest) = false -> isWordOpt (hd_error rest') = false ->
  w ++ rest = mid ++ rest' -> w = mid.
Proof.
  revert mid. induction w as [|c w IH]; intros [|x mid] W Mi R R' E;
    simpl in *; try reflexivity.
  - subst rest. simpl in R. apply andb_true_iff in Mi. destruct Mi. congruence.
  - subst rest'. simpl in R'. apply andb_true_iff in W. destruct W. congruence.
  - injection E as -> E. apply andb_true_iff in W, Mi.
    f_equal. apply IH; tauto.
Qed.

Lemma suffix_here (sfx : string) (prev : option ascii) (w rest : str) :
  wordLiteral sfx ->
  forallb isWordChar w = true -> isWordOpt (hd_error rest) = false ->
  matchAtoms (chars sfx) prev (w ++ rest) wordBoundary
  = str_eqb (toLowerCase w) (lit sfx).
Proof.
  intros (N & L & Wl) W R.
  destruct (str_eqb (toLowerCase w) (lit sfx)) eqn:E.
  - apply str_eqb_eq in E. apply matchAtoms_spec.
    exists w, rest. split; [reflexivity|].
    split; [apply (denotes_chars _ _ L); exact E|].
    unfold wordBoundary. rewrite R, lastOr_word; auto.
    intros ->. simpl in E. congruence.
  - destruct (matchAtoms _ _ _ _) eqn:Mt; [|reflexivity].
    apply matchAtoms_spec in Mt.
    destruct Mt as (mid & rest' & Es & D & B).
    apply (denotes_chars _ _ L) in D.
    assert (Wm : forallb isWordChar mid = true)
      by (rewrite <- forallb_word_toLowerCase, D; exact Wl).
    assert (Nm : mid <> []) by (intros ->; simpl in D; congruence).
    unfold wordBoundary in B. rewrite (lastOr_word prev Nm Wm) in B.
    simpl in B. apply negb_true_iff in B.
    rewrite (run_unique _ _ _ _ W Wm R B Es), D, str_eqb_refl in E.
    discriminate.
Qed.

Lemma wordStar_run (sfx : string) (w rest : str) :
  wordLiteral sfx ->
  forallb isWordChar w = true -> isWordOpt (hd_error rest) = false ->
  forall prev,
    wordStar sfx prev (w ++ rest)
    = if endsWithCi (lit sfx) w then Some (List.length w) else None.
Proof.
  intros Hs W R. induction w as [|c w IH]; intros prev.
  - pose proof (suffix_here prev [] rest Hs eq_refl R) as Here.
    change ([] ++ rest) with rest in *. destruct Hs as (N & _ & _).
    assert (E : str_eqb (toLowerCase []) (lit sfx) = false)
      by (apply str_eqb_neq; cbn; congruence).
    cbn [endsWithCi]. rewrite E in *. cbn [orb].
    destruct rest as [|c r]; cbn [wordStar]; [rewrite Here; reflexivity|].
    cbn [hd_error isWordOpt] in R. rewrite R, Here. reflexivity.
  - cbn [forallb] in W. apply andb_true_iff in W. destruct W as [Wc Ww].
    pose proof (suffix_here prev (c :: w) rest Hs) as Here.
    cbn [forallb] in Here. rewrite Wc, Ww in Here.
    specialize (Here eq_refl R).
    change ((c :: w) ++ rest) with (c :: (w ++ rest)) in *.
    cbn [wordStar]. rewrite Wc, (IH Ww).
    cbn [endsWithCi]. destruct (endsWithCi (lit sfx) w).
    + rewrite orb_true_r. reflexivity.
    + rewrite orb_false_r, Here.
      destruct (str_eqb _ _) eqn:E; [|reflexivity].
      apply str_eqb_eq in E. rewrite <- E, toLowerCase_length. reflexivity.
Qed.

Lemma suffix_scan_run (sfx : string) (w rest : str) :
  wordLiteral sfx ->
  forallb isWordChar w = true -> isWordOpt (hd_error rest) = false ->
  globalMatch (suffixAt sfx) 0 (w ++ rest)
  = (if longerWithSuffix sfx w then [w] else [])
    ++ globalMatch (suffixAt sfx) 0 rest.
Proof.
  intros Hs W R. induction w as [|c w IH]; [reflexivity|].
  cbn [forallb] in W. apply andb_true_iff in W. destruct W as [Wc Ww].
  change ((c :: w) ++ rest) with (c :: (w ++ rest)).
  cbn [globalMatch suffixAt longerWithSuffix].
  rewrite Wc, (@wordStar_run sfx w rest Hs Ww R).
  destruct (endsWithCi (lit sfx) w) eqn:E; cbn [option_map].
  - cbn [firstn Nat.sub app]. rewrite Nat.sub_0_r.
    rewrite firstn_app, firstn_all, Nat.sub_diag, globalMatch_skip.
    cbn [firstn]. rewrite app_nil_r. reflexivity.
  - rewrite (IH Ww).
    replace (longerWithSuffix sfx w) with false; [reflexivity|].
    destruct w as [|d w]; [reflexivity|].
    cbn [longerWithSuffix]. cbn [endsWithCi] in E.
    apply orb_false_iff in E. symmetry. apply E.
Qed.

Lemma suffix_scan_other (sfx : string) (c : ascii) (s : str) :
  isWordChar c = false ->
  globalMatch (suffixAt sfx) 0 (c :: s) = globalMatch (suffixAt sfx) 0 s.
Proof. intros Hc. cbn [globalMatch suffixAt]. rewrite Hc. reflexivity. Qed.

Lemma wordRuns_run (w rest : str) :
  forallb isWordChar w = true -> isWordOpt (hd_error rest) = false ->
  forall cur,
    wordRuns_go cur (w ++ rest)
    = match cur ++ w with [] => [] | x => [x] end ++ wordRuns rest.
Proof.
  intros W R. induction w as [|c w IH]; intros cur.
  - rewrite app_nil_r. change ([] ++ rest) with rest.
    destruct rest as [|c r].
    + unfold wordRuns. cbn [wordRuns_go]. destruct cur; reflexivity.
    + cbn [hd_error isWordOpt] in R. unfold wordRuns.
      cbn [wordRuns_go]. rewrite R. destruct cur; reflexivity.
  - cbn [forallb] in W. apply andb_true_iff in W. destruct W as [Wc Ww].
    change ((c :: w) ++ rest) with (c :: (w ++ rest)).
    cbn [wordRuns_go]. rewrite Wc, (IH Ww), <- app_assoc. reflexivity.
Qed.

Lemma word_span (s : str) :
  exists w rest,
    s = w ++ rest /\ forallb isWordChar w = true
    /\ isWordOpt (hd_error rest) = false.
Proof.
  induction s as [|c s (w & rest & -> & W & R)].
  - exists [], []. auto.
  - destruct (isWordChar c) eqn:Hc.
    + exists (c :: w), rest. cbn [forallb]. rewrite Hc, W. auto.
    + exists [], (c :: w ++ rest). auto.
Qed.

Lemma suffix_scan_words (sfx : string) :
  wordLiteral sfx ->
  forall s,
    globalMatch (suffixAt sfx) 0 s
    = filter (longerWithSuffix sfx) (wordRuns s).
Proof.
  intros Hs s.
  assert (G : forall n s, List.length s <= n ->
                          globalMatch (suffixAt sfx) 0 s
                          = filter (longerWithSuffix sfx) (wordRuns s)).
  { clear s. induction n as [|n IH]; intros s Hn.
    - destruct s; [reflexivity | simpl in Hn; lia].
    - destruct s as [|c s]; [reflexivity|].
      destruct (isWordChar c) eqn:Hc.
      + destruct (word_span s) as (w & rest & -> & W & R).
        assert (W' : forallb isWordChar (c :: w) = true)
          by (cbn [forallb]; rewrite Hc, W; reflexivity).
        change (c :: w ++ rest) with ((c :: w) ++ rest).
        rewrite (@suffix_scan_run sfx (c :: w) rest Hs W' R). unfold wordRuns at 1.
        rewrite (@wordRuns_run (c :: w) rest W' R). cbn [app filter].
        rewrite IH; [destruct (longerWithSuffix sfx (c :: w)); reflexivity|].
        simpl in Hn. rewrite length_app in Hn. lia.
      + rewrite (@suffix_scan_other sfx c s Hc). unfold wordRuns.
        cbn [wordRuns_go]. rewrite Hc. apply IH. simpl in Hn. lia. }
  apply (G (List.length s)). lia.
Qed.

(** *** The map of the names found *)

Lemma mapSet_keys (key : str) (value : Formulation)
      (m : list (str * Formulation)) :
  map fst (mapSet key value m) = setAdd (map fst m) key.
Proof.
  unfold setAdd. induction m as [|[k v] m IH]; [reflexivity|].
  cbn [mapSet map fst mem]. destruct (str_eqb k key) eqn:E.
  - apply str_eqb_eq in E. subst k. rewrite str_eqb_refl. reflexivity.
  - replace (str_eqb key k) with false.
    + cbn [orb map fst]. rewrite IH. destruct (mem key (map fst m)); reflexivity.
    + symmetry. apply str_eqb_neq. apply str_eqb_neq in E. congruence.
Qed.

Lemma mapSet_In (key : str) (value : Formulation)
      (m : list (str * Formulation)) (n : str) (f : Formulation) :
  In (n, f) (mapSet key value m) -> (n = key /\ f = value) \/ In (n, f) m.
Proof.
  induction m as [|[k v] m IH]; cbn [mapSet].
  - intros [E|[]]. injection E as <- <-. auto.
  - destruct (str_eqb k key) eqn:E.
    + apply str_eqb_eq in E. subst k.
      intros [E'|Hin]; [injection E' as <- <-; auto|right; right; exact Hin].
    + intros [E'|Hin]; [right; left; exact E'|].
      destruct (IH Hin); [auto|right; right; assumption].
Qed.

Lemma noteMatch_fold (patientInfo : str) (ms : list str) :
  forall found,
    map fst (fold_left (noteMatch patientInfo) ms found)
    = fold_left setAdd (map toLowerCase ms) (map fst found)
    /\ (Forall (fun e => snd e = patternFormulation
                                   (contextAround patientInfo (fst e))) found ->
        Forall (fun e => snd e = patternFormulation
                                   (contextAround patientInfo (fst e)))
               (fold_left (noteMatch patientInfo) ms found)).
Proof.
  induction ms as [|m ms IH]; intros found; [auto|].
  cbn [fold_left map]. destruct (IH (noteMatch patientInfo found m)) as [K V].
  split.
  - rewrite K. unfold noteMatch. rewrite mapSet_keys. reflexivity.
  - intros F. apply V. apply Forall_forall. intros [n f] Hin.
    unfold noteMatch in Hin. apply mapSet_In in Hin.
    destruct Hin as [[-> ->]|Hin]; [reflexivity|].
    rewrite Forall_forall in F. apply (F _ Hin).
Qed.

Lemma notePatterns_fold {P} (patientInfo : str) (g : P -> list str)
      (ps : list P) :
  forall found,
    fold_left (fun found p => fold_left (noteMatch patientInfo) (g p) found)
              ps found
    = fold_left (noteMatch patientInfo) (flat_map g ps) found.
Proof.
  induction ps as [|p ps IH]; intros found; [reflexivity|].
  cbn [fold_left flat_map]. rewrite IH, fold_left_app. reflexivity.
Qed.

Lemma extractMedicationNames_matches (patientInfo : str) :
  extractMedicationNames patientInfo
  = fold_left (noteMatch patientInfo) (allMatches patientInfo) [].
Proof.
  unfold extractMedicationNames, allMatches.
  rewrite !notePatterns_fold, fold_left_app. reflexivity.
Qed.

Lemma medicationPatterns_literal (p : string) :
  In p medicationPatterns -> wordLiteral p.
Proof.
  unfold medicationPatterns, wordLiteral. cbn [In].
  intros Hp;
    repeat (destruct Hp as [<-|Hp];
            [split; [discriminate | split; reflexivity]|]);
    contradiction.
Qed.

Lemma suffixPatterns_literal (p : string) :
  In p suffixPatterns -> wordLiteral p.
Proof.
  unfold suffixPatterns, wordLiteral. cbn [In].
  intros Hp;
    repeat (destruct Hp as [<-|Hp];
            [split; [discriminate | split; reflexivity]|]);
    contradiction.
Qed.

Lemma wordRuns_occur (s : str) (w : str) :
  In w (wordRuns s) -> exists pre post, s = pre ++ w ++ post.
Proof.
  unfold wordRuns.
  assert (G : forall s cur,
             In w (wordRuns_go cur s) ->
             exists pre post, cur ++ s = pre ++ w ++ post).
  { clear s. induction s as [|c s IH]; intros cur; cbn [wordRuns_go].
    - destruct cur as [|x cur]; [intros []|].
      intros [<-|[]]. exists [], []. rewrite !app_nil_r. reflexivity.
    - destruct (isWordChar c).
      + intros Hin. destruct (IH _ Hin) as (pre & post & E).
        exists pre, post. rewrite <- E, <- app_assoc. reflexivity.
      + assert (Later : In w (wordRuns_go [] s) ->
                        exists pre post, cur ++ c :: s = pre ++ w ++ post).
        { intros Hin. destruct (IH _ Hin) as (pre & post & E).
          exists (cur ++ c :: pre), post. cbn [app] in E.
          rewrite E, <- app_assoc. reflexivity. }
        destruct cur as [|x cur]; [exact Later|].
        intros [<-|Hin]; [|exact (Later Hin)].
        exists [], (c :: s). reflexivity. }
  intros Hin. destruct (G _ _ Hin) as (pre & post & E). eauto.
Qed.

Lemma extractMedicationNames_keys (patientInfo : str) :
  map fst (extractMedicationNames patientInfo)
  = uniq (map toLowerCase (allMatches patientInfo)).
Proof.
  rewrite extractMedicationNames_matches.
  apply (proj1 (noteMatch_fold patientInfo (allMatches patientInfo) [])).
Qed.

Lemma allMatches_occur (patientInfo m : str) :
  In m (allMatches patientInfo) ->
  includes (toLowerCase patientInfo) (toLowerCase m) = true.
Proof.
  intros Hin. apply includes_toLowerCase, includes_occurs.
  unfold allMatches in Hin. apply in_app_iff in Hin.
  destruct Hin as [Hin|Hin]; apply in_flat_map in Hin;
    destruct Hin as (p & _ & Hin); eapply globalMatch_occurs; exact Hin.
Qed.

(** X16.  The pattern-based extractor returns every name once; every name
    is in lower case and stands in the lower-cased text, and its
    formulation is the one of the context window around the first place at
    which the name stands there, whatever follows a later occurrence. *)
Theorem extractMedicationNames_entries (patientInfo : str) :
  NoDup (map fst (extractMedicationNames patientInfo))
  /\ forall n f,
      In (n, f) (extractMedicationNames patientInfo) ->
      isLowerCased n
      /\ includes (toLowerCase patientInfo) n = true
      /\ f = patternFormulation (contextAround patientInfo n).
Proof.
  split.
  - rewrite extractMedicationNames_keys. apply uniq_NoDup.
  - intros n f Hin.
    assert (Hn : In n (map fst (extractMedicationNames patientInfo)))
      by (apply in_map_iff; exists (n, f); auto).
    rewrite extractMedicationNames_keys in Hn.
    apply (proj1 (uniq_In _ _)), in_map_iff in Hn.
    destruct Hn as (m & <- & Hm).
    split; [apply isLowerCased_toLowerCase|].
    split; [apply allMatches_occur; exact Hm|].
    rewrite extractMedicationNames_matches in Hin.
    pose proof (proj2 (noteMatch_fold patientInfo (allMatches patientInfo) [])
                      (Forall_nil _)) as V.
    rewrite Forall_forall in V. apply (V _ Hin).
Qed.

Lemma extracted_names (patientInfo n : str) :
  In n (map fst (extractMedicationNames patientInfo))
  <-> (exists p,
          In p medicationPatterns /\ n = lit p
          /\ includes (toLowerCase patientInfo) (lit p) = true)
      \/ (exists suffix w,
             In suffix suffixPatterns /\ In w (wordRuns patientInfo)
             /\ longerWithSuffix suffix w = true /\ n = toLowerCase w).
Proof.
  rewrite extractMedicationNames_keys, uniq_In, in_map_iff.
  unfold allMatches. split.
  - intros (m & <- & Hin). apply in_app_iff in Hin.
    destruct Hin as [Hin|Hin]; apply in_flat_map in Hin;
      destruct Hin as (p & Hp & Hin).
    + left. exists p.
      pose proof (@medicationPatterns_literal p Hp) as (_ & L & _).
      pose proof (@literal_matches p patientInfo L 0 m Hin) as E.
      split; [exact Hp|]. split; [exact E|]. rewrite <- E.
      apply includes_toLowerCase, includes_occurs.
      eapply globalMatch_occurs; exact Hin.
    + right. exists p, m.
      rewrite (@suffix_scan_words p (@suffixPatterns_literal p Hp) patientInfo) in Hin.
      apply filter_In in Hin. tauto.
  - intros [(p & Hp & -> & Hi)|(sfx & w & Hs & Hw & Hl & ->)].
    + pose proof (@medicationPatterns_literal p Hp) as (N & L & _).
      pose proof (@literal_found p patientInfo L N Hi) as Hne.
      destruct (globalMatch (literalAt p) 0 patientInfo) as [|m ms] eqn:G;
        [congruence|].
      exists m. split.
      * apply (@literal_matches p patientInfo L 0). rewrite G. left. reflexivity.
      * apply in_or_app. left. apply in_flat_map. exists p.
        rewrite G. split; [exact Hp | left; reflexivity].
    + exists w. split; [reflexivity|].
      apply in_or_app. right. apply in_flat_map. exists sfx.
      split; [exact Hs|].
      rewrite (@suffix_scan_words sfx (@suffixPatterns_literal sfx Hs) patientInfo).
      apply filter_In. auto.
Qed.

(** X17.  The names the pattern-based extractor returns are the listed
    names that stand in the lower-cased text, inside a longer word or not,
    and the lower-cased words of the text (maximal runs of letters, digits
    and underscores) that are longer than one of the four suffixes and end
    with it. *)
Theorem extractMedicationNames_names (patientInfo n : str) :
  In n (map fst (extractMedicationNames patientInfo))
  <-> (exists p,
          In p medicationPatterns /\ n = lit p
          /\ includes (toLowerCase patientInfo) (lit p) = true)
      \/ (exists suffix w,
             In suffix suffixPatterns /\ In w (wordRuns patientInfo)
             /\ longerWithSuffix suffix w = true /\ n = toLowerCase w).
Proof. apply extracted_names. Qed.

(** *** The context window *)

Lemma substring_between (s : str) (a b : nat) :
  a <= b <= List.length s ->
  substring s (Z.of_nat a) (Z.of_nat b) = firstn (b - a) (skipn a s).
Proof.
  intros Hab. unfold substring.
  replace (Z.min (Z.max (Z.of_nat a) 0) (Z.of_nat (List.length s)))
    with (Z.of_nat a) by lia.
  replace (Z.min (Z.max (Z.of_nat b) 0) (Z.of_nat (List.length s)))
    with (Z.of_nat b) by lia.
  replace (Z.min (Z.of_nat a) (Z.of_nat b)) with (Z.of_nat a) by lia.
  replace (Z.max (Z.of_nat a) (Z.of_nat b)) with (Z.of_nat b) by lia.
  rewrite <- Nat2Z.inj_sub, !Nat2Z.id by lia. reflexivity.
Qed.

Lemma firstn_beyond {A} (n : nat) (l : list A) :
  firstn (Nat.min (List.length l) n) l = firstn n l.
Proof.
  destruct (Nat.le_gt_cases (List.length l) n) as [Hl|Hl].
  - rewrite Nat.min_l, firstn_all, firstn_all2 by lia. reflexivity.
  - rewrite Nat.min_r by lia. reflexivity.
Qed.

(** X18.  The context window of a name is cut out around the first place at
    which the name stands in the lower-cased text: the 50 code units before
    that place, the name, the name once more and the 50 code units after it.
    What stands further away plays no part in the formulation of the
    name. *)
Theorem contextAround_window (before matched after : str) :
  indexOf (toLowerCase (before ++ matched ++ after)) (toLowerCase matched)
  = Z.of_nat (List.length before) ->
  contextAround (before ++ matched ++ after) (toLowerCase matched)
  = skipn (List.length before - 50) (toLowerCase before)
    ++ toLowerCase matched ++ toLowerCase matched
    ++ firstn 50 (toLowerCase after).
Proof.
  intros Hpos. unfold contextAround. rewrite Hpos.
  rewrite !toLowerCase_app, !length_app, !toLowerCase_length.
  set (p := List.length before). set (k := List.length matched).
  set (q := List.length after).
  set (lb := toLowerCase before). set (lm := toLowerCase matched).
  set (la := toLowerCase after).
  assert (Lb : List.length lb = p) by apply toLowerCase_length.
  assert (Lm : List.length lm = k) by apply toLowerCase_length.
  assert (La : List.length la = q) by apply toLowerCase_length.
  replace (Z.max 0 (Z.of_nat p - 50)) with (Z.of_nat (p - 50)) by lia.
  replace (Z.min (Z.of_nat (p + (k + q))) (Z.of_nat p + Z.of_nat k + 50))
    with (Z.of_nat (p + (k + Nat.min q 50))) by lia.
  rewrite !substring_between by (rewrite !length_app; lia).
  f_equal; [|f_equal].
  - rewrite skipn_app, Lb.
    replace (p - 50 - p) with 0 by lia. cbn [skipn].
    rewrite firstn_app, length_skipn, Lb.
    replace (p - (p - 50) - (p - (p - 50))) with 0 by lia.
    cbn [firstn]. rewrite app_nil_r.
    apply firstn_all2. rewrite length_skipn, Lb. lia.
  - rewrite skipn_app, Lb, Nat.sub_diag.
    rewrite skipn_all2 by lia. cbn [skipn app].
    rewrite firstn_app, Lm.
    replace (p + (k + Nat.min q 50) - p) with (k + Nat.min q 50) by lia.
    rewrite firstn_all2 by lia.
    replace (k + Nat.min q 50 - k) with (Nat.min (List.length la) 50) by lia.
    rewrite firstn_beyond. reflexivity.
Qed.

Lemma contextAround_window_example :
  indexOf (toLowerCase (lit "takes " ++ lit "Metformin" ++ lit " XR 500mg"))
          (toLowerCase (lit "Metformin"))
  = Z.of_nat (List.length (lit "takes "))
  /\ contextAround (lit "takes " ++ lit "Metformin" ++ lit " XR 500mg")
                   (toLowerCase (lit "Metformin"))
     = lit "takes metforminmetformin xr 500mg".
Proof.
  split; [reflexivity|].
  exact (@contextAround_window (lit "takes ") (lit "Metformin")
                               (lit " XR 500mg") eq_refl).
Defined.

(** ** The status message of the route *)

Lemma isLowerCased_quiet (t : str) : isLowerCased t -> quiet t.
Proof.
  rewrite isLowerCased_Forall, Forall_forall. intros F.
  split; intros Hin; apply F in Hin; discriminate.
Qed.

Lemma quiet_app (a b : str) : quiet a -> quiet b -> quiet (a ++ b).
Proof.
  intros [Fa Ea] [Fb Eb]. split; intros Hin; apply in_app_iff in Hin; tauto.
Qed.

Lemma quiet_term (t : str) :
  quiet t ->
  includes t (lit "FAILED") = false /\ includes t (lit "ERROR") = false
  /\ ~ isMarker t.
Proof.
  intros [F E]. split; [|split].
  - destruct (includes t (lit "FAILED")) eqn:I; [|reflexivity].
    apply includes_occurs in I. destruct I as (pre & post & ->).
    exfalso. apply F. apply in_or_app. right. left. reflexivity.
  - destruct (includes t (lit "ERROR")) eqn:I; [|reflexivity].
    apply includes_occurs in I. destruct I as (pre & post & ->).
    exfalso. apply E. apply in_or_app. right. left. reflexivity.
  - intros [-> | ->]; apply E; cbn; tauto.
Qed.

Lemma search_term_quiet (m : Medication) (t : str) :
  In t (generateSearchTerms m) -> quiet t.
Proof.
  intros Hin. apply (proj1 (uniq_In _ _)) in Hin.
  unfold rawSearchTerms in Hin.
  apply in_flat_map in Hin. destruct Hin as (d & Hd & Ht).
  assert (Ln : isLowerCased d).
  { pose proof (isLowerCased_permutations
                  (isLowerCased_toLowerCase (name m))) as F.
    rewrite Forall_forall in F. apply F, Hd. }
  destruct (termsFor_case _ _ _ (isLowerCased_deliveryOf m) Ln Ht)
    as [L|[[_ ->]|[_ ->]]].
  - apply isLowerCased_quiet, L.
  - apply quiet_app; [apply isLowerCased_quiet, Ln|].
    split; cbn; intuition discriminate.
  - apply quiet_app; [apply isLowerCased_quiet, Ln|].
    split; cbn; intuition discriminate.
Qed.

Lemma relaxed_term_quiet (m : Medication) (t : str) :
  In t (uniq (relaxedSearchTerms m)) -> quiet (t ++ lit " (relaxed)").
Proof.
  intros Hin. apply (proj1 (uniq_In _ _)) in Hin.
  apply quiet_app; [|apply isLowerCased_quiet; reflexivity].
  apply isLowerCased_quiet.
  pose proof (isLowerCased_toLowerCase (name m)) as L.
  assert (H : forall sep, isLowerCased
                            (hd [] (split sep (toLowerCase (name m))))).
  { intros sep. pose proof (isLowerCased_split sep L) as F.
    destruct (split sep (toLowerCase (name m))) as [|x l];
      [reflexivity|].
    inversion F. assumption. }
  unfold relaxedSearchTerms in Hin. cbn [In] in Hin.
  destruct Hin as [<-|[<-|[<-|[]]]]; auto.
Qed.

Lemma run_entry_terms (r : MentionRun) (e : LogEntry) :
  runValid r -> In e (runEntries r) ->
  isMarker (l_searchTerm e) \/ quiet (l_searchTerm e).
Proof.
  intros Hv Hin. unfold runEntries in Hin. apply in_app_iff in Hin.
  destruct Hin as [Hin|Hin].
  - right. apply in_map_iff in Hin. destruct Hin as (c & <- & Hc).
    destruct (@runValid_strict r Hv) as [best Hu].
    apply searchedUntil_terms in Hu. destruct Hu as (Hterms & _).
    replace (l_searchTerm (strictEntry (run_mention r) c)) with (fst c)
      by (unfold strictEntry; destruct (snd c); reflexivity).
    eapply search_term_quiet. apply Hterms, Hc.
  - unfold runValid, resolution in Hv.
    destruct (run_closing r) as [x|t x|loc]; cbn [closingEntries In] in Hin.
    + contradiction.
    + destruct Hin as [<-|[]]. right. destruct Hv as [_ Hu].
      cbn [relaxedLogEntry l_searchTerm].
      apply (@relaxed_term_quiet (run_mention r)).
      cbn [searchedUntil] in Hu.
      destruct Hu as (pre & resp & post & _ & -> & _).
      apply in_or_app. right. left. reflexivity.
    + destruct Hin as [<-|[]]. left. left. reflexivity.
Qed.

Section StatusMessage.

Context `{Collaborator} `{ReferenceTexts}.

(** X19.  The status message of the route hides no attempt: the entries
    whose search terms it lists are all the entries of the log of a batch
    but the closing SEARCH_FAILED entries, whatever the medications are
    called. *)
Theorem status_message_lists_every_attempt
        (meds : list Medication) (w : World) :
  exists rs log st,
    searchMultipleMedications meds w = (Ok (rs, log), st)
    /\ searchedEntries log = attemptEntries log
    /\ failedMedications log
       = filter (fun e => negb (isAttemptEntry e)) log.
Proof.
  unfold searchMultipleMedications.
  destruct (medicationLoop_runs meds (initState w))
    as (st & runs & Hrun & _ & Hvalid & (_ & Hl & _ & _)).
  rewrite Hrun. exists (results st), (searchLog st), st.
  split; [reflexivity|]. cbn [initState searchLog app] in Hl. rewrite Hl.
  assert (T : forall e, In e (flat_map runEntries runs) ->
                        isMarker (l_searchTerm e) \/ quiet (l_searchTerm e)).
  { intros e He. apply in_flat_map in He. destruct He as (r & Hr & He).
    rewrite Forall_forall in Hvalid. exact (@run_entry_terms r e (Hvalid r Hr) He). }
  split.
  - unfold searchedEntries, attemptEntries. apply filter_ext_in.
    intros e He. unfold isAttemptEntry.
    destruct (T e He) as [[->| ->]|Q]; [reflexivity|reflexivity|].
    destruct (@quiet_term (l_searchTerm e) Q) as (-> & -> & Hm). unfold isMarker in Hm.
    symmetry. apply andb_true_iff.
    split; apply negb_true_iff, str_eqb_neq; tauto.
  - unfold failedMedications. apply filter_ext_in.
    intros e _. unfold isAttemptEntry.
    rewrite negb_andb, !negb_involutive. reflexivity.
Qed.

End StatusMessage.

(** ** The batch without an extracted list *)

Lemma wordRuns_word (s : str) (w : str) :
  In w (wordRuns s) -> forallb isWordChar w = true.
Proof.
  unfold wordRuns.
  assert (G : forall s cur,
             forallb isWordChar cur = true ->
             In w (wordRuns_go cur s) -> forallb isWordChar w = true).
  { clear s. induction s as [|c s IH]; intros cur Hc; cbn [wordRuns_go].
    - destruct cur; [intros []|]. intros [<-|[]]. exact Hc.
    - destruct (isWordChar c) eqn:W.
      + apply IH. rewrite forallb_app, Hc. cbn. rewrite W. reflexivity.
      + destruct cur as [|x cur]; [apply IH; reflexivity|].
        intros [<-|Hin]; [exact Hc|]. eapply IH; [|exact Hin]. reflexivity. }
  apply G. reflexivity.
Qed.

Lemma word_without (n sep : str) (c : ascii) (rest : str) :
  forallb isWordChar n = true -> sep = c :: rest -> isWordChar c = false ->
  includes n sep = false.
Proof.
  intros W -> Hc. destruct (includes n (c :: rest)) eqn:I; [|reflexivity].
  apply includes_occurs in I. destruct I as (pre & post & ->).
  rewrite forallb_app in W. apply andb_true_iff in W. destruct W as [_ W].
  cbn in W. rewrite Hc in W. discriminate.
Qed.

Lemma word_singleComponent (n : str) :
  forallb isWordChar n = true -> singleComponent n.
Proof.
  intros W. repeat split; eapply word_without; eauto; reflexivity.
Qed.

Lemma endsWithCi_toLowerCase (suffix w : str) :
  endsWithCi suffix (toLowerCase w) = endsWithCi suffix w.
Proof.
  induction w as [|c w IH]; [reflexivity|].
  change (toLowerCase (c :: w)) with (lowerChar c :: toLowerCase w).
  cbn [endsWithCi]. rewrite IH.
  change (lowerChar c :: toLowerCase w) with (toLowerCase (c :: w)).
  rewrite (isLowerCased_toLowerCase (c :: w)). reflexivity.
Qed.

Lemma longerWithSuffix_toLowerCase (suffix : string) (w : str) :
  longerWithSuffix suffix (toLowerCase w) = longerWithSuffix suffix w.
Proof.
  destruct w as [|c w]; [reflexivity|]. apply endsWithCi_toLowerCase.
Qed.

Lemma extracted_name_shape (patientInfo n : str) :
  In n (map fst (extractMedicationNames patientInfo)) ->
  isLowerCased n /\ forallb isWordChar n = true /\ n <> lit "tiotropium".
Proof.
  intros Hin. apply extracted_names in Hin.
  destruct Hin as [(p & Hp & -> & _)|(sfx & w & Hs & Hw & Hl & ->)].
  - unfold medicationPatterns in Hp. cbn [In] in Hp.
    repeat (destruct Hp as [<-|Hp];
            [split; [reflexivity|split; [reflexivity|discriminate]]|]).
    contradiction.
  - split; [apply isLowerCased_toLowerCase|]. split.
    + rewrite forallb_word_toLowerCase. eapply wordRuns_word, Hw.
    + intros E. rewrite <- longerWithSuffix_toLowerCase, E in Hl.
      unfold suffixPatterns in Hs. cbn [In] in Hs.
      repeat (destruct Hs as [<-|Hs]; [discriminate|]). contradiction.
Qed.

(** X20.  When no extracted list is passed, the batch is made of the names
    the patterns find, each once, and for every one of them the relaxed
    check takes exactly the candidates the strict matcher accepts: the
    relaxed pass then differs from the strict one only in the terms it
    searches and in the number of candidates it looks at. *)
Theorem fallback_batch_checks_agree (patientInfo : str) :
  NoDup (map name (batchMedications patientInfo None))
  /\ forall m r,
      In m (batchMedications patientInfo None) ->
      relaxedAccepts m r = isMatch (isAppropriateMatchWithReasons m r).
Proof.
  cbn [batchMedications]. split.
  - rewrite map_map. cbn [fallbackMedication name].
    rewrite extractMedicationNames_keys. apply uniq_NoDup.
  - intros m r Hin. apply in_map_iff in Hin.
    destruct Hin as ([n f] & <- & Hin).
    assert (Hn : In n (map fst (extractMedicationNames patientInfo)))
      by (apply in_map_iff; exists (n, f); auto).
    apply extracted_name_shape in Hn. destruct Hn as (L & W & T).
    set (m := fallbackMedication (n, f)).
    assert (S : singleComponent (toLowerCase (name m)))
      by (cbn [m fallbackMedication name fst]; rewrite L;
          apply word_singleComponent, W).
    destruct (@single_component_checks m r S) as [A B].
    destruct (isMatch (isAppropriateMatchWithReasons m r)) eqn:Es.
    + apply A. reflexivity.
    + destruct (relaxedAccepts m r) eqn:Er; [|reflexivity].
      symmetry. apply B; [reflexivity|reflexivity|].
      cbn [m fallbackMedication name fst]. rewrite L. exact T.
Qed.

(** ** The dosage loop after a batch without failures *)

Section ResolvedBatch.

Context `{Collaborator} `{ReferenceTexts}.

Lemma run_result_own_label (r : MentionRun) :
  runValid r ->
  Forall (fun d => formulationConflict (formulation (run_mention r))
                                       (d_title d) = false)
         (runResults r).
Proof.
  unfold runValid, runResults. intros Hv.
  apply resolution_accepted in Hv.
  destruct (run_closing r) as [c|t c|loc]; cbn [closingResults].
  - constructor; [|constructor]. apply (strictAccepts_sound _ _ Hv).
  - constructor; [|constructor]. apply (relaxedAccepts_sound _ _ Hv).
  - constructor.
Qed.

Lemma runResults_length (r : MentionRun) : List.length (runResults r) <= 1.
Proof. apply closingResults_length. Qed.

Lemma flat_runResults_length (runs : list MentionRun) :
  List.length (flat_map runResults runs) <= List.length runs.
Proof.
  induction runs as [|r runs IH]; cbn [flat_map List.length]; [lia|].
  rewrite length_app. pose proof (runResults_length r). lia.
Qed.

Lemma resolved_runs_aligned (runs : list MentionRun) :
  Forall runValid runs ->
  List.length (flat_map runResults runs) = List.length runs ->
  Forall2 (fun m d => formulationConflict (formulation m) (d_title d) = false)
          (map run_mention runs) (flat_map runResults runs).
Proof.
  induction 1 as [|r runs Hr _ IH]; cbn [flat_map map List.length].
  - constructor.
  - rewrite length_app. intros L.
    pose proof (runResults_length r) as L1.
    pose proof (flat_runResults_length runs) as L2.
    pose proof (@run_result_own_label r Hr) as Own.
    destruct (runResults r) as [|d [|d' ds]]; cbn [List.length] in *;
      try lia.
    cbn [app]. inversion Own as [|? ? Hd _]; subst.
    constructor; [exact Hd|]. apply IH. lia.
Qed.

Lemma applyDosageLogicFrom_aligned (meds : list Medication)
      (ds : list DailyMedDetails) :
  Forall2 (fun m d => formulationConflict (formulation m) (d_title d) = false)
          meds ds ->
  forall pre,
    Forall2 (fun med med' => formulation med = IR -> med' = med)
            meds (applyDosageLogicFrom (pre ++ ds) (List.length pre) meds).
Proof.
  induction 1 as [|m d meds ds Hd _ IH]; intros pre;
    cbn [applyDosageLogicFrom]; constructor.
  - intros Hf. unfold applyDosageLogicAt.
    rewrite nth_error_app2, Nat.sub_diag by lia. cbn [nth_error].
    destruct (truthy (dosage m)); [|reflexivity].
    rewrite Hf in Hd.
    rewrite (dosage_logic_keeps_IR_on_own_label m d Hf Hd), Hf.
    reflexivity.
  - specialize (IH (pre ++ [d])).
    rewrite <- app_assoc, length_app, Nat.add_1_r in IH. exact IH.
Qed.

(** X21.  When every medication of a batch has a result, the dosage loop of
    the route meets each medication with its own label, and a medication
    that is IR leaves the loop as it was. *)
Theorem dosage_loop_after_resolved_batch
        (meds : list Medication) (w : World) rs log st :
  searchMultipleMedications meds w = (Ok (rs, log), st) ->
  List.length rs = List.length meds ->
  Forall2 (fun med med' => formulation med = IR -> med' = med)
          meds (applyDosageLogic meds rs).
Proof.
  unfold searchMultipleMedications.
  destruct (medicationLoop_runs meds (initState w))
    as (st1 & runs & Hrun & Hmeds & Hvalid & (_ & _ & Hr & _)).
  rewrite Hrun. intros E L. injection E as <- _ _.
  cbn [initState results app] in Hr. rewrite Hr in *.
  rewrite <- Hmeds in *. rewrite length_map in L.
  apply (@applyDosageLogicFrom_aligned _ _
           (@resolved_runs_aligned runs Hvalid L) []).
Qed.

End ResolvedBatch.

Lemma dosage_loop_after_resolved_batch_example :
  let metformin := mention "metformin" "500mg" IR "metformin 500mg daily" in
  let statin := mention "atorvastatin" "40mg" IR "atorvastatin 40mg" in
  exists rs log st,
    @searchMultipleMedications pharmacy noTexts [metformin; statin] 0
    = (Ok (rs, log), st)
    /\ List.length rs = List.length [metformin; statin]
    /\ Forall2 (fun med med' => formulation med = IR -> med' = med)
               [metformin; statin]
               (applyDosageLogic [metformin; statin] rs).
Proof.
  intros metformin statin.
  destruct (@searchMultipleMedications pharmacy noTexts [metformin; statin] 0)
    as [[[rs log]|e] st] eqn:E; [|vm_compute in E; discriminate].
  assert (L : List.length rs = List.length [metformin; statin])
    by (vm_compute in E; injection E as <- _ _; reflexivity).
  exists rs, log, st. split; [reflexivity|]. split; [exact L|].
  exact (@dosage_loop_after_resolved_batch pharmacy noTexts
           [metformin; statin] 0 rs log st E L).
Defined.

(** ** The three lists of extended-release words *)

Lemma denotes_weaken (p q : Alternative) :
  Forall2 atomLe p q -> forall mid, denotes p mid -> denotes q mid.
Proof.
  induction 1 as [|a b p q Hab _ IH]; intros mid; [auto|].
  destruct Hab as [<-|[-> Ha]].
  - destruct a; cbn [denotes].
    + intros (x & m & -> & G & D). exists x, m. auto.
    + intros (x & m & -> & G & D). exists x, m. auto.
    + intros [(x & m & -> & G & D)|D]; [left; exists x, m; auto|right; auto].
  - destruct a as [c| |]; cbn [denotes].
    + intros (x & m & -> & G & D). left. exists x, m.
      split; [reflexivity|]. split; [|auto].
      unfold ciEq in G. apply Ascii.eqb_eq in G.
      rewrite <- isLineTerminator_lowerChar, G, isLineTerminator_lowerChar.
      exact Ha.
    + intros (x & m & -> & G & D). left. exists x, m. auto.
    + intros [(x & m & -> & G & D)|D]; [left; exists x, m; auto|right; auto].
Qed.

Lemma regexTest_weaken (r1 r2 : WordRegex) (s : str) :
  (forall a, In a r1 -> exists b, In b r2 /\ Forall2 atomLe a b) ->
  regexTest r1 s = true -> regexTest r2 s = true.
Proof.
  intros Hr. rewrite !regexTest_spec.
  intros (a & pre & mid & post & Ha & D & W).
  destruct (Hr a Ha) as (b & Hb & Le).
  exists b, pre, mid, post. split; [exact Hb|].
  split; [exact (denotes_weaken Le mid D) | exact W].
Qed.

Ltac atoms_le :=
  cbv [chars lit list_ascii_of_string map app];
  repeat (constructor;
          [first [ left; reflexivity
                 | right; split; [reflexivity | first [reflexivity | exact I]] ]
          |]);
  constructor.

(** X22.  The pattern-based extractor and the candidate matchers read the
    same words as extended release, and whatever they read so is an
    explicit extended-release cue for [isExplicitlyER]: a context the
    patterns take for ER, and a title that contradicts IR, would both pass
    the test of the extraction. *)
Theorem extended_release_words_agree (s : str) :
  (patternFormulation s = ER <-> regexTest erIndicators s = true)
  /\ (regexTest erIndicators s = true -> isExplicitlyER s = true).
Proof.
  split; [split|].
  - unfold patternFormulation.
    destruct (regexTest erIndicatorsPattern s) eqn:E; [|discriminate].
    intros _. revert E. apply regexTest_weaken.
    intros a Ha. exists a. split.
    + unfold erIndicatorsPattern, erIndicators in *. cbn [In] in *.
      repeat (destruct Ha as [<-|Ha]; [tauto|]). contradiction.
    + clear. induction a; constructor; [left; reflexivity | assumption].
  - intros E. unfold patternFormulation.
    replace (regexTest erIndicatorsPattern s) with true; [reflexivity|].
    symmetry. revert E. apply regexTest_weaken.
    intros a Ha. exists a. split.
    + unfold erIndicatorsPattern, erIndicators in *. cbn [In] in *.
      repeat (destruct Ha as [<-|Ha]; [tauto|]). contradiction.
    + clear. induction a; constructor; [left; reflexivity | assumption].
  - unfold isExplicitlyER. apply regexTest_weaken.
    intros a Ha. unfold erIndicators in Ha. cbn [In] in Ha.
    destruct Ha as [<-|[<-|[<-|[<-|[<-|[<-|[<-|[<-|[<-|[]]]]]]]]]].
    + exists (chars "extended" ++ [OptAnyChar] ++ chars "release").
      split; [unfold erKeywords; cbn [In]; tauto | atoms_le].
    + exists (chars "extended" ++ [OptAnyChar] ++ chars "release").
      split; [unfold erKeywords; cbn [In]; tauto | atoms_le].
    + exists (chars "er"). split; [unfold erKeywords; cbn [In]; tauto | atoms_le].
    + exists (chars "xl"). split; [unfold erKeywords; cbn [In]; tauto | atoms_le].
    + exists (chars "xr"). split; [unfold erKeywords; cbn [In]; tauto | atoms_le].
    + exists (chars "sustained" ++ [OptAnyChar] ++ chars "release").
      split; [unfold erKeywords; cbn [In]; tauto | atoms_le].
    + exists (chars "sustained" ++ [OptAnyChar] ++ chars "release").
      split; [unfold erKeywords; cbn [In]; tauto | atoms_le].
    + exists (chars "sr"). split; [unfold erKeywords; cbn [In]; tauto | atoms_le].
    + exists (chars "la"). split; [unfold erKeywords; cbn [In]; tauto | atoms_le].
Qed.
